(** * A shallow embedding of the Catan rules engine (training/catan_env.py)

    The engine is embedded function by function.  Python integers are [Z]
    where the code subtracts from them and [nat] where they are list
    indices or lengths; a Python list is a Rocq [list]; the fixed-key
    resource dictionaries are the record [Hand]; code that can raise
    (an index out of range, a failed assertion, [list.index] on a missing
    element) returns [option], with [None] standing for the exception. *)

From Stdlib Require Import ZArith List Lia Bool Permutation.
From stdpp Require Import base numbers option list.

Set Default Proof Using "Type".

(* ------------------------------------------------------------------ *)
(** ** Constants *)
(* ------------------------------------------------------------------ *)

Inductive Resource := lumber | brick | wool | grain | ore.

Definition RESOURCES : list Resource := [lumber; brick; wool; grain; ore].

Inductive Terrain := forest | hills | pasture | fields | mountains | desert.

Inductive DevCard :=
  knight | victory_point | road_building | year_of_plenty | monopoly.

Inductive HarborType := generic | specific (r : Resource).

Inductive BuildingKind := settlement | city.

Inductive Phase :=
  | PRE_GAME | SETUP_PLACE_SETTLEMENT | SETUP_PLACE_ROAD | ROLL_DICE
  | DISCARD | MOVE_ROBBER | STEAL | TRADE_BUILD_PLAY | ROAD_BUILDING_PLACE
  | YEAR_OF_PLENTY_PICK | MONOPOLY_PICK | GAME_OVER.

#[global] Instance Resource_eq_dec : EqDecision Resource.
Proof. solve_decision. Defined.
#[global] Instance Terrain_eq_dec : EqDecision Terrain.
Proof. solve_decision. Defined.
#[global] Instance DevCard_eq_dec : EqDecision DevCard.
Proof. solve_decision. Defined.
#[global] Instance HarborType_eq_dec : EqDecision HarborType.
Proof. solve_decision. Defined.
#[global] Instance BuildingKind_eq_dec : EqDecision BuildingKind.
Proof. solve_decision. Defined.
#[global] Instance Phase_eq_dec : EqDecision Phase.
Proof. solve_decision. Defined.

Definition TERRAIN_DISTRIBUTION : list Terrain :=
  [forest; forest; forest; forest;
   hills; hills; hills;
   pasture; pasture; pasture; pasture;
   fields; fields; fields; fields;
   mountains; mountains; mountains;
   desert].

Definition NUMBER_TOKEN_DISTRIBUTION : list nat :=
  [2; 3; 3; 4; 4; 5; 5; 6; 6; 8; 8; 9; 9; 10; 10; 11; 11; 12].

Definition DEV_CARD_DISTRIBUTION : list DevCard :=
  replicate 14 knight ++ replicate 5 victory_point
  ++ replicate 2 road_building ++ replicate 2 year_of_plenty
  ++ replicate 2 monopoly.

Definition TERRAIN_TO_RESOURCE (t : Terrain) : option Resource :=
  match t with
  | forest => Some lumber
  | hills => Some brick
  | pasture => Some wool
  | fields => Some grain
  | mountains => Some ore
  | desert => None
  end.

(** A resource dictionary [{"lumber": _, "brick": _, "wool": _, "grain": _,
    "ore": _}]: the five keys never change, so it is a record. *)
Record Hand := mkHand {
  n_lumber : Z; n_brick : Z; n_wool : Z; n_grain : Z; n_ore : Z }.

(** [hand[r]] *)
Definition hget (h : Hand) (r : Resource) : Z :=
  match r with
  | lumber => n_lumber h
  | brick => n_brick h
  | wool => n_wool h
  | grain => n_grain h
  | ore => n_ore h
  end.

(** [hand[r] = v] *)
Definition hset (h : Hand) (r : Resource) (v : Z) : Hand :=
  match r with
  | lumber => mkHand v (n_brick h) (n_wool h) (n_grain h) (n_ore h)
  | brick => mkHand (n_lumber h) v (n_wool h) (n_grain h) (n_ore h)
  | wool => mkHand (n_lumber h) (n_brick h) v (n_grain h) (n_ore h)
  | grain => mkHand (n_lumber h) (n_brick h) (n_wool h) v (n_ore h)
  | ore => mkHand (n_lumber h) (n_brick h) (n_wool h) (n_grain h) v
  end.

(** [hand[r] += d] *)
Definition hadd (h : Hand) (r : Resource) (d : Z) : Hand :=
  hset h r (hget h r + d)%Z.

Definition ROAD_COST : Hand := mkHand 1 1 0 0 0.
Definition SETTLEMENT_COST : Hand := mkHand 1 1 1 1 0.
Definition CITY_COST : Hand := mkHand 0 0 0 2 3.
Definition DEV_CARD_COST : Hand := mkHand 0 0 1 1 1.

Definition MAX_SETTLEMENTS : Z := 5.
Definition MAX_CITIES : Z := 4.
Definition MAX_ROADS : Z := 15.
Definition BANK_PER_RESOURCE : Z := 19.

Definition VP_TO_WIN : nat := 10.
Definition MIN_LONGEST_ROAD : nat := 5.
Definition MIN_LARGEST_ARMY : Z := 3.

Definition STANDARD_HARBOR_TYPES : list HarborType :=
  [generic; specific grain; specific ore; generic; specific wool;
   generic; generic; specific brick; specific lumber].

Definition STANDARD_HEX_POSITIONS : list (Z * Z) :=
  [ (0, -2); (1, -2); (2, -2);
    (-1, -1); (0, -1); (1, -1); (2, -1);
    (-2, 0); (-1, 0); (0, 0); (1, 0); (2, 0);
    (-2, 1); (-1, 1); (0, 1); (1, 1);
    (-2, 2); (-1, 2); (0, 2) ]%Z.

(* ------------------------------------------------------------------ *)
(** ** Generic helpers for the Python idioms used by the engine *)
(* ------------------------------------------------------------------ *)

(** [range(n)] *)
Definition range (n : nat) : list nat := seq 0 n.

(** [x in l] on lists of integers *)
Definition mem_nat (x : nat) (l : list nat) : bool := existsb (Nat.eqb x) l.

(** [l[i] = x]: Python raises [IndexError] when [i] is out of range. *)
Definition list_set {A} (l : list A) (i : nat) (x : A) : option (list A) :=
  if (i <? length l)%nat then Some (<[i:=x]> l) else None.

(** A loop whose body can raise: the first exception aborts the loop. *)
Fixpoint foldlM {A B} (f : B → A → option B) (b : B) (l : list A)
  : option B :=
  match l with
  | [] => Some b
  | x :: r => b' ← f b x; foldlM f b' r
  end.

(** A list comprehension with a condition that can raise. *)
Fixpoint filterM {A} (f : A → option bool) (l : list A) : option (list A) :=
  match l with
  | [] => Some []
  | x :: r =>
      b ← f x; r' ← filterM f r;
      Some (if b : bool then x :: r' else r')
  end.

(** [any(f(x) for x in l)]: stops at the first true element, so a later
    element that would raise is not evaluated. *)
Fixpoint anyM {A} (f : A → option bool) (l : list A) : option bool :=
  match l with
  | [] => Some false
  | x :: r => b ← f x; if b : bool then Some true else anyM f r
  end.

(** Index of the first element that satisfies [f]. *)
Fixpoint find_index {A} (f : A → bool) (l : list A) : option nat :=
  match l with
  | [] => None
  | x :: r => if f x then Some 0 else S <$> find_index f r
  end.

(* ------------------------------------------------------------------ *)
(** ** Hex coordinate helpers (axial, pointy-top)

    The source computes corner points in floating point:
    [x = size * (sqrt 3 * q + sqrt 3 / 2 * r) + size * cos (60 i - 30)] and
    [y = size * 1.5 * r + size * sin (60 i - 30)].  Since
    [cos (60 i - 30)] is one of [0], [± sqrt 3 / 2] and [sin (60 i - 30)]
    one of [± 1/2], [± 1], every such point is
    [(size * sqrt 3 / 2 * a, size / 2 * b)] for integers [a] and [b].
    A [Point] holds the pair [(a, b)]: the exact value of the coordinates
    in units of [size * sqrt 3 / 2] (about 43.3) horizontally and
    [size / 2] (25) vertically.  Two such points are within the source's
    tolerance of [0.01] in both coordinates exactly when their integer
    coordinates differ by less than one unit, that is, when they are equal;
    the rounding error of the floating-point evaluation (of the order of
    [1e-13]) is far below both the tolerance and the lattice spacing. *)
(* ------------------------------------------------------------------ *)

Definition Point : Type := Z * Z.

Definition hex_to_pixel (q r : Z) : Point := (2 * q + r, 3 * r)%Z.

(** [cos (60 i - 30)] in units of [sqrt 3 / 2] and [sin (60 i - 30)] in
    units of [1/2], for [i] in [range(6)]. *)
Definition corner_cos (i : nat) : Z :=
  match i with
  | 0%nat => 1 | 1%nat => 1 | 2%nat => 0 | 3%nat => -1 | 4%nat => -1 | _ => 0
  end%Z.

Definition corner_sin (i : nat) : Z :=
  match i with
  | 0%nat => -1 | 1%nat => 1 | 2%nat => 2 | 3%nat => 1 | 4%nat => -1 | _ => -2
  end%Z.

Definition hex_corner (c : Point) (i : nat) : Point :=
  (c.1 + corner_cos i, c.2 + corner_sin i)%Z.

Definition hex_corners (c : Point) : list Point :=
  map (hex_corner c) (range 6).

(** [abs(a[0] - b[0]) < eps and abs(a[1] - b[1]) < eps], with [eps] less
    than one lattice unit. *)
Definition points_equal (a b : Point) : bool :=
  (Z.abs (a.1 - b.1) <? 1)%Z && (Z.abs (a.2 - b.2) <? 1)%Z.

(* ------------------------------------------------------------------ *)
(** ** Board topology *)
(* ------------------------------------------------------------------ *)

Record BoardTopology := mkTopology {
  hex_coords : list (Z * Z);
  hex_centers : list Point;
  vertex_positions : list Point;
  vertex_count : nat;
  edge_count : nat;
  vertex_adjacent_vertices : list (list nat);
  vertex_adjacent_edges : list (list nat);
  vertex_adjacent_hexes : list (list nat);
  edge_endpoints : list (nat * nat);
  edge_adjacent_edges : list (list nat);
  hex_vertices : list (list nat);
  hex_edges : list (list nat) }.

(** Steps 1 and 2 of [build_board_topology]: one corner of one hex. *)
Definition dedup_corner (acc : list Point * list nat) (corner : Point)
  : list Point * list nat :=
  let '(vertex_positions, vids) := acc in
  match find_index (fun vp => points_equal vp corner) vertex_positions with
  | Some existing => (vertex_positions, vids ++ [existing])
  | None =>
      (vertex_positions ++ [corner], vids ++ [length vertex_positions])
  end.

Definition dedup_hex (acc : list Point * list (list nat)) (center : Point)
  : list Point * list (list nat) :=
  let '(vertex_positions, hex_corner_vids) := acc in
  let '(vertex_positions', vids) :=
    fold_left dedup_corner (hex_corners center) (vertex_positions, []) in
  (vertex_positions', hex_corner_vids ++ [vids]).

(** The dictionary [edge_map], keyed by [(min, max)] vertex pairs. *)
Definition EdgeMap : Type := list ((nat * nat) * nat).

Fixpoint edge_map_get (key : nat * nat) (m : EdgeMap) : option nat :=
  match m with
  | [] => None
  | (k, e) :: r =>
      if (k.1 =? key.1)%nat && (k.2 =? key.2)%nat then Some e
      else edge_map_get key r
  end.

(** Step 3: side [i] of a hex with corner vertices [vids]. *)
Definition edge_step (vids : list nat)
    (acc : list (nat * nat) * EdgeMap * list nat) (i : nat)
  : option (list (nat * nat) * EdgeMap * list nat) :=
  let '(edge_endpoints, edge_map, eids) := acc in
  v1 ← vids !! i;
  v2 ← vids !! ((i + 1) mod 6);
  let key := (Nat.min v1 v2, Nat.max v1 v2) in
  let '(edge_endpoints, edge_map) :=
    match edge_map_get key edge_map with
    | None =>
        (edge_endpoints ++ [key], (key, length edge_endpoints) :: edge_map)
    | Some _ => (edge_endpoints, edge_map)
    end in
  e ← edge_map_get key edge_map;
  Some (edge_endpoints, edge_map, eids ++ [e]).

Definition edge_hex (hex_corner_vids : list (list nat))
    (acc : list (nat * nat) * EdgeMap * list (list nat)) (hid : nat)
  : option (list (nat * nat) * EdgeMap * list (list nat)) :=
  let '(edge_endpoints, edge_map, hex_edge_ids) := acc in
  vids ← hex_corner_vids !! hid;
  '(edge_endpoints, edge_map, eids) ←
    foldlM (edge_step vids) (edge_endpoints, edge_map, []) (range 6);
  Some (edge_endpoints, edge_map, hex_edge_ids ++ [eids]).

(** [if x not in tbl[i]: tbl[i].append(x)] *)
Definition append_new (tbl : list (list nat)) (i x : nat)
  : option (list (list nat)) :=
  cur ← tbl !! i;
  if mem_nat x cur then Some tbl else list_set tbl i (cur ++ [x]).

(** [tbl[i].append(x)] *)
Definition append_at (tbl : list (list nat)) (i x : nat)
  : option (list (list nat)) :=
  cur ← tbl !! i; list_set tbl i (cur ++ [x]).

Definition build_v_adj_hexes (vertex_count : nat)
    (hex_vertices : list (list nat)) (n_hexes : nat)
  : option (list (list nat)) :=
  foldlM (fun tbl hid =>
            vids ← hex_vertices !! hid;
            foldlM (fun tbl vid => append_new tbl vid hid) tbl vids)
         (replicate vertex_count []) (range n_hexes).

Definition build_v_adj_edges (vertex_count : nat)
    (edge_endpoints : list (nat * nat)) : option (list (list nat)) :=
  foldlM (fun tbl '(eid, (v1, v2)) =>
            tbl ← append_at tbl v1 eid; append_at tbl v2 eid)
         (replicate vertex_count []) (imap (fun i e => (i, e)) edge_endpoints).

Definition build_v_adj_verts (vertex_count : nat)
    (edge_endpoints : list (nat * nat)) : option (list (list nat)) :=
  foldlM (fun tbl '(v1, v2) =>
            tbl ← append_new tbl v1 v2; append_new tbl v2 v1)
         (replicate vertex_count []) edge_endpoints.

Definition build_e_adj_edges (edge_count : nat)
    (edge_endpoints : list (nat * nat)) (v_adj_edges : list (list nat))
  : option (list (list nat)) :=
  foldlM (fun tbl eid =>
            '(v1, v2) ← edge_endpoints !! eid;
            let add tbl adj_eid :=
              if negb (adj_eid =? eid)%nat then append_new tbl eid adj_eid
              else Some tbl in
            adj1 ← v_adj_edges !! v1;
            tbl ← foldlM add tbl adj1;
            adj2 ← v_adj_edges !! v2;
            foldlM add tbl adj2)
         (replicate edge_count []) (range edge_count).

Definition build_board_topology (hex_positions : list (Z * Z))
  : option BoardTopology :=
  let hex_centers := map (fun '(q, r) => hex_to_pixel q r) hex_positions in
  let '(vertex_positions, hex_corner_vids) :=
    fold_left dedup_hex hex_centers ([], []) in
  let vertex_count := length vertex_positions in
  '(edge_endpoints, _, hex_edge_ids) ←
    foldlM (edge_hex hex_corner_vids) ([], [], [])
           (range (length hex_positions));
  let edge_count := length edge_endpoints in
  v_adj_hexes ←
    build_v_adj_hexes vertex_count hex_corner_vids (length hex_positions);
  v_adj_edges ← build_v_adj_edges vertex_count edge_endpoints;
  v_adj_verts ← build_v_adj_verts vertex_count edge_endpoints;
  e_adj_edges ← build_e_adj_edges edge_count edge_endpoints v_adj_edges;
  Some {| hex_coords := hex_positions;
          hex_centers := hex_centers;
          vertex_positions := vertex_positions;
          vertex_count := vertex_count;
          edge_count := edge_count;
          vertex_adjacent_vertices := v_adj_verts;
          vertex_adjacent_edges := v_adj_edges;
          vertex_adjacent_hexes := v_adj_hexes;
          edge_endpoints := edge_endpoints;
          edge_adjacent_edges := e_adj_edges;
          hex_vertices := hex_corner_vids;
          hex_edges := hex_edge_ids |}.

(** The topology of the standard board, evaluated once. *)
Definition standard_topology : BoardTopology :=
  Eval vm_compute in
    default (mkTopology [] [] [] 0 0 [] [] [] [] [] [] [])
            (build_board_topology STANDARD_HEX_POSITIONS).

(* ------------------------------------------------------------------ *)
(** ** Harbors *)
(* ------------------------------------------------------------------ *)

Record Harbor := mkHarbor {
  harbor_type : HarborType;
  harbor_vertices : nat * nat }.

(** [h.vertices[0] in player_vertices or h.vertices[1] in player_vertices] *)
Definition has_access (h : Harbor) (player_vertices : list nat) : bool :=
  mem_nat (harbor_vertices h).1 player_vertices
  || mem_nat (harbor_vertices h).2 player_vertices.

(** Best trade ratio for [resource] given the player's buildings. *)
Definition get_trade_ratio (harbors : list Harbor) (player_vertices : list nat)
    (resource : Resource) : Z :=
  fold_left
    (fun ratio h =>
       if negb (has_access h player_vertices) then ratio
       else match harbor_type h with
            | generic => Z.min ratio 3
            | specific r =>
                if bool_decide (r = resource) then Z.min ratio 2 else ratio
            end)
    harbors 4%Z.

(* ------------------------------------------------------------------ *)
(** ** Tiny helpers *)
(* ------------------------------------------------------------------ *)

Definition _empty_resources : Hand := mkHand 0 0 0 0 0.

Definition _has_resources (hand cost : Hand) : bool :=
  forallb (fun r => (hget cost r <=? hget hand r)%Z) RESOURCES.

Definition _total_resources (hand : Hand) : Z :=
  fold_right (fun r acc => (hget hand r + acc)%Z) 0%Z RESOURCES.

(** [{r: hand[r] - cost.get(r, 0) for r in RESOURCES}] *)
Definition _subtract (hand cost : Hand) : Hand :=
  mkHand (n_lumber hand - n_lumber cost) (n_brick hand - n_brick cost)
         (n_wool hand - n_wool cost) (n_grain hand - n_grain cost)
         (n_ore hand - n_ore cost).

(** [{r: hand[r] + cost.get(r, 0) for r in RESOURCES}] *)
Definition _add (hand cost : Hand) : Hand :=
  mkHand (n_lumber hand + n_lumber cost) (n_brick hand + n_brick cost)
         (n_wool hand + n_wool cost) (n_grain hand + n_grain cost)
         (n_ore hand + n_ore cost).

(* ------------------------------------------------------------------ *)
(** ** Player state *)
(* ------------------------------------------------------------------ *)

Record PlayerState := mkPlayer {
  id : nat;
  resources : Hand;
  dev_cards : list DevCard;
  new_dev_cards : list DevCard;
  knights_played : Z;
  remaining_settlements : Z;
  remaining_cities : Z;
  remaining_roads : Z;
  has_played_dev_card_this_turn : bool }.

Definition new_player (i : nat) : PlayerState :=
  mkPlayer i _empty_resources [] [] 0 MAX_SETTLEMENTS MAX_CITIES MAX_ROADS
           false.

Definition set_resources (p : PlayerState) (h : Hand) : PlayerState :=
  mkPlayer (id p) h (dev_cards p) (new_dev_cards p) (knights_played p)
           (remaining_settlements p) (remaining_cities p) (remaining_roads p)
           (has_played_dev_card_this_turn p).

Definition set_dev_cards (p : PlayerState) (d n : list DevCard)
  : PlayerState :=
  mkPlayer (id p) (resources p) d n (knights_played p)
           (remaining_settlements p) (remaining_cities p) (remaining_roads p)
           (has_played_dev_card_this_turn p).

Definition set_knights_played (p : PlayerState) (k : Z) : PlayerState :=
  mkPlayer (id p) (resources p) (dev_cards p) (new_dev_cards p) k
           (remaining_settlements p) (remaining_cities p) (remaining_roads p)
           (has_played_dev_card_this_turn p).

Definition set_remaining (p : PlayerState) (st ci ro : Z) : PlayerState :=
  mkPlayer (id p) (resources p) (dev_cards p) (new_dev_cards p)
           (knights_played p) st ci ro (has_played_dev_card_this_turn p).

Definition set_has_played (p : PlayerState) (b : bool) : PlayerState :=
  mkPlayer (id p) (resources p) (dev_cards p) (new_dev_cards p)
           (knights_played p) (remaining_settlements p) (remaining_cities p)
           (remaining_roads p) b.

(* ------------------------------------------------------------------ *)
(** ** Game state *)
(* ------------------------------------------------------------------ *)

Definition Building : Type := BuildingKind * nat.

Record CatanState := mkState {
  phase : Phase;
  current_player : nat;
  player_count : nat;
  turn_number : Z;
  topology : option BoardTopology;
  hex_terrains : list Terrain;
  hex_numbers : list (option nat);
  vertex_buildings : list (option Building);
  edge_roads : list (option nat);
  harbors : list Harbor;
  robber_hex : nat;
  players : list PlayerState;
  dev_card_deck : list DevCard;
  bank : Hand;
  longest_road_player : option nat;
  longest_road_length : nat;
  largest_army_player : option nat;
  largest_army_size : Z;
  last_roll : option (nat * nat);
  setup_round : nat;
  setup_index : nat;
  players_needing_discard : list nat;
  road_building_roads_left : Z;
  last_placed_vertex : option nat;
  winner : option nat }.

(** The dataclass defaults: the state of an engine that was constructed
    but not yet reset. *)
Definition default_state : CatanState :=
  mkState PRE_GAME 0 4 0 None [] [] [] [] [] 0 [] []
          (mkHand BANK_PER_RESOURCE BANK_PER_RESOURCE BANK_PER_RESOURCE
                  BANK_PER_RESOURCE BANK_PER_RESOURCE)
          None 0 None 0 None 0 0 [] 0 None None.

(** Field assignments [state.f = v]. *)
Definition set_phase (s : CatanState) (v : Phase) : CatanState :=
  mkState v (current_player s) (player_count s) (turn_number s) (topology s)
    (hex_terrains s) (hex_numbers s) (vertex_buildings s) (edge_roads s)
    (harbors s) (robber_hex s) (players s) (dev_card_deck s) (bank s)
    (longest_road_player s) (longest_road_length s) (largest_army_player s)
    (largest_army_size s) (last_roll s) (setup_round s) (setup_index s)
    (players_needing_discard s) (road_building_roads_left s)
    (last_placed_vertex s) (winner s).

Definition set_current_player (s : CatanState) (v : nat) : CatanState :=
  mkState (phase s) v (player_count s) (turn_number s) (topology s)
    (hex_terrains s) (hex_numbers s) (vertex_buildings s) (edge_roads s)
    (harbors s) (robber_hex s) (players s) (dev_card_deck s) (bank s)
    (longest_road_player s) (longest_road_length s) (largest_army_player s)
    (largest_army_size s) (last_roll s) (setup_round s) (setup_index s)
    (players_needing_discard s) (road_building_roads_left s)
    (last_placed_vertex s) (winner s).

Definition set_turn_number (s : CatanState) (v : Z) : CatanState :=
  mkState (phase s) (current_player s) (player_count s) v (topology s)
    (hex_terrains s) (hex_numbers s) (vertex_buildings s) (edge_roads s)
    (harbors s) (robber_hex s) (players s) (dev_card_deck s) (bank s)
    (longest_road_player s) (longest_road_length s) (largest_army_player s)
    (largest_army_size s) (last_roll s) (setup_round s) (setup_index s)
    (players_needing_discard s) (road_building_roads_left s)
    (last_placed_vertex s) (winner s).

Definition set_vertex_buildings (s : CatanState)
    (v : list (option Building)) : CatanState :=
  mkState (phase s) (current_player s) (player_count s) (turn_number s)
    (topology s) (hex_terrains s) (hex_numbers s) v (edge_roads s)
    (harbors s) (robber_hex s) (players s) (dev_card_deck s) (bank s)
    (longest_road_player s) (longest_road_length s) (largest_army_player s)
    (largest_army_size s) (last_roll s) (setup_round s) (setup_index s)
    (players_needing_discard s) (road_building_roads_left s)
    (last_placed_vertex s) (winner s).

Definition set_edge_roads (s : CatanState) (v : list (option nat))
  : CatanState :=
  mkState (phase s) (current_player s) (player_count s) (turn_number s)
    (topology s) (hex_terrains s) (hex_numbers s) (vertex_buildings s) v
    (harbors s) (robber_hex s) (players s) (dev_card_deck s) (bank s)
    (longest_road_player s) (longest_road_length s) (largest_army_player s)
    (largest_army_size s) (last_roll s) (setup_round s) (setup_index s)
    (players_needing_discard s) (road_building_roads_left s)
    (last_placed_vertex s) (winner s).

Definition set_robber_hex (s : CatanState) (v : nat) : CatanState :=
  mkState (phase s) (current_player s) (player_count s) (turn_number s)
    (topology s) (hex_terrains s) (hex_numbers s) (vertex_buildings s)
    (edge_roads s) (harbors s) v (players s) (dev_card_deck s) (bank s)
    (longest_road_player s) (longest_road_length s) (largest_army_player s)
    (largest_army_size s) (last_roll s) (setup_round s) (setup_index s)
    (players_needing_discard s) (road_building_roads_left s)
    (last_placed_vertex s) (winner s).

Definition set_players (s : CatanState) (v : list PlayerState)
  : CatanState :=
  mkState (phase s) (current_player s) (player_count s) (turn_number s)
    (topology s) (hex_terrains s) (hex_numbers s) (vertex_buildings s)
    (edge_roads s) (harbors s) (robber_hex s) v (dev_card_deck s) (bank s)
    (longest_road_player s) (longest_road_length s) (largest_army_player s)
    (largest_army_size s) (last_roll s) (setup_round s) (setup_index s)
    (players_needing_discard s) (road_building_roads_left s)
    (last_placed_vertex s) (winner s).

Definition set_dev_card_deck (s : CatanState) (v : list DevCard)
  : CatanState :=
  mkState (phase s) (current_player s) (player_count s) (turn_number s)
    (topology s) (hex_terrains s) (hex_numbers s) (vertex_buildings s)
    (edge_roads s) (harbors s) (robber_hex s) (players s) v (bank s)
    (longest_road_player s) (longest_road_length s) (largest_army_player s)
    (largest_army_size s) (last_roll s) (setup_round s) (setup_index s)
    (players_needing_discard s) (road_building_roads_left s)
    (last_placed_vertex s) (winner s).

Definition set_bank (s : CatanState) (v : Hand) : CatanState :=
  mkState (phase s) (current_player s) (player_count s) (turn_number s)
    (topology s) (hex_terrains s) (hex_numbers s) (vertex_buildings s)
    (edge_roads s) (harbors s) (robber_hex s) (players s) (dev_card_deck s)
    v (longest_road_player s) (longest_road_length s)
    (largest_army_player s) (largest_army_size s) (last_roll s)
    (setup_round s) (setup_index s) (players_needing_discard s)
    (road_building_roads_left s) (last_placed_vertex s) (winner s).

Definition set_longest_road (s : CatanState) (p : option nat) (l : nat)
  : CatanState :=
  mkState (phase s) (current_player s) (player_count s) (turn_number s)
    (topology s) (hex_terrains s) (hex_numbers s) (vertex_buildings s)
    (edge_roads s) (harbors s) (robber_hex s) (players s) (dev_card_deck s)
    (bank s) p l (largest_army_player s) (largest_army_size s) (last_roll s)
    (setup_round s) (setup_index s) (players_needing_discard s)
    (road_building_roads_left s) (last_placed_vertex s) (winner s).

Definition set_largest_army (s : CatanState) (p : option nat) (n : Z)
  : CatanState :=
  mkState (phase s) (current_player s) (player_count s) (turn_number s)
    (topology s) (hex_terrains s) (hex_numbers s) (vertex_buildings s)
    (edge_roads s) (harbors s) (robber_hex s) (players s) (dev_card_deck s)
    (bank s) (longest_road_player s) (longest_road_length s) p n
    (last_roll s) (setup_round s) (setup_index s)
    (players_needing_discard s) (road_building_roads_left s)
    (last_placed_vertex s) (winner s).

Definition set_last_roll (s : CatanState) (v : option (nat * nat))
  : CatanState :=
  mkState (phase s) (current_player s) (player_count s) (turn_number s)
    (topology s) (hex_terrains s) (hex_numbers s) (vertex_buildings s)
    (edge_roads s) (harbors s) (robber_hex s) (players s) (dev_card_deck s)
    (bank s) (longest_road_player s) (longest_road_length s)
    (largest_army_player s) (largest_army_size s) v (setup_round s)
    (setup_index s) (players_needing_discard s) (road_building_roads_left s)
    (last_placed_vertex s) (winner s).

Definition set_setup (s : CatanState) (round index : nat) : CatanState :=
  mkState (phase s) (current_player s) (player_count s) (turn_number s)
    (topology s) (hex_terrains s) (hex_numbers s) (vertex_buildings s)
    (edge_roads s) (harbors s) (robber_hex s) (players s) (dev_card_deck s)
    (bank s) (longest_road_player s) (longest_road_length s)
    (largest_army_player s) (largest_army_size s) (last_roll s) round index
    (players_needing_discard s) (road_building_roads_left s)
    (last_placed_vertex s) (winner s).

Definition set_players_needing_discard (s : CatanState) (v : list nat)
  : CatanState :=
  mkState (phase s) (current_player s) (player_count s) (turn_number s)
    (topology s) (hex_terrains s) (hex_numbers s) (vertex_buildings s)
    (edge_roads s) (harbors s) (robber_hex s) (players s) (dev_card_deck s)
    (bank s) (longest_road_player s) (longest_road_length s)
    (largest_army_player s) (largest_army_size s) (last_roll s)
    (setup_round s) (setup_index s) v (road_building_roads_left s)
    (last_placed_vertex s) (winner s).

Definition set_road_building_roads_left (s : CatanState) (v : Z)
  : CatanState :=
  mkState (phase s) (current_player s) (player_count s) (turn_number s)
    (topology s) (hex_terrains s) (hex_numbers s) (vertex_buildings s)
    (edge_roads s) (harbors s) (robber_hex s) (players s) (dev_card_deck s)
    (bank s) (longest_road_player s) (longest_road_length s)
    (largest_army_player s) (largest_army_size s) (last_roll s)
    (setup_round s) (setup_index s) (players_needing_discard s) v
    (last_placed_vertex s) (winner s).

Definition set_last_placed_vertex (s : CatanState) (v : option nat)
  : CatanState :=
  mkState (phase s) (current_player s) (player_count s) (turn_number s)
    (topology s) (hex_terrains s) (hex_numbers s) (vertex_buildings s)
    (edge_roads s) (harbors s) (robber_hex s) (players s) (dev_card_deck s)
    (bank s) (longest_road_player s) (longest_road_length s)
    (largest_army_player s) (largest_army_size s) (last_roll s)
    (setup_round s) (setup_index s) (players_needing_discard s)
    (road_building_roads_left s) v (winner s).

Definition set_winner (s : CatanState) (v : option nat) : CatanState :=
  mkState (phase s) (current_player s) (player_count s) (turn_number s)
    (topology s) (hex_terrains s) (hex_numbers s) (vertex_buildings s)
    (edge_roads s) (harbors s) (robber_hex s) (players s) (dev_card_deck s)
    (bank s) (longest_road_player s) (longest_road_length s)
    (largest_army_player s) (largest_army_size s) (last_roll s)
    (setup_round s) (setup_index s) (players_needing_discard s)
    (road_building_roads_left s) (last_placed_vertex s) v.

(** [state.players[pid] = f(state.players[pid])] *)
Definition update_player (s : CatanState) (pid : nat)
    (f : PlayerState → PlayerState) : option CatanState :=
  p ← players s !! pid;
  ps ← list_set (players s) pid (f p);
  Some (set_players s ps).

(** [state.players[pid].resources[r] += d] *)
Definition add_player_resource (s : CatanState) (pid : nat) (r : Resource)
    (d : Z) : option CatanState :=
  update_player s pid (fun p => set_resources p (hadd (resources p) r d)).

(** [state.bank[r] += d] *)
Definition add_bank (s : CatanState) (r : Resource) (d : Z) : CatanState :=
  set_bank s (hadd (bank s) r d).

(** The loop [for r in RESOURCES: p.resources[r] -= cost[r];
    s.bank[r] += cost[r]] of the build and buy actions. *)
Definition pay_cost (s : CatanState) (pid : nat) (cost : Hand)
  : option CatanState :=
  foldlM (fun s r =>
            s ← add_player_resource s pid r (- hget cost r);
            Some (add_bank s r (hget cost r)))
         s RESOURCES.

(** [get_setup_order]: e.g. with 4 players [0,1,2,3,3,2,1,0]. *)
Definition get_setup_order (player_count : nat) : list nat :=
  let forward := range player_count in forward ++ rev forward.

(* ------------------------------------------------------------------ *)
(** ** Longest road *)
(* ------------------------------------------------------------------ *)

(** [owner == player] for an optional owner. *)
Definition owner_is (owner : option nat) (player : nat) : bool :=
  match owner with
  | Some q => (q =? player)%nat
  | None => false
  end.

(** [bldg is not None and bldg[1] != player] *)
Definition blocks (bldg : option Building) (player : nat) : bool :=
  match bldg with
  | Some (_, owner) => negb (owner =? player)%nat
  | None => false
  end.

(** The recursive search.  The recursion of the source ends because every
    call adds an edge of [player_edges] to [visited_edges]; here it is
    structural on [fuel], and running out of fuel is reported as [None], so
    a [Some] result is always the result of the source (see
    [_lr_dfs_fuel_mono] and [_lr_dfs_total] below). *)
Fixpoint _lr_dfs (fuel : nat) (topo : BoardTopology)
    (buildings : list (option Building)) (player : nat)
    (player_edges : list nat) (vertex : nat) (visited_edges : list nat)
  : option nat :=
  match fuel with
  | 0 => None
  | S fuel =>
      adj ← vertex_adjacent_edges topo !! vertex;
      foldlM
        (fun max_len eid =>
           if negb (mem_nat eid player_edges) then Some max_len
           else if mem_nat eid visited_edges then Some max_len
           else
             '(v1, v2) ← edge_endpoints topo !! eid;
             let next_v := if (v1 =? vertex)%nat then v2 else v1 in
             bldg ← buildings !! next_v;
             if blocks bldg player then Some (Nat.max max_len 1)
             else
               path ← _lr_dfs fuel topo buildings player player_edges
                              next_v (eid :: visited_edges);
               Some (Nat.max max_len (1 + path)))
        0 adj
  end.

(** The set [player_edges], in increasing order. *)
Definition lr_player_edges (topo : BoardTopology)
    (roads : list (option nat)) (player : nat) : option (list nat) :=
  filterM (fun eid => r ← roads !! eid; Some (owner_is r player))
          (range (edge_count topo)).

(** [set.add] on a set kept as a duplicate-free list. *)
Definition set_add (x : nat) (l : list nat) : list nat :=
  if mem_nat x l then l else l ++ [x].

Definition lr_start_vertices (topo : BoardTopology) (player_edges : list nat)
  : option (list nat) :=
  foldlM (fun acc eid =>
            '(v1, v2) ← edge_endpoints topo !! eid;
            Some (set_add v2 (set_add v1 acc)))
         [] player_edges.

(** The body of [calculate_longest_road] once the player's edges are
    known. *)
Definition lr_from_edges (topo : BoardTopology)
    (buildings : list (option Building)) (player : nat)
    (player_edges : list nat) : option nat :=
  match player_edges with
  | [] => Some 0
  | _ =>
      start_vertices ← lr_start_vertices topo player_edges;
      foldlM (fun max_length sv =>
                length ← _lr_dfs (S (length player_edges)) topo buildings
                                 player player_edges sv [];
                Some (if (max_length <? length)%nat then length
                      else max_length))
             0 start_vertices
  end.

Definition calculate_longest_road (state : CatanState) (player : nat)
  : option nat :=
  topo ← topology state;
  player_edges ← lr_player_edges topo (edge_roads state) player;
  lr_from_edges topo (vertex_buildings state) player player_edges.

(** First loop of [update_longest_road]. *)
Definition lr_scan_step (state : CatanState) (acc : option nat * nat)
    (pid : nat) : option (option nat * nat) :=
  let '(longest_player, longest_length) := acc in
  length ← calculate_longest_road state pid;
  if (MIN_LONGEST_ROAD <=? length)%nat then
    match longest_player with
    | None => Some (Some pid, length)
    | Some _ =>
        if (longest_length <? length)%nat then Some (Some pid, length)
        else Some acc
    end
  else Some acc.

(** Second loop: the award recomputed from [(None, 0)]. *)
Definition lr_rescan_step (state : CatanState) (acc : option nat * nat)
    (pid : nat) : option (option nat * nat) :=
  let '(longest_player, longest_length) := acc in
  length ← calculate_longest_road state pid;
  if (MIN_LONGEST_ROAD <=? length)%nat && (longest_length <? length)%nat
  then Some (Some pid, length)
  else Some acc.

Definition update_longest_road (state : CatanState) : option CatanState :=
  '(longest_player, longest_length) ←
    foldlM (lr_scan_step state)
           (longest_road_player state, longest_road_length state)
           (range (player_count state));
  '(longest_player, longest_length) ←
    match longest_player with
    | Some holder =>
        cur ← calculate_longest_road state holder;
        if (cur <? MIN_LONGEST_ROAD)%nat then
          foldlM (lr_rescan_step state) (None, 0)
                 (range (player_count state))
        else Some (longest_player, longest_length)
    | None => Some (longest_player, longest_length)
    end;
  Some (set_longest_road state longest_player longest_length).

(* ------------------------------------------------------------------ *)
(** ** Largest army *)
(* ------------------------------------------------------------------ *)

(** The body of the loop of [update_largest_army]. *)
Definition army_scan_step (state : CatanState) (acc : option nat * Z)
    (pid : nat) : option (option nat * Z) :=
  let '(largest_player, largest_size) := acc in
  p ← players state !! pid;
  let knights := knights_played p in
  if (MIN_LARGEST_ARMY <=? knights)%Z then
    match largest_player with
    | None => Some (Some pid, knights)
    | Some _ =>
        if (largest_size <? knights)%Z then Some (Some pid, knights)
        else Some (largest_player, largest_size)
    end
  else Some (largest_player, largest_size).

Definition update_largest_army (state : CatanState) : option CatanState :=
  '(largest_player, largest_size) ←
    foldlM (army_scan_step state)
           (largest_army_player state, largest_army_size state)
           (range (player_count state));
  Some (set_largest_army state largest_player largest_size).

(* ------------------------------------------------------------------ *)
(** ** Victory points *)
(* ------------------------------------------------------------------ *)

Definition count_vp_cards (cards : list DevCard) : nat :=
  length (filter (fun c => c = victory_point) cards).

Definition calculate_vp (state : CatanState) (player : nat) : option nat :=
  topo ← topology state;
  vp ← foldlM (fun vp vid =>
                 b ← vertex_buildings state !! vid;
                 Some match b with
                      | Some (kind, owner) =>
                          if (owner =? player)%nat
                          then vp + (if kind is city then 2 else 1)
                          else vp
                      | None => vp
                      end)
              0 (range (vertex_count topo));
  let vp := if owner_is (longest_road_player state) player
            then vp + 2 else vp in
  let vp := if owner_is (largest_army_player state) player
            then vp + 2 else vp in
  p ← players state !! player;
  Some (vp + count_vp_cards (dev_cards p) + count_vp_cards (new_dev_cards p)).

(** If the current player has at least 10 victory points, set GAME_OVER. *)
Definition check_game_over (state : CatanState) : option CatanState :=
  vp ← calculate_vp state (current_player state);
  if (VP_TO_WIN <=? vp)%nat
  then Some (set_winner (set_phase state GAME_OVER)
                        (Some (current_player state)))
  else Some state.

(* ------------------------------------------------------------------ *)
(** ** Building and road validity helpers *)
(* ------------------------------------------------------------------ *)

(** [any(state.edge_roads[eid] == player for eid in edges)] *)
Definition any_own_road (state : CatanState) (player : nat)
    (edges : list nat) : option bool :=
  anyM (fun eid => r ← edge_roads state !! eid; Some (owner_is r player))
       edges.

Definition _is_vertex_accessible (state : CatanState) (player vertex : nat)
  : option bool :=
  bldg ← vertex_buildings state !! vertex;
  match bldg with
  | Some (_, owner) => Some (owner =? player)%nat
  | None =>
      topo ← topology state;
      adj ← vertex_adjacent_edges topo !! vertex;
      any_own_road state player adj
  end.

Definition get_valid_road_edges_no_resource_check (state : CatanState)
    (player : nat) : option (list nat) :=
  topo ← topology state;
  p ← players state !! player;
  if (remaining_roads p <=? 0)%Z then Some []
  else
    filterM (fun eid =>
               r ← edge_roads state !! eid;
               match r with
               | Some _ => Some false
               | None =>
                   '(v1, v2) ← edge_endpoints topo !! eid;
                   a1 ← _is_vertex_accessible state player v1;
                   if a1 : bool then Some true
                   else _is_vertex_accessible state player v2
               end)
            (range (edge_count topo)).

Definition get_valid_road_edges (state : CatanState) (player : nat)
  : option (list nat) :=
  p ← players state !! player;
  if (remaining_roads p <=? 0)%Z then Some []
  else if negb (_has_resources (resources p) ROAD_COST) then Some []
  else get_valid_road_edges_no_resource_check state player.

Definition is_occupied (b : option Building) : bool :=
  match b with Some _ => true | None => false end.

Definition _is_valid_settlement_vertex (state : CatanState)
    (player vid : nat) : option bool :=
  topo ← topology state;
  b ← vertex_buildings state !! vid;
  if is_occupied b then Some false
  else
    adjs ← vertex_adjacent_vertices topo !! vid;
    occ ← anyM (fun adj => b ← vertex_buildings state !! adj;
                           Some (is_occupied b)) adjs;
    if occ : bool then Some false
    else
      edges ← vertex_adjacent_edges topo !! vid;
      any_own_road state player edges.

Definition get_valid_settlement_vertices (state : CatanState) (player : nat)
  : option (list nat) :=
  p ← players state !! player;
  if (remaining_settlements p <=? 0)%Z then Some []
  else if negb (_has_resources (resources p) SETTLEMENT_COST) then Some []
  else
    topo ← topology state;
    filterM (_is_valid_settlement_vertex state player)
            (range (vertex_count topo)).

Definition get_valid_city_vertices (state : CatanState) (player : nat)
  : option (list nat) :=
  p ← players state !! player;
  if (remaining_cities p <=? 0)%Z then Some []
  else if negb (_has_resources (resources p) CITY_COST) then Some []
  else
    topo ← topology state;
    filterM (fun vid =>
               b ← vertex_buildings state !! vid;
               Some match b with
                    | Some (settlement, owner) => (owner =? player)%nat
                    | _ => false
                    end)
            (range (vertex_count topo)).

Definition get_valid_setup_settlement_vertices (state : CatanState)
  : option (list nat) :=
  topo ← topology state;
  filterM (fun vid =>
             b ← vertex_buildings state !! vid;
             if is_occupied b then Some false
             else
               adjs ← vertex_adjacent_vertices topo !! vid;
               has_adj ← anyM (fun adj => b ← vertex_buildings state !! adj;
                                          Some (is_occupied b)) adjs;
               Some (negb has_adj))
          (range (vertex_count topo)).

Definition get_valid_setup_road_edges (state : CatanState)
  : option (list nat) :=
  match last_placed_vertex state with
  | None => Some []
  | Some v =>
      topo ← topology state;
      adj ← vertex_adjacent_edges topo !! v;
      filterM (fun eid => r ← edge_roads state !! eid;
                          Some (if r is None then true else false)) adj
  end.

Definition get_valid_robber_hexes (state : CatanState) : list nat :=
  filter (fun hid => hid ≠ robber_hex state)
         (range (length (hex_terrains state))).

(** [sorted(targets)] for a set of player indices. *)
Fixpoint insert_sorted (x : nat) (l : list nat) : list nat :=
  match l with
  | [] => [x]
  | y :: r => if (x <=? y)%nat then x :: l else y :: insert_sorted x r
  end.

Definition sorted (l : list nat) : list nat := fold_right insert_sorted [] l.

Definition get_steal_targets (state : CatanState) (hex_id thief : nat)
  : option (list nat) :=
  topo ← topology state;
  vids ← hex_vertices topo !! hex_id;
  targets ←
    foldlM (fun targets vid =>
              b ← vertex_buildings state !! vid;
              match b with
              | Some (_, owner) =>
                  if negb (owner =? thief)%nat then
                    p ← players state !! owner;
                    if (0 <? _total_resources (resources p))%Z
                    then Some (set_add owner targets)
                    else Some targets
                  else Some targets
              | None => Some targets
              end)
           [] vids;
  Some (sorted targets).

Definition _get_player_vertices (state : CatanState) (player : nat)
  : option (list nat) :=
  topo ← topology state;
  filterM (fun vid =>
             b ← vertex_buildings state !! vid;
             Some match b with
                  | Some (_, owner) => (owner =? player)%nat
                  | None => false
                  end)
          (range (vertex_count topo)).

Definition _get_player_trade_ratio (state : CatanState) (player : nat)
    (resource : Resource) : option Z :=
  pverts ← _get_player_vertices state player;
  Some (get_trade_ratio (harbors state) pverts resource).

Definition is_valid_maritime_trade (state : CatanState) (player : nat)
    (give receive : Resource) : option bool :=
  if bool_decide (give = receive) then Some false
  else
    ratio ← _get_player_trade_ratio state player give;
    p ← players state !! player;
    if (hget (resources p) give <? ratio)%Z then Some false
    else if (hget (bank state) receive <=? 0)%Z then Some false
    else Some true.

Definition can_buy_dev_card (state : CatanState) (player : nat)
  : option bool :=
  match dev_card_deck state with
  | [] => Some false
  | _ => p ← players state !! player;
         Some (_has_resources (resources p) DEV_CARD_COST)
  end.

Definition can_play_dev_card (state : CatanState) (player : nat)
    (card_type : DevCard) : option bool :=
  p ← players state !! player;
  if has_played_dev_card_this_turn p then Some false
  else if bool_decide (card_type = victory_point) then Some false
  else Some (bool_decide (card_type ∈ dev_cards p)).

(* ------------------------------------------------------------------ *)
(** ** Resource distribution *)
(* ------------------------------------------------------------------ *)

(** The dictionary [player_demand], in insertion order:
    [player_demand[owner] = player_demand.get(owner, 0) + amount]. *)
Fixpoint demand_add (pd : list (nat * Z)) (owner : nat) (amount : Z)
  : list (nat * Z) :=
  match pd with
  | [] => [(owner, amount)]
  | (k, v) :: r =>
      if (k =? owner)%nat then (k, (v + amount)%Z) :: r
      else (k, v) :: demand_add r owner amount
  end.

(** The demand of the buildings around one hex:
    [(total_demand, player_demand)]. *)
Definition demand_step (state : CatanState) (acc : Z * list (nat * Z))
    (vid : nat) : option (Z * list (nat * Z)) :=
  let '(total_demand, player_demand) := acc in
  b ← vertex_buildings state !! vid;
  match b with
  | None => Some (total_demand, player_demand)
  | Some (kind, owner) =>
      let amount := if kind is city then 2%Z else 1%Z in
      Some ((total_demand + amount)%Z, demand_add player_demand owner amount)
  end.

Definition hex_demand (state : CatanState) (vids : list nat)
  : option (Z * list (nat * Z)) :=
  foldlM (demand_step state) (0%Z, []) vids.

(** The body of the loop over [player_demand.items()]. *)
Definition payout_step (resource : Resource) (state : CatanState)
    (entry : nat * Z) : option CatanState :=
  let '(pid, amount) := entry in
  state ← add_player_resource state pid resource amount;
  Some (add_bank state resource (- amount)).

(** One iteration of the loop over the hexes. *)
Definition distribute_hex (topo : BoardTopology) (dice_total : nat)
    (state : CatanState) (hid : nat) : option CatanState :=
  number ← hex_numbers state !! hid;
  if negb (bool_decide (number = Some dice_total)) then Some state
  else if (hid =? robber_hex state)%nat then Some state
  else
    terrain ← hex_terrains state !! hid;
    match TERRAIN_TO_RESOURCE terrain with
    | None => Some state
    | Some resource =>
        vids ← hex_vertices topo !! hid;
        '(total_demand, player_demand) ← hex_demand state vids;
        if (hget (bank state) resource <? total_demand)%Z then Some state
        else foldlM (payout_step resource) state player_demand
    end.

Definition _distribute_resources (state : CatanState) (dice_total : nat)
  : option CatanState :=
  if (dice_total =? 7)%nat then Some state
  else
    topo ← topology state;
    foldlM (distribute_hex topo dice_total) state
           (range (length (hex_terrains state))).

Fixpoint _remove_dev_card (cards : list DevCard) (card_type : DevCard)
  : list DevCard :=
  match cards with
  | [] => []
  | c :: r =>
      if bool_decide (c = card_type) then r
      else c :: _remove_dev_card r card_type
  end.

(* ------------------------------------------------------------------ *)
(** ** Actions *)
(* ------------------------------------------------------------------ *)

(** The action tuples.  The first component of the tuple is the
    constructor; [ROLL_DICE] and [MOVE_ROBBER] are also phase names, so the
    two actions carry the prefix [ACT_]. *)
Inductive Action :=
  | PLACE_SETUP_SETTLEMENT (vertex : nat)
  | PLACE_SETUP_ROAD (edge : nat)
  | ACT_ROLL_DICE
  | DISCARD_RESOURCES (amounts : list Z)
  | ACT_MOVE_ROBBER (hex_id : nat)
  | STEAL_RESOURCE (victim : option nat)
  | BUILD_ROAD (edge : nat)
  | BUILD_SETTLEMENT (vertex : nat)
  | BUILD_CITY (vertex : nat)
  | BUY_DEV_CARD
  | PLAY_KNIGHT
  | PLAY_ROAD_BUILDING
  | PLACE_ROAD_BUILDING_ROAD (edge : nat)
  | PLAY_YEAR_OF_PLENTY
  | PICK_YEAR_OF_PLENTY_RESOURCES (r1 r2 : Resource)
  | PLAY_MONOPOLY
  | PICK_MONOPOLY_RESOURCE (resource : Resource)
  | MARITIME_TRADE (give receive : Resource)
  | END_TURN.

#[global] Instance Action_eq_dec : EqDecision Action.
Proof. solve_decision. Defined.

(* ------------------------------------------------------------------ *)
(** ** Legal actions *)
(* ------------------------------------------------------------------ *)

(** [range(n)] for a Python integer [n]: empty when [n <= 0]. *)
Definition zrange (n : Z) : list Z := map Z.of_nat (seq 0 (Z.to_nat n)).

Definition zsum (l : list Z) : Z := fold_right Z.add 0%Z l.

(** The inner function of [_enumerate_discard].  The index [idx] into
    [RESOURCES] is carried as the list [rest] of the quantities held of the
    resources from [idx] on, so [idx == len(res)] is [rest = []]; the result
    list [results] is returned instead of appended to. *)
Fixpoint _recurse (rest : list Z) (remaining : Z) (chosen : list Z)
  : list Action :=
  match rest with
  | [] => if (remaining =? 0)%Z then [DISCARD_RESOURCES chosen] else []
  | held :: rest' =>
      let max_take := Z.min held remaining in
      take ← zrange (max_take + 1);
      let left_after := (remaining - take)%Z in
      let max_possible := zsum rest' in
      if (max_possible <? left_after)%Z then []
      else _recurse rest' left_after (chosen ++ [take])
  end.

Definition _enumerate_discard (hand : Hand) (count : Z) : list Action :=
  _recurse (map (hget hand) RESOURCES) count [].

Definition _trade_build_play_actions (s : CatanState)
  : option (list Action) :=
  let pid := current_player s in
  roads ← get_valid_road_edges s pid;
  settlements ← get_valid_settlement_vertices s pid;
  cities ← get_valid_city_vertices s pid;
  buy ← can_buy_dev_card s pid;
  k ← can_play_dev_card s pid knight;
  rb ← can_play_dev_card s pid road_building;
  yop ← can_play_dev_card s pid year_of_plenty;
  mono ← can_play_dev_card s pid monopoly;
  trades ←
    filterM (fun '(give, receive) =>
               is_valid_maritime_trade s pid give receive)
            (give ← RESOURCES; receive ← RESOURCES; [(give, receive)]);
  Some (map BUILD_ROAD roads
        ++ map BUILD_SETTLEMENT settlements
        ++ map BUILD_CITY cities
        ++ (if buy : bool then [BUY_DEV_CARD] else [])
        ++ (if k : bool then [PLAY_KNIGHT] else [])
        ++ (if rb : bool then [PLAY_ROAD_BUILDING] else [])
        ++ (if yop : bool then [PLAY_YEAR_OF_PLENTY] else [])
        ++ (if mono : bool then [PLAY_MONOPOLY] else [])
        ++ map (fun '(give, receive) => MARITIME_TRADE give receive) trades
        ++ [END_TURN]).

(** The pairs [(r1, r2)] with [r2] in [RESOURCES[i:]]. *)
Fixpoint yop_pairs (l : list Resource) : list (Resource * Resource) :=
  match l with
  | [] => []
  | r1 :: rest => map (pair r1) (r1 :: rest) ++ yop_pairs rest
  end.

Definition get_legal_actions (s : CatanState) : option (list Action) :=
  match phase s with
  | GAME_OVER => Some []
  | SETUP_PLACE_SETTLEMENT =>
      verts ← get_valid_setup_settlement_vertices s;
      Some (map PLACE_SETUP_SETTLEMENT verts)
  | SETUP_PLACE_ROAD =>
      edges ← get_valid_setup_road_edges s;
      Some (map PLACE_SETUP_ROAD edges)
  | ROLL_DICE => Some [ACT_ROLL_DICE]
  | DISCARD =>
      pid ← head (players_needing_discard s);
      p ← players s !! pid;
      let total := _total_resources (resources p) in
      let discard_count := (total `div` 2)%Z in
      Some (_enumerate_discard (resources p) discard_count)
  | MOVE_ROBBER => Some (map ACT_MOVE_ROBBER (get_valid_robber_hexes s))
  | STEAL =>
      targets ← get_steal_targets s (robber_hex s) (current_player s);
      match targets with
      | [] => Some [STEAL_RESOURCE None]
      | _ => Some (map (fun t => STEAL_RESOURCE (Some t)) targets)
      end
  | TRADE_BUILD_PLAY => _trade_build_play_actions s
  | ROAD_BUILDING_PLACE =>
      edges ← get_valid_road_edges_no_resource_check s (current_player s);
      Some (map PLACE_ROAD_BUILDING_ROAD edges)
  | YEAR_OF_PLENTY_PICK =>
      Some (map (fun '(r1, r2) => PICK_YEAR_OF_PLENTY_RESOURCES r1 r2)
                (List.filter (fun '(r1, r2) =>
                           if bool_decide (r1 = r2)
                           then (2 <=? hget (bank s) r1)%Z
                           else (1 <=? hget (bank s) r1)%Z
                                && (1 <=? hget (bank s) r2)%Z)
                        (yop_pairs RESOURCES)))
  | MONOPOLY_PICK => Some (map PICK_MONOPOLY_RESOURCE RESOURCES)
  | PRE_GAME => Some []
  end.

Definition get_acting_player (s : CatanState) : nat :=
  match phase s, players_needing_discard s with
  | DISCARD, pid :: _ => pid
  | _, _ => current_player s
  end.

(* ------------------------------------------------------------------ *)
(** ** Action implementations *)
(* ------------------------------------------------------------------ *)

(** The values drawn from the pseudo-random source during one step.  Each
    field is an arbitrary number; [randint] maps it into the interval the
    source asks for. *)
Record Draws := mkDraws { draw_d1 : nat; draw_d2 : nat; draw_steal : nat }.

(** [rng.randint(lo, hi)]: a value in [lo, hi). *)
Definition randint (lo hi raw : nat) : nat := lo + raw mod (hi - lo).

(** The body of the loop over the hexes around a second-round
    settlement. *)
Definition grant_from_hex (pid : nat) (s : CatanState) (hid : nat)
  : option CatanState :=
  terrain ← hex_terrains s !! hid;
  match TERRAIN_TO_RESOURCE terrain with
  | Some res =>
      s ← add_player_resource s pid res 1;
      Some (add_bank s res (-1))
  | None => Some s
  end.

Definition _apply_setup_settlement (s : CatanState) (vertex : nat)
  : option CatanState :=
  let pid := current_player s in
  vb ← list_set (vertex_buildings s) vertex (Some (settlement, pid));
  let s := set_vertex_buildings s vb in
  s ← update_player s pid
        (fun p => set_remaining p (remaining_settlements p - 1)
                                (remaining_cities p) (remaining_roads p));
  s ← (if (setup_round s =? 1)%nat then
         topo ← topology s;
         hids ← vertex_adjacent_hexes topo !! vertex;
         foldlM (grant_from_hex pid) s hids
       else Some s);
  Some (set_phase (set_last_placed_vertex s (Some vertex)) SETUP_PLACE_ROAD).

Definition _apply_setup_road (s : CatanState) (edge : nat)
  : option CatanState :=
  let pid := current_player s in
  er ← list_set (edge_roads s) edge (Some pid);
  let s := set_edge_roads s er in
  s ← update_player s pid
        (fun p => set_remaining p (remaining_settlements p)
                                (remaining_cities p) (remaining_roads p - 1));
  let order := get_setup_order (player_count s) in
  let next_idx := setup_index s + 1 in
  if (length order <=? next_idx)%nat then
    Some (set_turn_number
            (set_last_placed_vertex
               (set_current_player (set_phase s ROLL_DICE) 0) None) 1)
  else
    next ← order !! next_idx;
    let s := set_current_player s next in
    let s := set_setup s (if (player_count s <=? next_idx)%nat then 1 else 0)
                       next_idx in
    Some (set_last_placed_vertex (set_phase s SETUP_PLACE_SETTLEMENT) None).

Definition _apply_roll_dice (s : CatanState) (rnd : Draws)
  : option CatanState :=
  let d1 := randint 1 7 (draw_d1 rnd) in
  let d2 := randint 1 7 (draw_d2 rnd) in
  let total := d1 + d2 in
  let s := set_last_roll s (Some (d1, d2)) in
  if (total =? 7)%nat then
    need ← filterM (fun pid =>
                      p ← players s !! pid;
                      Some (7 <? _total_resources (resources p))%Z)
                   (range (player_count s));
    match need with
    | [] => Some (set_phase s MOVE_ROBBER)
    | _ => Some (set_players_needing_discard (set_phase s DISCARD) need)
    end
  else
    s ← _distribute_resources s total;
    Some (set_phase s TRADE_BUILD_PLAY).

Definition _apply_discard (s : CatanState) (discarded : Hand)
  : option CatanState :=
  pid ← head (players_needing_discard s);
  s ← pay_cost s pid discarded;
  let s := set_players_needing_discard s (tail (players_needing_discard s)) in
  match players_needing_discard s with
  | [] => Some (set_phase s MOVE_ROBBER)
  | _ => Some s
  end.

Definition _apply_move_robber (s : CatanState) (hex_id : nat)
  : option CatanState :=
  let s := set_robber_hex s hex_id in
  targets ← get_steal_targets s hex_id (current_player s);
  Some (set_phase s (if targets is [] then TRADE_BUILD_PLAY else STEAL)).

Definition _apply_steal (s : CatanState) (victim : option nat)
    (rnd : Draws) : option CatanState :=
  match victim with
  | None => Some (set_phase s TRADE_BUILD_PLAY)
  | Some victim =>
      v ← players s !! victim;
      let available :=
        flat_map (fun r => replicate (Z.to_nat (hget (resources v) r)) r)
                 RESOURCES in
      match available with
      | [] => Some (set_phase s TRADE_BUILD_PLAY)
      | _ =>
          let idx := randint 0 (length available) (draw_steal rnd) in
          stolen ← available !! idx;
          s ← add_player_resource s victim stolen (-1);
          s ← add_player_resource s (current_player s) stolen 1;
          Some (set_phase s TRADE_BUILD_PLAY)
      end
  end.

Definition _apply_build_road (s : CatanState) (player edge : nat)
    (free : bool) : option CatanState :=
  er ← list_set (edge_roads s) edge (Some player);
  let s := set_edge_roads s er in
  s ← update_player s player
        (fun p => set_remaining p (remaining_settlements p)
                                (remaining_cities p) (remaining_roads p - 1));
  if free then Some s else pay_cost s player ROAD_COST.

Definition _apply_build_settlement (s : CatanState) (vertex : nat)
  : option CatanState :=
  let pid := current_player s in
  vb ← list_set (vertex_buildings s) vertex (Some (settlement, pid));
  let s := set_vertex_buildings s vb in
  s ← update_player s pid
        (fun p => set_remaining p (remaining_settlements p - 1)
                                (remaining_cities p) (remaining_roads p));
  pay_cost s pid SETTLEMENT_COST.

Definition _apply_build_city (s : CatanState) (vertex : nat)
  : option CatanState :=
  let pid := current_player s in
  vb ← list_set (vertex_buildings s) vertex (Some (city, pid));
  let s := set_vertex_buildings s vb in
  s ← update_player s pid
        (fun p => set_remaining p (remaining_settlements p + 1)
                                (remaining_cities p - 1) (remaining_roads p));
  pay_cost s pid CITY_COST.

(** [l.pop()]: the last element and the list without it. *)
Definition list_pop {A} (l : list A) : option (A * list A) :=
  match rev l with
  | [] => None
  | x :: r => Some (x, rev r)
  end.

Definition _apply_buy_dev_card (s : CatanState) : option CatanState :=
  let pid := current_player s in
  '(card, deck) ← list_pop (dev_card_deck s);
  let s := set_dev_card_deck s deck in
  _ ← players s !! pid;
  s ← pay_cost s pid DEV_CARD_COST;
  update_player s pid
    (fun p => set_dev_cards p (dev_cards p) (new_dev_cards p ++ [card])).

(** The two assignments to the card played and the played flag shared by
    the four [_apply_play_*] functions. *)
Definition play_card (s : CatanState) (card : DevCard) (knights : Z)
  : option CatanState :=
  update_player s (current_player s)
    (fun p =>
       set_has_played
         (set_knights_played
            (set_dev_cards p (_remove_dev_card (dev_cards p) card)
                           (new_dev_cards p))
            (knights_played p + knights))
         true).

Definition _apply_play_knight (s : CatanState) : option CatanState :=
  s ← play_card s knight 1;
  s ← update_largest_army s;
  Some (set_phase s MOVE_ROBBER).

Definition _apply_play_road_building (s : CatanState) : option CatanState :=
  p0 ← players s !! current_player s;
  s ← play_card s road_building 0;
  let roads_to_place := Z.min 2 (remaining_roads p0) in
  if (roads_to_place =? 0)%Z then Some s
  else Some (set_road_building_roads_left (set_phase s ROAD_BUILDING_PLACE)
                                          roads_to_place).

Definition _apply_place_road_building_road (s : CatanState) (edge : nat)
  : option CatanState :=
  let pid := current_player s in
  s ← _apply_build_road s pid edge true;
  let s := set_road_building_roads_left s (road_building_roads_left s - 1) in
  s ← (if (road_building_roads_left s <=? 0)%Z
       then Some (set_phase s TRADE_BUILD_PLAY)
       else
         valid ← get_valid_road_edges_no_resource_check s pid;
         match valid with
         | [] => Some (set_road_building_roads_left
                         (set_phase s TRADE_BUILD_PLAY) 0)
         | _ => Some s
         end);
  update_longest_road s.

Definition _apply_play_year_of_plenty (s : CatanState)
  : option CatanState :=
  s ← play_card s year_of_plenty 0;
  Some (set_phase s YEAR_OF_PLENTY_PICK).

Definition _apply_pick_yop (s : CatanState) (r1 r2 : Resource)
  : option CatanState :=
  let pid := current_player s in
  s ← add_player_resource s pid r1 1;
  s ← add_player_resource s pid r2 1;
  let s := add_bank s r1 (-1) in
  let s := add_bank s r2 (-1) in
  Some (set_phase s TRADE_BUILD_PLAY).

Definition _apply_play_monopoly (s : CatanState) : option CatanState :=
  s ← play_card s monopoly 0;
  Some (set_phase s MONOPOLY_PICK).

(** The body of the loop of [_apply_pick_monopoly], for player [i]. *)
Definition monopoly_take (pid : nat) (resource : Resource)
    (acc : CatanState * Z) (i : nat) : option (CatanState * Z) :=
  let '(s, total_stolen) := acc in
  if (i =? pid)%nat then Some (s, total_stolen)
  else
    p ← players s !! i;
    let amount := hget (resources p) resource in
    if (0 <? amount)%Z then
      s ← update_player s i
            (fun p => set_resources p (hset (resources p) resource 0));
      Some (s, (total_stolen + amount)%Z)
    else Some (s, total_stolen).

Definition _apply_pick_monopoly (s : CatanState) (resource : Resource)
  : option CatanState :=
  let pid := current_player s in
  '(s, total_stolen) ←
    foldlM (monopoly_take pid resource) (s, 0%Z) (range (player_count s));
  s ← add_player_resource s pid resource total_stolen;
  Some (set_phase s TRADE_BUILD_PLAY).

Definition _apply_maritime_trade (s : CatanState) (give receive : Resource)
  : option CatanState :=
  let pid := current_player s in
  ratio ← _get_player_trade_ratio s pid give;
  s ← add_player_resource s pid give (- ratio);
  s ← add_player_resource s pid receive 1;
  let s := add_bank s give ratio in
  Some (add_bank s receive (-1)).

Definition _apply_end_turn (s : CatanState) : option CatanState :=
  let pid := current_player s in
  s ← update_player s pid
        (fun p => set_has_played
                    (set_dev_cards p (dev_cards p ++ new_dev_cards p) [])
                    false);
  s ← check_game_over s;
  if bool_decide (phase s = GAME_OVER) then Some s
  else
    let next_pid := (pid + 1) mod player_count s in
    let s := set_current_player s next_pid in
    let s := set_turn_number s (turn_number s + 1) in
    let s := set_last_roll s None in
    Some (set_phase s ROLL_DICE).

(* ------------------------------------------------------------------ *)
(** ** step *)
(* ------------------------------------------------------------------ *)

(** The discard dictionary [{RESOURCES[i]: action[i + 1] for i in range(5)}]:
    raises when the tuple is too short and ignores further components. *)
Definition discard_hand (amounts : list Z) : option Hand :=
  l ← amounts !! 0; b ← amounts !! 1; w ← amounts !! 2;
  g ← amounts !! 3; o ← amounts !! 4;
  Some (mkHand l b w g o).

(** The result tuple [(new_state, reward, done, info)]; [info] is the
    dictionary that is empty or holds the one key ["winner"]. *)
Record StepResult := mkStepResult {
  new_state : CatanState;
  reward : Z;
  done : bool;
  info : option (option nat) }.

Definition apply_action (s : CatanState) (action : Action) (rnd : Draws)
  : option CatanState :=
  match action with
  | PLACE_SETUP_SETTLEMENT vertex => _apply_setup_settlement s vertex
  | PLACE_SETUP_ROAD edge => _apply_setup_road s edge
  | ACT_ROLL_DICE => _apply_roll_dice s rnd
  | DISCARD_RESOURCES amounts =>
      discarded ← discard_hand amounts; _apply_discard s discarded
  | ACT_MOVE_ROBBER hex_id => _apply_move_robber s hex_id
  | STEAL_RESOURCE victim => _apply_steal s victim rnd
  | BUILD_ROAD edge =>
      s ← _apply_build_road s (current_player s) edge false;
      update_longest_road s
  | BUILD_SETTLEMENT vertex =>
      s ← _apply_build_settlement s vertex;
      update_longest_road s
  | BUILD_CITY vertex => _apply_build_city s vertex
  | BUY_DEV_CARD => _apply_buy_dev_card s
  | PLAY_KNIGHT => _apply_play_knight s
  | PLAY_ROAD_BUILDING => _apply_play_road_building s
  | PLACE_ROAD_BUILDING_ROAD edge => _apply_place_road_building_road s edge
  | PLAY_YEAR_OF_PLENTY => _apply_play_year_of_plenty s
  | PICK_YEAR_OF_PLENTY_RESOURCES r1 r2 => _apply_pick_yop s r1 r2
  | PLAY_MONOPOLY => _apply_play_monopoly s
  | PICK_MONOPOLY_RESOURCE resource => _apply_pick_monopoly s resource
  | MARITIME_TRADE give receive => _apply_maritime_trade s give receive
  | END_TURN => _apply_end_turn s
  end.

Definition step (s : CatanState) (action : Action) (rnd : Draws)
  : option StepResult :=
  s ← apply_action s action rnd;
  let done := bool_decide (phase s = GAME_OVER) in
  let reward := 0%Z in
  let info := if done then Some (winner s) else None in
  Some (mkStepResult s reward done info).

(* ------------------------------------------------------------------ *)
(** ** Construction and reset *)
(* ------------------------------------------------------------------ *)

Inductive Exception := ValueError.

Record CatanEnv := mkEnv { _player_count : nat; state : CatanState }.

(** [CatanEnv.__init__]: either the exception raised or the new engine. *)
Definition CatanEnv_init (player_count : Z) : Exception + CatanEnv :=
  if negb ((player_count =? 3)%Z || (player_count =? 4)%Z)
  then inl ValueError
  else inr (mkEnv (Z.to_nat player_count) default_state).

(** The number tokens laid on the hexes that are not desert. *)
Fixpoint lay_numbers (terrains : list Terrain) (numbers : list nat)
    (num_i : nat) : option (list (option nat)) :=
  match terrains with
  | [] => Some []
  | t :: rest =>
      if bool_decide (t = desert) then
        r ← lay_numbers rest numbers num_i; Some (None :: r)
      else
        n ← numbers !! num_i;
        r ← lay_numbers rest numbers (S num_i); Some (Some n :: r)
  end.

(** [reset].  The three shuffles are arguments: [terrains], [numbers] and
    [deck] are the lists after [rng.shuffle].  The harbours are an argument
    as well: [assign_harbors] places them by sorting the coastal edges on
    floating-point angles, which is not embedded. *)
Definition reset (player_count : nat) (terrains : list Terrain)
    (numbers : list nat) (deck : list DevCard) (harbors : list Harbor)
  : option CatanState :=
  topo ← build_board_topology STANDARD_HEX_POSITIONS;
  desert_idx ← find_index (fun t => bool_decide (t = desert)) terrains;
  hex_numbers ← lay_numbers terrains numbers 0;
  Some {| phase := SETUP_PLACE_SETTLEMENT;
          current_player := 0;
          player_count := player_count;
          turn_number := 0;
          topology := Some topo;
          hex_terrains := terrains;
          hex_numbers := hex_numbers;
          vertex_buildings := replicate (vertex_count topo) None;
          edge_roads := replicate (edge_count topo) None;
          harbors := harbors;
          robber_hex := desert_idx;
          players := map new_player (range player_count);
          dev_card_deck := deck;
          bank := mkHand BANK_PER_RESOURCE BANK_PER_RESOURCE
                         BANK_PER_RESOURCE BANK_PER_RESOURCE
                         BANK_PER_RESOURCE;
          longest_road_player := None;
          longest_road_length := 0;
          largest_army_player := None;
          largest_army_size := 0;
          last_roll := None;
          setup_round := 0;
          setup_index := 0;
          players_needing_discard := [];
          road_building_roads_left := 0;
          last_placed_vertex := None;
          winner := None |}.

(* ------------------------------------------------------------------ *)
(** ** Checks on a topology *)
(* ------------------------------------------------------------------ *)

(** Number of occurrences of [x] in [l]. *)
Definition count_nat (x : nat) (l : list nat) : nat :=
  length (List.filter (Nat.eqb x) l).

Definition vertex_degree_ok (adj : list nat) : bool :=
  (length adj =? 2)%nat || (length adj =? 3)%nat.

(** The two endpoints of edge [eid] are different vertices of the board and
    each lists [eid] once among its adjacent edges. *)
Definition edge_entry_ok (topo : BoardTopology) (eid : nat)
    (ends : nat * nat) : bool :=
  let '(v1, v2) := ends in
  negb (v1 =? v2)%nat
  && (v1 <? vertex_count topo)%nat && (v2 <? vertex_count topo)%nat
  && match vertex_adjacent_edges topo !! v1,
           vertex_adjacent_edges topo !! v2 with
     | Some a1, Some a2 =>
         (count_nat eid a1 =? 1)%nat && (count_nat eid a2 =? 1)%nat
     | _, _ => false
     end.

(** Every edge listed at vertex [v] has [v] as an endpoint. *)
Definition adjacency_entry_ok (topo : BoardTopology) (v : nat)
    (adj : list nat) : bool :=
  forallb (fun eid =>
             match edge_endpoints topo !! eid with
             | Some (v1, v2) => (v =? v1)%nat || (v =? v2)%nat
             | None => false
             end) adj.

(** [imap] with the index kept: [enumerate(l)]. *)
Definition enumerate {A} (l : list A) : list (nat * A) :=
  imap (fun i x => (i, x)) l.

(* ------------------------------------------------------------------ *)
(** ** Sample states *)
(* ------------------------------------------------------------------ *)

(** A player who owns nothing but the given hand. *)
Definition player_with_hand (i : nat) (h : Hand) : PlayerState :=
  set_resources (new_player i) h.

(** [place l n]: a table of [n] empty slots with the pieces of [l] put at
    their indices. *)
Definition place {A} (l : list (nat * A)) (n : nat) : list (option A) :=
  fold_left (fun tbl '(i, x) => <[i:=Some x]> tbl) l (replicate n None).

(** A state on the standard board, with the terrains and number tokens in
    the order of their distribution lists, in a given phase, with given
    hands, bank, buildings and roads. *)
Definition sample_state (ph : Phase) (hands : list Hand) (bank : Hand)
    (buildings : list (nat * Building)) (roads : list (nat * nat))
  : CatanState :=
  {| phase := ph;
     current_player := 0;
     player_count := length hands;
     turn_number := 1;
     topology := Some standard_topology;
     hex_terrains := TERRAIN_DISTRIBUTION;
     hex_numbers :=
       default [] (lay_numbers TERRAIN_DISTRIBUTION
                               NUMBER_TOKEN_DISTRIBUTION 0);
     vertex_buildings := place buildings 54;
     edge_roads := place roads 72;
     harbors := [];
     robber_hex := 18;
     players := imap player_with_hand hands;
     dev_card_deck := DEV_CARD_DISTRIBUTION;
     bank := bank;
     longest_road_player := None;
     longest_road_length := 0;
     largest_army_player := None;
     largest_army_size := 0;
     last_roll := None;
     setup_round := 1;
     setup_index := 0;
     players_needing_discard := [];
     road_building_roads_left := 0;
     last_placed_vertex := None;
     winner := None |}.

(** Player 0 holds nine cards after a seven was rolled. *)
Definition discard_sample : CatanState :=
  set_players_needing_discard
    (sample_state DISCARD
       [mkHand 3 2 2 1 1; mkHand 1 0 0 0 0; mkHand 0 0 0 0 0]
       (mkHand 15 17 17 18 18) [] [])
    [0].

(* ------------------------------------------------------------------ *)
(** ** Quantities used in the statements *)
(* ------------------------------------------------------------------ *)

(** The number of cards of resource [r] in the hands of [ps]. *)
Definition held (ps : list PlayerState) (r : Resource) : Z :=
  zsum ((fun p => hget (resources p) r) <$> ps).

(** A player with every card of [r] replaced by [v] cards. *)
Definition with_amount (p : PlayerState) (r : Resource) (v : Z)
  : PlayerState :=
  set_resources p (hset (resources p) r v).

(** The cards of [r] taken from the players below index [n] other than
    [pid]. *)
Fixpoint stolen_upto (ps : list PlayerState) (pid : nat) (r : Resource)
    (n : nat) : Z :=
  match n with
  | 0 => 0%Z
  | S n =>
      (stolen_upto ps pid r n
       + (if (n =? pid)%nat then 0
          else from_option (λ p, hget (resources p) r) 0 (ps !! n)))%Z
  end.

(** Three players in the MONOPOLY_PICK phase. *)
Definition monopoly_sample : CatanState :=
  sample_state MONOPOLY_PICK
    [mkHand 1 0 2 0 0; mkHand 3 1 0 0 1; mkHand 2 0 0 4 0]
    (mkHand 13 18 17 15 18) [] [].

(** The ratio in the words of the specification: 2 with an accessible
    harbour of the resource given, else 3 with an accessible generic
    harbour, else 4. *)
Definition best_applicable_ratio (harbors : list Harbor)
    (player_vertices : list nat) (give : Resource) : Z :=
  if existsb (fun h => has_access h player_vertices
                       && bool_decide (harbor_type h = specific give))
             harbors
  then 2
  else if existsb (fun h => has_access h player_vertices
                            && bool_decide (harbor_type h = generic))
                  harbors
       then 3
       else 4.

(** The state [s] with the harbour list [hs]. *)
Definition with_harbors (s : CatanState) (hs : list Harbor) : CatanState :=
  mkState (phase s) (current_player s) (player_count s) (turn_number s)
    (topology s) (hex_terrains s) (hex_numbers s) (vertex_buildings s)
    (edge_roads s) hs (robber_hex s) (players s) (dev_card_deck s) (bank s)
    (longest_road_player s) (longest_road_length s) (largest_army_player s)
    (largest_army_size s) (last_roll s) (setup_round s) (setup_index s)
    (players_needing_discard s) (road_building_roads_left s)
    (last_placed_vertex s) (winner s).

(** Player 0 has settlements on vertices 0 and 20, roads on edges 0 and 24,
    four lumber and three wool; a wool harbour lies on vertices 0 and 9 and a
    generic harbour on vertices 4 and 5. *)
Definition maritime_sample : CatanState :=
  with_harbors
    (sample_state TRADE_BUILD_PLAY
       [mkHand 4 0 3 0 0; mkHand 0 1 0 0 0; mkHand 0 0 0 1 0]
       (mkHand 15 18 16 18 19)
       [(0, (settlement, 0)); (20, (settlement, 0));
        (14, (settlement, 1)); (33, (settlement, 2))]
       [(0, 0); (24, 0); (16, 1); (42, 2)])
    [mkHarbor (specific wool) (0, 9); mkHarbor generic (4, 5)].

(** [s'] differs from [s] at most in the hands of the players and in the
    bank. *)
Definition only_hands_and_bank (s s' : CatanState) : Prop :=
  s' = set_bank (set_players s (players s')) (bank s').

(** Player 0 has four cities and two settlements, ten victory points, and
    it is that player's turn. *)
Definition won_sample : CatanState :=
  sample_state TRADE_BUILD_PLAY
    [mkHand 0 0 0 0 0; mkHand 0 0 0 0 0; mkHand 0 0 0 0 0]
    (mkHand 19 19 19 19 19)
    [(0, (city, 0)); (7, (city, 0)); (14, (city, 0)); (21, (city, 0));
     (25, (settlement, 0)); (33, (settlement, 0));
     (38, (settlement, 1)); (43, (settlement, 1));
     (47, (settlement, 2)); (11, (settlement, 2))]
    [(0, 0); (6, 0); (16, 0); (25, 0); (31, 0); (42, 0);
     (49, 1); (56, 1); (62, 2); (11, 2)].

(** The cards of resource [r] in the game: in the hands and in the bank. *)
Definition total_of (s : CatanState) (r : Resource) : Z :=
  (held (players s) r + hget (bank s) r)%Z.

(** The fourteen players' turns are over and player 0, who holds a road
    and a settlement's worth of cards, is to act. *)
Definition build_sample : CatanState :=
  sample_state TRADE_BUILD_PLAY
    [mkHand 2 2 1 1 0; mkHand 0 1 0 0 0; mkHand 0 0 0 4 3]
    (mkHand 17 16 18 14 16)
    [(0, (settlement, 0)); (20, (settlement, 0));
     (14, (settlement, 1)); (33, (settlement, 2))]
    [(0, 0); (1, 0); (24, 0); (16, 1); (42, 2)].

(** The phase in which an action can be offered. *)
Definition phase_of_action (a : Action) : Phase :=
  match a with
  | PLACE_SETUP_SETTLEMENT _ => SETUP_PLACE_SETTLEMENT
  | PLACE_SETUP_ROAD _ => SETUP_PLACE_ROAD
  | ACT_ROLL_DICE => ROLL_DICE
  | DISCARD_RESOURCES _ => DISCARD
  | ACT_MOVE_ROBBER _ => MOVE_ROBBER
  | STEAL_RESOURCE _ => STEAL
  | PLACE_ROAD_BUILDING_ROAD _ => ROAD_BUILDING_PLACE
  | PICK_YEAR_OF_PLENTY_RESOURCES _ _ => YEAR_OF_PLENTY_PICK
  | PICK_MONOPOLY_RESOURCE _ => MONOPOLY_PICK
  | BUILD_ROAD _ | BUILD_SETTLEMENT _ | BUILD_CITY _ | BUY_DEV_CARD
  | PLAY_KNIGHT | PLAY_ROAD_BUILDING | PLAY_YEAR_OF_PLENTY | PLAY_MONOPOLY
  | MARITIME_TRADE _ _ | END_TURN => TRADE_BUILD_PLAY
  end.

(** Player 0 has a settlement on vertex 0 and the cards of a city. *)
Definition city_sample : CatanState :=
  let s :=
    sample_state TRADE_BUILD_PLAY
      [mkHand 0 0 1 2 3; mkHand 0 1 0 0 0; mkHand 0 0 0 1 0]
      (mkHand 19 18 18 16 16)
      [(0, (settlement, 0)); (20, (settlement, 0));
       (14, (settlement, 1)); (33, (settlement, 2))]
      [(0, 0); (24, 0); (16, 1); (42, 2)] in
  set_players s
    [set_remaining (player_with_hand 0 (mkHand 0 0 1 2 3)) 3 4 13;
     set_remaining (player_with_hand 1 (mkHand 0 1 0 0 0)) 4 4 14;
     set_remaining (player_with_hand 2 (mkHand 0 0 0 1 0)) 4 4 14].

(** [7 < _total_resources(players[pid].resources)], false for a player
    that does not exist. *)
Definition over_limit (s : CatanState) (pid : nat) : bool :=
  from_option (fun p => (7 <? _total_resources (resources p))%Z) false
              (players s !! pid).

(** Player 1 has a settlement on the hex the robber could move to and
    holds two cards; player 0 is the thief. *)
Definition steal_sample : CatanState :=
  sample_state STEAL
    [mkHand 1 0 0 0 0; mkHand 0 0 1 0 1; mkHand 0 0 0 0 0]
    (mkHand 18 19 18 19 18)
    [(0, (settlement, 0)); (47, (settlement, 1)); (33, (settlement, 2))]
    [(0, 0); (62, 1); (42, 2)].

(** The last road of the setup of three players is about to be placed. *)
Definition setup_sample : CatanState :=
  set_last_placed_vertex
    (set_setup
       (sample_state SETUP_PLACE_ROAD
          [mkHand 1 1 0 0 0; mkHand 0 1 1 0 0; mkHand 0 0 1 1 0]
          (mkHand 18 17 17 18 19)
          [(0, (settlement, 0)); (7, (settlement, 1)); (14, (settlement, 2));
           (21, (settlement, 2)); (25, (settlement, 1));
           (33, (settlement, 0))]
          [(0, 0); (6, 1); (16, 2); (25, 2); (31, 1)])
       1 5)
    (Some 33).

(** Player 1 holds the largest army with three knights; player 0 has just
    played a fourth knight. *)
Definition army_sample : CatanState :=
  let s :=
    sample_state TRADE_BUILD_PLAY
      [mkHand 0 0 0 0 0; mkHand 0 0 0 0 0; mkHand 0 0 0 0 0]
      (mkHand 19 19 19 19 19) [] [] in
  set_largest_army
    (set_players s
       [set_knights_played (new_player 0) 4;
        set_knights_played (new_player 1) 3;
        set_knights_played (new_player 2) 4])
    (Some 1) 3.

(** Player 0 is to move the robber; players 1 and 2 have settlements on
    hex 13 and player 1 holds cards. *)
Definition robber_sample : CatanState :=
  sample_state MOVE_ROBBER
    [mkHand 1 0 0 0 0; mkHand 0 0 1 0 1; mkHand 0 0 0 0 0]
    (mkHand 18 19 18 19 18)
    [(0, (settlement, 0)); (29, (settlement, 1)); (38, (settlement, 2))]
    [(0, 0); (36, 1); (49, 2)].

(** Player 0 has one road piece left and a road-building card. *)
Definition road_building_sample : CatanState :=
  let s :=
    sample_state TRADE_BUILD_PLAY
      [mkHand 0 0 0 0 0; mkHand 0 0 0 0 0; mkHand 0 0 0 0 0]
      (mkHand 19 19 19 19 19)
      [(0, (settlement, 0)); (20, (settlement, 0))]
      [(0, 0); (24, 0)] in
  set_players s
    [set_dev_cards (set_remaining (new_player 0) 3 4 1) [road_building] [];
     new_player 1; new_player 2].

(** The cards a building claims from an adjacent hex. *)
Definition building_units (kind : BuildingKind) : Z :=
  if kind is city then 2%Z else 1%Z.

(** What the building on vertex [vid] claims for player [pid]. *)
Definition claim_at (buildings : list (option Building)) (pid vid : nat)
  : Z :=
  match buildings !! vid with
  | Some (Some (kind, owner)) =>
      if (owner =? pid)%nat then building_units kind else 0%Z
  | _ => 0%Z
  end.

(** What player [pid] claims from a hex with corner vertices [vids]. *)
Definition hex_claim (buildings : list (option Building)) (vids : list nat)
    (pid : nat) : Z :=
  zsum (map (claim_at buildings pid) vids).

(** What all the buildings around the hex claim together. *)
Definition hex_total_demand (buildings : list (option Building))
    (vids : list nat) : Z :=
  zsum (map (fun vid =>
               match buildings !! vid with
               | Some (Some (kind, _)) => building_units kind
               | _ => 0%Z
               end) vids).

(** [player_demand.get(pid, 0)] *)
Fixpoint demand_get (pd : list (nat * Z)) (pid : nat) : Z :=
  match pd with
  | [] => 0%Z
  | (k, v) :: r => if (k =? pid)%nat then v else demand_get r pid
  end.

(** Hexes 1 and 2 are forests with the token 3.  Player 0 has a city and
    player 1 a settlement on hex 1, player 2 has a city on hex 2, and the
    bank holds four lumber. *)
Definition shortage_sample : CatanState :=
  sample_state ROLL_DICE
    [mkHand 5 0 0 0 0; mkHand 5 0 0 0 0; mkHand 5 0 0 0 0]
    (mkHand 4 19 19 19 19)
    [(0, (city, 0)); (8, (settlement, 1)); (11, (city, 2))]
    [(0, 0); (8, 1); (11, 2)].


(** Player 0 holds the award with a recorded length of 5 and still has
    five roads in a row; player 1 has six. *)
Definition road_sample : CatanState :=
  set_longest_road
    (sample_state TRADE_BUILD_PLAY
       [mkHand 0 0 0 0 0; mkHand 0 0 0 0 0; mkHand 0 0 0 0 0]
       (mkHand 19 19 19 19 19)
       [(0, (settlement, 0)); (29, (settlement, 1))]
       [(0, 0); (1, 0); (2, 0); (3, 0); (4, 0);
        (37, 1); (49, 1); (50, 1); (51, 1); (52, 1); (32, 1)])
    (Some 0) 5.

(** One iteration of the loop of [_lr_dfs], with the recursive call
    [rec next_v visited_edges] as a parameter. *)
Definition lr_dfs_visit (rec : nat → list nat → option nat)
    (topo : BoardTopology) (buildings : list (option Building))
    (player : nat) (player_edges : list nat) (vertex : nat)
    (visited_edges : list nat) (max_len eid : nat) : option nat :=
  if negb (mem_nat eid player_edges) then Some max_len
  else if mem_nat eid visited_edges then Some max_len
  else
    '(v1, v2) ← edge_endpoints topo !! eid;
    let next_v := if (v1 =? vertex)%nat then v2 else v1 in
    bldg ← buildings !! next_v;
    if blocks bldg player then Some (Nat.max max_len 1)
    else
      path ← rec next_v (eid :: visited_edges);
      Some (Nat.max max_len (1 + path)).

(** The indices that the longest-road search follows stay inside the
    lists they index: both endpoints of every edge are vertices with an
    adjacency entry and a building slot, and every edge has a road slot. *)
Definition board_indices_ok (topo : BoardTopology)
    (buildings : list (option Building)) (roads : list (option nat))
  : bool :=
  let n_vertices := length (vertex_adjacent_edges topo) in
  forallb (fun eid =>
             match edge_endpoints topo !! eid with
             | Some (v1, v2) =>
                 (v1 <? n_vertices)%nat && (v2 <? n_vertices)%nat
             | None => false
             end)
          (range (edge_count topo))
  && (n_vertices <=? length buildings)%nat
  && (edge_count topo <=? length roads)%nat.

(* ------------------------------------------------------------------ *)
(** * Properties *)
(* ------------------------------------------------------------------ *)

Lemma build_standard_topology :
  build_board_topology STANDARD_HEX_POSITIONS = Some standard_topology.
Proof. vm_compute. reflexivity. Qed.

(* ------------------------------------------------------------------ *)
(** ** Generic lemmas on the loop combinators *)
(* ------------------------------------------------------------------ *)

Lemma enumerate_lookup {A} (l : list A) i x :
  l !! i = Some x → (i, x) ∈ enumerate l.
Proof.
  intros H. unfold enumerate. apply list_elem_of_lookup. exists i.
  rewrite list_lookup_imap, H. reflexivity.
Qed.

Lemma forallb_enumerate {A} (f : nat * A → bool) (l : list A) :
  forallb f (enumerate l) = true →
  ∀ i x, l !! i = Some x → f (i, x) = true.
Proof.
  intros H i x Hx. rewrite forallb_forall in H. apply H.
  apply list_elem_of_In. by apply enumerate_lookup.
Qed.

(** A property kept by every iteration is kept by the loop. *)
Lemma foldlM_inv {A B} (P : B → Prop) (f : B → A → option B) l :
  (∀ b x b', P b → f b x = Some b' → P b') →
  ∀ b b', P b → foldlM f b l = Some b' → P b'.
Proof.
  intros Hf. induction l as [|x l IH]; simpl; intros b b' Hb H.
  - by injection H as <-.
  - apply bind_Some in H as (b1 & H1 & H2). eauto.
Qed.

(** The same, when the property is only needed for the elements met. *)
Lemma foldlM_inv_In {A B} (P : B → Prop) (f : B → A → option B) l :
  (∀ b x b', x ∈ l → P b → f b x = Some b' → P b') →
  ∀ b b', P b → foldlM f b l = Some b' → P b'.
Proof.
  induction l as [|x l IH]; simpl; intros Hf b b' Hb H.
  - by injection H as <-.
  - apply bind_Some in H as (b1 & H1 & H2).
    eapply IH; [| |exact H2].
    + intros ? ? ? ?. apply Hf. by right.
    + eapply Hf; [|exact Hb|exact H1]. by left.
Qed.

(** A loop whose body never raises does not raise. *)
Lemma foldlM_total {A B} (P : B → Prop) (f : B → A → option B) l :
  (∀ b x, x ∈ l → P b → ∃ b', f b x = Some b' ∧ P b') →
  ∀ b, P b → ∃ b', foldlM f b l = Some b' ∧ P b'.
Proof.
  induction l as [|x l IH]; simpl; intros Hf b Hb.
  - eauto.
  - destruct (Hf b x) as (b1 & H1 & Hb1); [by left|done|].
    rewrite H1. simpl. apply IH; [|done].
    intros ? ? ?. apply Hf. by right.
Qed.

Lemma foldlM_app {A B} (f : B → A → option B) l1 l2 b :
  foldlM f b (l1 ++ l2) = b' ← foldlM f b l1; foldlM f b' l2.
Proof.
  revert b. induction l1 as [|x l1 IH]; simpl; intros b; [done|].
  destruct (f b x) as [b1|]; simpl; [apply IH|done].
Qed.

Lemma filterM_Some_In {A} (f : A → option bool) l r x :
  filterM f l = Some r → (x ∈ r ↔ x ∈ l ∧ f x = Some true).
Proof.
  revert r. induction l as [|y l IH]; simpl; intros r H.
  - injection H as <-. split; [by intros ?%not_elem_of_nil|].
    by intros [?%not_elem_of_nil _].
  - apply bind_Some in H as (b & Hb & H).
    apply bind_Some in H as (r' & Hr' & H). injection H as <-.
    specialize (IH _ Hr'). destruct b.
    + rewrite !elem_of_cons, IH. split.
      * intros [->|[? ?]]; eauto.
      * intros [[->|?] ?]; eauto.
    + rewrite elem_of_cons, IH. split.
      * intros [? ?]; eauto.
      * intros [[->|?] ?]; [congruence|eauto].
Qed.

Lemma filterM_Some_defined {A} (f : A → option bool) l r x :
  filterM f l = Some r → x ∈ l → is_Some (f x).
Proof.
  revert r. induction l as [|y l IH]; simpl; intros r H Hin.
  - by apply not_elem_of_nil in Hin.
  - apply bind_Some in H as (b & Hb & H).
    apply bind_Some in H as (r' & Hr' & _).
    apply elem_of_cons in Hin as [->|Hin]; eauto.
Qed.

Lemma filterM_total {A} (f : A → option bool) l :
  (∀ x, x ∈ l → is_Some (f x)) → is_Some (filterM f l).
Proof.
  induction l as [|y l IH]; simpl; intros H; [by eexists|].
  destruct (H y) as [b Hb]; [by left|]. rewrite Hb. simpl.
  destruct IH as [r Hr]; [intros; apply H; by right|]. rewrite Hr.
  by eexists.
Qed.

Lemma filterM_NoDup {A} (f : A → option bool) l r :
  filterM f l = Some r → NoDup l → NoDup r.
Proof.
  revert r. induction l as [|y l IH]; simpl; intros r H Hnd.
  - by injection H as <-.
  - apply bind_Some in H as (b & Hb & H).
    apply bind_Some in H as (r' & Hr' & H). injection H as <-.
    apply NoDup_cons in Hnd as [Hy Hnd]. destruct b; [|eauto].
    apply NoDup_cons. split; [|eauto].
    intros Hin. apply Hy. by eapply (filterM_Some_In f l r' y).
Qed.

Lemma anyM_total {A} (f : A → option bool) l :
  (∀ x, x ∈ l → is_Some (f x)) → is_Some (anyM f l).
Proof.
  induction l as [|y l IH]; simpl; intros H; [by eexists|].
  destruct (H y) as [b Hb]; [by left|]. rewrite Hb. simpl.
  destruct b; [by eexists|]. apply IH. intros; apply H; by right.
Qed.

Lemma list_set_Some {A} (l : list A) i x l' :
  list_set l i x = Some l' → i < length l ∧ l' = <[i:=x]> l.
Proof.
  unfold list_set. destruct (Nat.ltb_spec i (length l)); [|done].
  by intros [= <-].
Qed.

Lemma list_set_total {A} (l : list A) i x :
  i < length l → list_set l i x = Some (<[i:=x]> l).
Proof.
  intros H. unfold list_set. by destruct (Nat.ltb_spec i (length l)); [|lia].
Qed.

Lemma elem_of_range i n : i ∈ range n ↔ i < n.
Proof. unfold range. rewrite elem_of_seq. lia. Qed.

(* ------------------------------------------------------------------ *)
(** ** The topology of the standard board *)
(* ------------------------------------------------------------------ *)

(** C8: the standard 19-hex coordinate list yields 54 vertices and 72
    edges; every vertex has 2 or 3 adjacent edges; the two endpoints of
    every edge are different vertices, each of which lists that edge exactly
    once among its adjacent edges; and every edge listed at a vertex has
    that vertex as an endpoint. *)
Theorem standard_board_topology :
  ∃ topo,
    build_board_topology STANDARD_HEX_POSITIONS = Some topo
    ∧ vertex_count topo = 54 ∧ edge_count topo = 72
    ∧ length (hex_coords topo) = 19
    ∧ length (vertex_positions topo) = 54
    ∧ length (vertex_adjacent_edges topo) = 54
    ∧ length (edge_endpoints topo) = 72
    ∧ (∀ v adj, vertex_adjacent_edges topo !! v = Some adj →
         length adj = 2 ∨ length adj = 3)
    ∧ (∀ eid v1 v2, edge_endpoints topo !! eid = Some (v1, v2) →
         v1 ≠ v2 ∧ v1 < 54 ∧ v2 < 54
         ∧ ∃ a1 a2,
             vertex_adjacent_edges topo !! v1 = Some a1
             ∧ vertex_adjacent_edges topo !! v2 = Some a2
             ∧ count_nat eid a1 = 1 ∧ count_nat eid a2 = 1)
    ∧ (∀ v adj eid, vertex_adjacent_edges topo !! v = Some adj →
         eid ∈ adj →
         ∃ v1 v2, edge_endpoints topo !! eid = Some (v1, v2)
                  ∧ (v = v1 ∨ v = v2)).
Proof.
  exists standard_topology.
  split; [exact build_standard_topology|].
  do 6 (split; [reflexivity|]).
  split; [|split].
  - intros v adj H.
    assert (Hall : forallb vertex_degree_ok
                     (vertex_adjacent_edges standard_topology) = true)
      by (vm_compute; reflexivity).
    rewrite forallb_forall in Hall.
    specialize (Hall adj). unfold vertex_degree_ok in Hall.
    apply orb_true_iff in Hall as [Hl|Hl]; [left|right| ];
      [by apply Nat.eqb_eq in Hl..|].
    apply list_elem_of_In. by eapply list_elem_of_lookup_2.
  - intros eid v1 v2 H.
    assert (Hall : forallb (fun '(i, e) => edge_entry_ok standard_topology i e)
                     (enumerate (edge_endpoints standard_topology)) = true)
      by (vm_compute; reflexivity).
    pose proof (forallb_enumerate _ _ Hall _ _ H) as Hok.
    unfold edge_entry_ok in Hok.
    destruct (vertex_adjacent_edges standard_topology !! v1) as [a1|];
      [|by rewrite andb_false_r in Hok].
    destruct (vertex_adjacent_edges standard_topology !! v2) as [a2|];
      [|by rewrite andb_false_r in Hok].
    apply andb_true_iff in Hok as [Hok Hc].
    apply andb_true_iff in Hc as [Hc1 Hc2].
    repeat (apply andb_true_iff in Hok as [Hok ?]).
    apply negb_true_iff, Nat.eqb_neq in Hok.
    repeat match goal with
           | H : (_ <? _)%nat = true |- _ => apply Nat.ltb_lt in H
           | H : (_ =? _)%nat = true |- _ => apply Nat.eqb_eq in H
           end.
    change (vertex_count standard_topology) with 54 in *.
    split; [done|]. split; [done|]. split; [done|].
    by exists a1, a2.
  - intros v adj eid H Hin.
    assert (Hall : forallb (fun '(i, a) =>
                              adjacency_entry_ok standard_topology i a)
                     (enumerate (vertex_adjacent_edges standard_topology))
                   = true)
      by (vm_compute; reflexivity).
    pose proof (forallb_enumerate _ _ Hall _ _ H) as Hok.
    unfold adjacency_entry_ok in Hok. rewrite forallb_forall in Hok.
    specialize (Hok eid). rewrite <- list_elem_of_In in Hok.
    specialize (Hok Hin).
    destruct (edge_endpoints standard_topology !! eid) as [[v1 v2]|];
      [|done].
    exists v1, v2. split; [done|].
    apply orb_true_iff in Hok as [Hv|Hv]; apply Nat.eqb_eq in Hv; auto.
Qed.

(* ------------------------------------------------------------------ *)
(** ** Construction *)
(* ------------------------------------------------------------------ *)

(** C9: constructing the engine with a player count other than 3 or 4
    raises the configuration error, and with 3 or 4 it returns an engine
    (holding that player count and the default state). *)
Theorem CatanEnv_init_player_count (player_count : Z) :
  (player_count ≠ 3%Z ∧ player_count ≠ 4%Z →
   CatanEnv_init player_count = inl ValueError)
  ∧ (player_count = 3%Z ∨ player_count = 4%Z →
     CatanEnv_init player_count
     = inr (mkEnv (Z.to_nat player_count) default_state)).
Proof.
  unfold CatanEnv_init. split.
  - intros [H3 H4].
    destruct (Z.eqb_spec player_count 3), (Z.eqb_spec player_count 4);
      simpl; congruence.
  - intros [-> | ->]; reflexivity.
Qed.

Lemma CatanEnv_init_player_count_witness :
  CatanEnv_init 5 = inl ValueError
  ∧ CatanEnv_init 3 = inr (mkEnv 3 default_state)
  ∧ CatanEnv_init 4 = inr (mkEnv 4 default_state).
Proof.
  split; [|split].
  - apply (CatanEnv_init_player_count 5). split; lia.
  - apply (CatanEnv_init_player_count 3). left; reflexivity.
  - apply (CatanEnv_init_player_count 4). right; reflexivity.
Defined.

(* ------------------------------------------------------------------ *)
(** ** Discard enumeration *)
(* ------------------------------------------------------------------ *)

Lemma elem_of_zrange x n : x ∈ zrange n ↔ (0 ≤ x < n)%Z.
Proof.
  unfold zrange. rewrite list_elem_of_fmap. split.
  - intros (k & -> & Hk%elem_of_seq). lia.
  - intros H. exists (Z.to_nat x). split; [lia|]. apply elem_of_seq. lia.
Qed.

Lemma NoDup_zrange n : NoDup (zrange n).
Proof.
  unfold zrange. apply (NoDup_fmap_2 Z.of_nat), NoDup_seq.
Qed.

Lemma zsum_bounds picks rest :
  Forall2 (λ pick held : Z, (0 ≤ pick ≤ held)%Z) picks rest →
  (0 ≤ zsum picks ≤ zsum rest)%Z.
Proof. induction 1; simpl; lia. Qed.

(** What [_recurse] returns: the tuples that extend [chosen] by one amount
    per remaining resource, each between zero and the quantity held, the
    amounts adding up to [remaining]. *)
Lemma _recurse_spec rest : ∀ remaining chosen a,
  a ∈ _recurse rest remaining chosen ↔
  ∃ picks, a = DISCARD_RESOURCES (chosen ++ picks)
           ∧ Forall2 (λ pick held : Z, (0 ≤ pick ≤ held)%Z) picks rest
           ∧ zsum picks = remaining.
Proof.
  induction rest as [|held rest IH]; intros remaining chosen a; simpl.
  - destruct (Z.eqb_spec remaining 0) as [->|Hne].
    + rewrite list_elem_of_singleton. split.
      * intros ->. exists []. by rewrite app_nil_r.
      * intros (picks & -> & ->%Forall2_nil_inv_r & _). by rewrite app_nil_r.
    + split; [by intros ?%not_elem_of_nil|].
      intros (picks & _ & ->%Forall2_nil_inv_r & Hs). simpl in Hs. lia.
  - rewrite list_elem_of_bind. split.
    + intros (take & Hin & Htake%elem_of_zrange).
      destruct (Z.ltb_spec (zsum rest) (remaining - take));
        [by apply not_elem_of_nil in Hin|].
      apply IH in Hin as (picks & -> & Hall & Hsum).
      exists (take :: picks). rewrite <- app_assoc. split; [done|].
      split; [constructor; [lia|done]|]. simpl. lia.
    + intros (picks & -> & Hall & Hsum).
      destruct picks as [|take picks]; [by inv Hall|].
      inv Hall. pose proof (zsum_bounds _ _ H4) as Hb.
      change (zsum (take :: picks)) with (take + zsum picks)%Z in *.
      exists take. split; [|apply elem_of_zrange; lia].
      destruct (Z.ltb_spec (zsum rest) (take + zsum picks - take));
        [lia|].
      apply IH. exists picks. rewrite <- app_assoc. split; [done|].
      split; [done|lia].
Qed.

Lemma _recurse_NoDup rest : ∀ remaining chosen,
  NoDup (_recurse rest remaining chosen).
Proof.
  induction rest as [|held rest IH]; intros remaining chosen; simpl.
  - destruct (remaining =? 0)%Z; [apply NoDup_singleton|apply NoDup_nil_2].
  - apply NoDup_bind; [| |apply NoDup_zrange].
    + intros x1 x2 y _ _ H1 H2.
      destruct (zsum rest <? remaining - x1)%Z;
        [by apply not_elem_of_nil in H1|].
      destruct (zsum rest <? remaining - x2)%Z;
        [by apply not_elem_of_nil in H2|].
      apply _recurse_spec in H1 as (p1 & -> & _).
      apply _recurse_spec in H2 as (p2 & [= H2] & _).
      rewrite <- !app_assoc in H2. apply app_inv_head in H2.
      by injection H2.
    + intros x _. destruct (zsum rest <? remaining - x)%Z;
        [apply NoDup_nil_2|apply IH].
Qed.

(** C5: in the DISCARD phase the legal actions are exactly the 5-tuples of
    per-resource amounts, each between zero and the quantity the player at
    the head of the queue holds, that add up to half the hand (rounded
    down); no tuple is listed twice. *)
Theorem discard_enumeration_complete s pid queue p :
  phase s = DISCARD →
  players_needing_discard s = pid :: queue →
  players s !! pid = Some p →
  ∃ acts,
    get_legal_actions s = Some acts
    ∧ NoDup acts
    ∧ ∀ a, a ∈ acts ↔
        ∃ l b w g o,
          a = DISCARD_RESOURCES [l; b; w; g; o]
          ∧ (0 ≤ l ≤ hget (resources p) lumber)%Z
          ∧ (0 ≤ b ≤ hget (resources p) brick)%Z
          ∧ (0 ≤ w ≤ hget (resources p) wool)%Z
          ∧ (0 ≤ g ≤ hget (resources p) grain)%Z
          ∧ (0 ≤ o ≤ hget (resources p) ore)%Z
          ∧ (l + b + w + g + o
             = _total_resources (resources p) `div` 2)%Z.
Proof.
  intros Hph Hq Hp. unfold get_legal_actions. rewrite Hph, Hq. simpl.
  rewrite Hp. simpl. eexists. split; [reflexivity|].
  split; [apply _recurse_NoDup|].
  intros a. unfold _enumerate_discard. rewrite _recurse_spec. simpl. split.
  - intros (picks & -> & Hall & Hsum).
    repeat match goal with
           | H : Forall2 _ _ (_ :: _) |- _ =>
               apply Forall2_cons_inv_r in H as (? & ? & ? & H & ->)
           | H : Forall2 _ _ [] |- _ => apply Forall2_nil_inv_r in H as ->
           end.
    simpl in Hsum. do 5 eexists. split; [reflexivity|].
    repeat split; try tauto; lia.
  - intros (l & b & w & g & o & -> & Hl & Hb & Hw & Hg & Ho & Hsum).
    exists [l; b; w; g; o]. split; [done|].
    split; [repeat constructor; tauto|]. simpl. lia.
Qed.

Lemma discard_enumeration_complete_witness :
  ∃ acts,
    get_legal_actions discard_sample = Some acts
    ∧ NoDup acts
    ∧ DISCARD_RESOURCES [2; 1; 1; 0; 0]%Z ∈ acts.
Proof.
  destruct (discard_enumeration_complete discard_sample 0 []
              (player_with_hand 0 (mkHand 3 2 2 1 1)))
    as (acts & Hacts & Hnd & Hin); [reflexivity..|].
  exists acts. split; [done|]. split; [done|].
  apply Hin. exists 2%Z, 1%Z, 1%Z, 0%Z, 0%Z. simpl.
  split; [reflexivity|]. repeat split; lia || reflexivity.
Defined.

(* ------------------------------------------------------------------ *)
(** ** Hands and the helpers that change them *)
(* ------------------------------------------------------------------ *)

Lemma hget_hset h r v r' :
  hget (hset h r v) r' = if decide (r = r') then v else hget h r'.
Proof. by destruct r, r'. Qed.

Lemma hget_hset_eq h r v : hget (hset h r v) r = v.
Proof. by destruct r. Qed.

Lemma hget_hset_ne h r v r' : r ≠ r' → hget (hset h r v) r' = hget h r'.
Proof. by destruct r, r'. Qed.

Lemma hget_hadd h r d r' :
  hget (hadd h r d) r' = (hget h r' + if decide (r = r') then d else 0)%Z.
Proof.
  unfold hadd. rewrite hget_hset. destruct (decide (r = r')) as [->|]; lia.
Qed.

Lemma hset_same h r : hset h r (hget h r) = h.
Proof. by destruct h, r. Qed.

Lemma set_resources_same p : set_resources p (resources p) = p.
Proof. by destruct p. Qed.

Lemma with_amount_same p r : with_amount p r (hget (resources p) r) = p.
Proof. unfold with_amount. by rewrite hset_same, set_resources_same. Qed.

Lemma update_player_Some s pid f s' :
  update_player s pid f = Some s' ↔
  ∃ p, players s !! pid = Some p
       ∧ s' = set_players s (<[pid := f p]> (players s)).
Proof.
  unfold update_player. split.
  - intros (p & Hp & H)%bind_Some.
    apply bind_Some in H as (ps & [_ ->]%list_set_Some & [= <-]). eauto.
  - intros (p & Hp & ->). rewrite Hp. simpl.
    rewrite list_set_total; [done|]. by eapply lookup_lt_Some.
Qed.

Lemma add_player_resource_Some s pid r d s' :
  add_player_resource s pid r d = Some s' ↔
  ∃ p, players s !! pid = Some p
       ∧ s' = set_players s
                (<[pid := set_resources p (hadd (resources p) r d)]>
                   (players s)).
Proof. apply update_player_Some. Qed.

Lemma held_cons p ps r :
  held (p :: ps) r = (hget (resources p) r + held ps r)%Z.
Proof. reflexivity. Qed.

Lemma held_app ps1 ps2 r : held (ps1 ++ ps2) r = (held ps1 r + held ps2 r)%Z.
Proof.
  induction ps1 as [|x l IH]; [done|].
  rewrite <- app_comm_cons, !held_cons, IH. lia.
Qed.

Lemma held_insert ps i p p' r :
  ps !! i = Some p →
  held (<[i:=p']> ps) r
  = (held ps r - hget (resources p) r + hget (resources p') r)%Z.
Proof.
  revert i. induction ps as [|q ps IH]; intros [|i] H; simplify_eq/=.
  - rewrite !held_cons. lia.
  - rewrite !held_cons, (IH _ H). lia.
Qed.

Lemma held_nonneg ps r :
  Forall (λ p, 0 ≤ hget (resources p) r)%Z ps → (0 ≤ held ps r)%Z.
Proof. induction 1; [done|]. rewrite held_cons. lia. Qed.

(* ------------------------------------------------------------------ *)
(** ** Monopoly *)
(* ------------------------------------------------------------------ *)

Lemma stolen_upto_held ps pid r n cur :
  ps !! pid = Some cur → n ≤ length ps →
  stolen_upto ps pid r n
  = (held (take n ps) r
     - if (pid <? n)%nat then hget (resources cur) r else 0)%Z.
Proof.
  intros Hcur. induction n as [|n IH]; intros Hn.
  - simpl. unfold held. simpl. lia.
  - destruct (lookup_lt_is_Some_2 ps n) as [x Hx]; [lia|].
    rewrite (take_S_r _ _ _ Hx), held_app. simpl. rewrite IH by lia.
    rewrite Hx. simpl. unfold held at 3. simpl.
    destruct (Nat.eqb_spec n pid) as [->|Hne].
    + assert (x = cur) as -> by congruence.
      destruct (Nat.ltb_spec pid pid); [lia|].
      destruct (Nat.ltb_spec pid (S pid)); lia.
    + destruct (Nat.ltb_spec pid n), (Nat.ltb_spec pid (S n)); lia.
Qed.

Ltac bd_ext :=
  f_equal;
  match goal with
  | |- (if bool_decide ?P then _ else _) = (if bool_decide ?Q then _ else _) =>
      rewrite (bool_decide_ext P Q) by lia; reflexivity
  end.

(** The loop of [_apply_pick_monopoly] over the first [n] players. *)
Lemma monopoly_loop s r n :
  let pid := current_player s in
  n ≤ length (players s) →
  Forall (λ p, 0 ≤ hget (resources p) r)%Z (players s) →
  ∃ ps,
    foldlM (monopoly_take pid r) (s, 0%Z) (range n)
    = Some (set_players s ps, stolen_upto (players s) pid r n)
    ∧ length ps = length (players s)
    ∧ ∀ i p, players s !! i = Some p →
        ps !! i = Some (if bool_decide (i < n ∧ i ≠ pid)
                        then with_amount p r 0 else p).
Proof.
  intros pid Hn Hpos. induction n as [|n IH].
  - exists (players s). split; [simpl; by destruct s|]. split; [done|].
    intros i p Hp. rewrite bool_decide_eq_false_2; [done|lia].
  - destruct IH as (ps & Hfold & Hlen & Hps); [lia|].
    unfold range in *. rewrite seq_S, foldlM_app, Hfold.
    unfold monopoly_take. simpl.
    destruct (lookup_lt_is_Some_2 (players s) n) as [x Hx]; [lia|].
    pose proof (Hps _ _ Hx) as Hpsn.
    rewrite bool_decide_eq_false_2 in Hpsn by lia.
    destruct (Nat.eqb_spec n pid) as [->|Hne]; simpl.
    + exists ps. rewrite Z.add_0_r. split; [done|]. split; [done|].
      intros i p Hp. rewrite (Hps _ _ Hp).
      destruct (decide (i = pid)) as [->|].
      * rewrite !bool_decide_eq_false_2; [done|lia..].
      * bd_ext.
    + rewrite Hpsn. simpl.
      rewrite Forall_forall in Hpos.
      assert (0 ≤ hget (resources x) r)%Z as Hx0
        by (apply Hpos; by eapply list_elem_of_lookup_2).
      destruct (Z.ltb_spec 0 (hget (resources x) r)).
      * unfold update_player. simpl. rewrite Hpsn. simpl.
        rewrite list_set_total by (rewrite Hlen; lia). simpl.
        exists (<[n:=set_resources x (hset (resources x) r 0)]> ps).
        rewrite Hx. split; [reflexivity|].
        split; [by rewrite length_insert|].
        intros i p Hp. destruct (decide (i = n)) as [->|Hin].
        -- rewrite list_lookup_insert_eq by lia.
           rewrite bool_decide_eq_true_2 by lia.
           assert (p = x) as -> by congruence. reflexivity.
        -- rewrite list_lookup_insert_ne by done. rewrite (Hps _ _ Hp).
           bd_ext.
      * exists ps. assert (hget (resources x) r = 0)%Z as Hz by lia.
        rewrite Hx. simpl. rewrite Hz, Z.add_0_r.
        split; [done|]. split; [done|].
        intros i p Hp. destruct (decide (i = n)) as [->|Hin].
        -- rewrite bool_decide_eq_true_2 by lia.
           assert (p = x) as -> by congruence.
           rewrite Hpsn. by rewrite <- Hz, with_amount_same.
        -- rewrite (Hps _ _ Hp).
           bd_ext.
Qed.

Lemma held_all_zero ps r :
  (∀ i p, ps !! i = Some p → hget (resources p) r = 0%Z) → held ps r = 0%Z.
Proof.
  induction ps as [|q ps IH]; intros H; [done|].
  rewrite held_cons, (H 0 q eq_refl), IH; [done|].
  intros i p Hp. apply (H (S i) p Hp).
Qed.

Lemma held_zero_except ps r : ∀ pid c,
  ps !! pid = Some c →
  (∀ i p, ps !! i = Some p → i ≠ pid → hget (resources p) r = 0%Z) →
  held ps r = hget (resources c) r.
Proof.
  induction ps as [|q ps IH]; intros [|pid] c Hc H; simplify_eq/=.
  - rewrite held_cons, held_all_zero; [lia|].
    intros i p Hp. by apply (H (S i) p Hp).
  - rewrite held_cons, (H 0 q eq_refl) by done.
    rewrite (IH pid c Hc); [done|].
    intros i p Hp Hi. apply (H (S i) p Hp). lia.
Qed.

(** C10: picking resource [r] for a monopoly moves every card of [r] held
    by the other players to the current player: afterwards the current
    player holds all the cards of [r] that were in the hands, every other
    player holds none, so the total in the hands is unchanged; every other
    counter of every player and the bank are unchanged, nothing else in the
    state changes, and the phase is TRADE_BUILD_PLAY. *)
Theorem pick_monopoly_transfers s r rnd cur :
  length (players s) = player_count s →
  players s !! current_player s = Some cur →
  Forall (λ p, 0 ≤ hget (resources p) r)%Z (players s) →
  ∃ s',
    apply_action s (PICK_MONOPOLY_RESOURCE r) rnd = Some s'
    ∧ phase s' = TRADE_BUILD_PLAY
    ∧ bank s' = bank s
    ∧ s' = set_phase (set_players s (players s')) TRADE_BUILD_PLAY
    ∧ length (players s') = length (players s)
    ∧ (∀ i p, players s !! i = Some p →
         players s' !! i
         = Some (with_amount p r
                   (if bool_decide (i = current_player s)
                    then held (players s) r else 0)))
    ∧ held (players s') r = held (players s) r
    ∧ (∀ r' i p p', r' ≠ r →
         players s !! i = Some p → players s' !! i = Some p' →
         hget (resources p') r' = hget (resources p) r').
Proof.
  intros Hlen Hcur Hpos.
  destruct (monopoly_loop s r (player_count s)) as (ps & Hfold & Hl & Hps);
    [lia|done|].
  pose proof (Hps _ _ Hcur) as Hpscur.
  rewrite bool_decide_eq_false_2 in Hpscur by lia.
  assert (Hpid : current_player s < length (players s))
    by (by eapply lookup_lt_Some).
  assert (Hnew : ∀ i p, players s !! i = Some p →
            <[current_player s :=
                set_resources cur
                  (hadd (resources cur) r
                     (stolen_upto (players s) (current_player s) r
                        (player_count s)))]> ps !! i
            = Some (with_amount p r
                      (if bool_decide (i = current_player s)
                       then held (players s) r else 0))).
  { intros i p Hp. destruct (decide (i = current_player s)) as [->|Hne].
    - rewrite list_lookup_insert_eq by lia.
      rewrite bool_decide_eq_true_2 by done.
      assert (p = cur) as -> by congruence.
      rewrite (stolen_upto_held _ _ _ _ cur) by (done || lia).
      rewrite <- Hlen, firstn_all.
      destruct (Nat.ltb_spec (current_player s) (length (players s)));
        [|lia].
      unfold with_amount, hadd. do 3 f_equal. lia.
    - rewrite list_lookup_insert_ne by done. rewrite (Hps _ _ Hp).
      rewrite bool_decide_eq_true_2.
      + by rewrite bool_decide_eq_false_2.
      + split; [|done]. rewrite <- Hlen. by eapply lookup_lt_Some. }
  eexists. split.
  { unfold apply_action, _apply_pick_monopoly. rewrite Hfold. simpl.
    unfold add_player_resource, update_player. simpl. rewrite Hpscur. simpl.
    rewrite list_set_total by lia. simpl. reflexivity. }
  simpl. split; [done|]. split; [done|]. split; [done|].
  split; [by rewrite length_insert|]. split; [exact Hnew|]. split.
  - assert (Hc := Hnew _ _ Hcur). rewrite bool_decide_eq_true_2 in Hc by done.
    rewrite (held_zero_except _ _ _ _ Hc).
    + unfold with_amount. simpl. by rewrite hget_hset_eq.
    + intros i p Hp Hi.
      destruct (lookup_lt_is_Some_2 (players s) i) as [q Hq].
      { apply lookup_lt_Some in Hp. rewrite length_insert in Hp. lia. }
      rewrite (Hnew _ _ Hq), bool_decide_eq_false_2 in Hp by done.
      injection Hp as <-. unfold with_amount. simpl. by rewrite hget_hset_eq.
  - intros r' i p p' Hr Hp Hp'. rewrite (Hnew _ _ Hp) in Hp'.
    injection Hp' as <-. unfold with_amount. simpl.
    by rewrite hget_hset_ne.
Qed.

Lemma pick_monopoly_transfers_witness :
  ∃ s',
    apply_action monopoly_sample (PICK_MONOPOLY_RESOURCE lumber)
                 (mkDraws 0 0 0) = Some s'
    ∧ phase s' = TRADE_BUILD_PLAY
    ∧ held (players s') lumber = 6%Z
    ∧ (resources <$> players s')
      = [mkHand 6 0 2 0 0; mkHand 0 1 0 0 1; mkHand 0 0 0 4 0].
Proof.
  destruct (pick_monopoly_transfers monopoly_sample lumber (mkDraws 0 0 0)
              (player_with_hand 0 (mkHand 1 0 2 0 0)))
    as (s' & Hs' & Hph & _ & _ & _ & _ & Hheld & _).
  - reflexivity.
  - reflexivity.
  - repeat constructor; simpl; lia.
  - exists s'. split; [done|]. split; [done|]. split; [done|].
    vm_compute in Hs'. injection Hs' as <-. reflexivity.
Defined.

(* ------------------------------------------------------------------ *)
(** ** Maritime trade *)
(* ------------------------------------------------------------------ *)

(** [get_trade_ratio] computes the ratio of the specification. *)
Lemma get_trade_ratio_best harbors pverts give :
  get_trade_ratio harbors pverts give
  = best_applicable_ratio harbors pverts give.
Proof.
  unfold get_trade_ratio.
  assert (H : ∀ acc, (acc ≤ 4)%Z →
            fold_left
              (fun ratio h =>
                 if negb (has_access h pverts) then ratio
                 else match harbor_type h with
                      | generic => Z.min ratio 3
                      | specific r =>
                          if bool_decide (r = give) then Z.min ratio 2
                          else ratio
                      end) harbors acc
            = Z.min acc (best_applicable_ratio harbors pverts give)).
  { induction harbors as [|h hs IH]; intros acc Hacc.
    - unfold best_applicable_ratio. simpl. lia.
    - simpl. rewrite IH.
      + unfold best_applicable_ratio in *. simpl.
        destruct (has_access h pverts); simpl;
          [|destruct (existsb _ hs); [lia|destruct (existsb _ hs); lia]].
        destruct (harbor_type h) as [|r]; simpl.
        * destruct (existsb _ hs); [lia|]. destruct (existsb _ hs); lia.
        * destruct (decide (r = give)) as [->|Hne].
          -- rewrite !bool_decide_eq_true_2 by done. simpl.
             destruct (existsb _ hs); [lia|]. destruct (existsb _ hs); lia.
          -- rewrite !bool_decide_eq_false_2 by congruence. simpl.
             destruct (existsb _ hs); [lia|]. destruct (existsb _ hs); lia.
      + destruct (has_access h pverts); simpl; [|done].
        destruct (harbor_type h); [lia|]. destruct (bool_decide _); lia. }
  rewrite H by lia. unfold best_applicable_ratio.
  destruct (existsb _ harbors); [lia|]. destruct (existsb _ harbors); lia.
Qed.

Lemma all_resource_pairs give receive :
  (give, receive)
  ∈ (give ← RESOURCES; receive ← RESOURCES; [(give, receive)]).
Proof.
  apply list_elem_of_In.
  destruct give, receive; vm_compute;
    repeat ((left; reflexivity) || right).
Qed.

(** What [is_valid_maritime_trade] answers. *)
Lemma is_valid_maritime_trade_spec s player give receive pverts p :
  _get_player_vertices s player = Some pverts →
  players s !! player = Some p →
  is_valid_maritime_trade s player give receive
  = Some (bool_decide
            (give ≠ receive
             ∧ (best_applicable_ratio (harbors s) pverts give
                ≤ hget (resources p) give)%Z
             ∧ (1 ≤ hget (bank s) receive)%Z)).
Proof.
  intros Hv Hp. unfold is_valid_maritime_trade, _get_player_trade_ratio.
  destruct (decide (give = receive)) as [->|Hne].
  - rewrite bool_decide_eq_true_2 by done.
    rewrite bool_decide_eq_false_2; [done|tauto].
  - rewrite (bool_decide_eq_false_2 (give = receive)) by done.
    rewrite Hv. simpl. rewrite Hp. simpl. rewrite get_trade_ratio_best.
    destruct (Z.ltb_spec (hget (resources p) give)
                (best_applicable_ratio (harbors s) pverts give)).
    { rewrite bool_decide_eq_false_2; [done|lia]. }
    destruct (Z.leb_spec (hget (bank s) receive) 0).
    { rewrite bool_decide_eq_false_2; [done|lia]. }
    rewrite bool_decide_eq_true_2; [done|]. split; [done|lia].
Qed.

(** C6: in the TRADE_BUILD_PLAY phase a maritime trade of [give] for
    [receive] is among the legal actions exactly when the two resources
    differ, the current player holds at least the best applicable ratio of
    [give] (2 with an accessible harbour of [give], else 3 with an
    accessible generic harbour, else 4, a harbour being accessible when the
    player has a building on one of its two vertices) and the bank holds at
    least one [receive]; applying it moves that ratio of [give] from the
    hand to the bank and one [receive] from the bank to the hand and changes
    nothing else. *)
Theorem maritime_trade_legal_and_effect s acts :
  phase s = TRADE_BUILD_PLAY →
  get_legal_actions s = Some acts →
  ∃ topo pverts p,
    topology s = Some topo
    ∧ _get_player_vertices s (current_player s) = Some pverts
    ∧ (∀ v, v ∈ pverts ↔
         v < vertex_count topo
         ∧ ∃ kind,
             vertex_buildings s !! v = Some (Some (kind, current_player s)))
    ∧ players s !! current_player s = Some p
    ∧ ∀ give receive,
        let ratio := best_applicable_ratio (harbors s) pverts give in
        (MARITIME_TRADE give receive ∈ acts ↔
           give ≠ receive
           ∧ (ratio ≤ hget (resources p) give)%Z
           ∧ (1 ≤ hget (bank s) receive)%Z)
        ∧ (MARITIME_TRADE give receive ∈ acts →
           ∀ rnd, ∃ s' p',
             apply_action s (MARITIME_TRADE give receive) rnd = Some s'
             ∧ s' = set_bank (set_players s (players s')) (bank s')
             ∧ players s' = <[current_player s := p']> (players s)
             ∧ p' = set_resources p (resources p')
             ∧ hget (resources p') give = (hget (resources p) give - ratio)%Z
             ∧ hget (resources p') receive
               = (hget (resources p) receive + 1)%Z
             ∧ hget (bank s') give = (hget (bank s) give + ratio)%Z
             ∧ hget (bank s') receive = (hget (bank s) receive - 1)%Z
             ∧ ∀ r, r ≠ give → r ≠ receive →
                 hget (resources p') r = hget (resources p) r
                 ∧ hget (bank s') r = hget (bank s) r).
Proof.
  intros Hph Hacts. unfold get_legal_actions in Hacts. rewrite Hph in Hacts.
  unfold _trade_build_play_actions in Hacts.
  apply bind_Some in Hacts as (roads & _ & Hacts).
  apply bind_Some in Hacts as (settlements & _ & Hacts).
  apply bind_Some in Hacts as (cities & _ & Hacts).
  apply bind_Some in Hacts as (buy & _ & Hacts).
  apply bind_Some in Hacts as (kn & _ & Hacts).
  apply bind_Some in Hacts as (rb & _ & Hacts).
  apply bind_Some in Hacts as (yop & _ & Hacts).
  apply bind_Some in Hacts as (mono & _ & Hacts).
  apply bind_Some in Hacts as (trades & Htrades & Hacts).
  injection Hacts as <-.
  (* the player and the player's vertices exist: the trade of lumber for
     brick was evaluated *)
  assert (Hlb : is_Some (is_valid_maritime_trade s (current_player s)
                           lumber brick)).
  { apply (filterM_Some_defined _ _ _ (lumber, brick) Htrades).
    apply all_resource_pairs. }
  destruct Hlb as [b Hb]. unfold is_valid_maritime_trade in Hb. simpl in Hb.
  apply bind_Some in Hb as (ratio0 & Hr0 & Hb).
  apply bind_Some in Hb as (p & Hp & _).
  unfold _get_player_trade_ratio in Hr0.
  apply bind_Some in Hr0 as (pverts & Hpv & _).
  pose proof Hpv as Hpv'. unfold _get_player_vertices in Hpv'.
  apply bind_Some in Hpv' as (topo & Htopo & Hfilter).
  exists topo, pverts, p. split; [done|]. split; [done|]. split.
  { intros v. rewrite (filterM_Some_In _ _ _ v Hfilter), elem_of_range.
    apply and_iff_compat_l. split.
    - intros (bv & Hbv & Hown)%bind_Some. injection Hown as Hown.
      destruct bv as [[kind owner]|]; [|done].
      apply Nat.eqb_eq in Hown as ->. by exists kind.
    - intros (kind & ->). simpl. by rewrite Nat.eqb_refl. }
  split; [done|]. intros give receive ratio.
  assert (Hin : MARITIME_TRADE give receive
                ∈ map BUILD_ROAD roads ++ map BUILD_SETTLEMENT settlements
                  ++ map BUILD_CITY cities
                  ++ (if buy then [BUY_DEV_CARD] else [])
                  ++ (if kn then [PLAY_KNIGHT] else [])
                  ++ (if rb then [PLAY_ROAD_BUILDING] else [])
                  ++ (if yop then [PLAY_YEAR_OF_PLENTY] else [])
                  ++ (if mono then [PLAY_MONOPOLY] else [])
                  ++ map (λ '(give, receive), MARITIME_TRADE give receive)
                       trades ++ [END_TURN]
                ↔ give ≠ receive
                  ∧ (ratio ≤ hget (resources p) give)%Z
                  ∧ (1 ≤ hget (bank s) receive)%Z).
  { rewrite !elem_of_app, !list_elem_of_fmap.
    assert (Ht : (give, receive) ∈ trades ↔
                 give ≠ receive
                 ∧ (ratio ≤ hget (resources p) give)%Z
                 ∧ (1 ≤ hget (bank s) receive)%Z).
    { rewrite (filterM_Some_In _ _ _ (give, receive) Htrades).
      rewrite (is_valid_maritime_trade_spec _ _ _ _ _ _ Hpv Hp).
      split.
      - intros [_ [= H]]. by apply bool_decide_eq_true in H.
      - intros H. split; [apply all_resource_pairs|].
        by rewrite bool_decide_eq_true_2. }
    rewrite <- Ht. split.
    - intros [(? & [=] & _)|[(? & [=] & _)|[(? & [=] & _)|Hm]]].
      destruct buy, kn, rb, yop, mono;
        repeat (rewrite elem_of_cons in Hm || rewrite elem_of_nil in Hm);
        destruct Hm as [Hm|Hm]; try done;
        repeat (destruct Hm as [Hm|Hm]; try done);
        try (destruct Hm as ([g' r'] & [= -> ->] & Hm); done).
    - intros Hm. do 8 right. left. by exists (give, receive). }
  split; [exact Hin|].
  intros Hlegal rnd. apply Hin in Hlegal as (Hne & Hhave & Hbank).
  set (p1 := set_resources p (hadd (resources p) give (- ratio))).
  set (p2 := set_resources p1 (hadd (resources p1) receive 1)).
  assert (Hlt : current_player s < length (players s))
    by (by eapply lookup_lt_Some).
  exists (add_bank
            (add_bank
               (set_players s (<[current_player s := p2]> (players s)))
               give ratio) receive (-1)), p2.
  split.
  { unfold apply_action, _apply_maritime_trade, _get_player_trade_ratio.
    rewrite Hpv. simpl. rewrite get_trade_ratio_best.
    unfold add_player_resource, update_player. simpl. rewrite Hp. simpl.
    rewrite list_set_total by done. simpl.
    rewrite list_lookup_insert_eq by done. simpl.
    rewrite list_set_total by (by rewrite length_insert). simpl.
    by rewrite list_insert_insert_eq. }
  split; [reflexivity|]. split; [reflexivity|]. split; [reflexivity|].
  unfold p2, p1, add_bank. simpl.
  repeat split; intros; rewrite ?hget_hadd; repeat case_decide;
    try congruence; lia.
Qed.

Lemma maritime_trade_legal_and_effect_witness :
  ∃ acts,
    get_legal_actions maritime_sample = Some acts
    ∧ MARITIME_TRADE lumber brick ∈ acts
    ∧ MARITIME_TRADE wool ore ∈ acts.
Proof.
  assert (Hacts : ∃ acts, get_legal_actions maritime_sample = Some acts)
    by (eexists; vm_compute; reflexivity).
  destruct Hacts as [acts Hacts]. exists acts. split; [exact Hacts|].
  destruct (maritime_trade_legal_and_effect maritime_sample acts eq_refl
              Hacts)
    as (topo & pverts & p & _ & Hpv & _ & Hp & H).
  vm_compute in Hpv, Hp. injection Hpv as <-. injection Hp as <-.
  split.
  - apply (H lumber brick). vm_compute. repeat split; congruence.
  - apply (H wool ore). vm_compute. repeat split; congruence.
Defined.

(* ------------------------------------------------------------------ *)
(** ** What the helpers leave unchanged *)
(* ------------------------------------------------------------------ *)

Lemma only_hands_and_bank_refl s : only_hands_and_bank s s.
Proof. by destruct s. Qed.

Lemma only_hands_and_bank_trans s1 s2 s3 :
  only_hands_and_bank s1 s2 → only_hands_and_bank s2 s3 →
  only_hands_and_bank s1 s3.
Proof. unfold only_hands_and_bank. intros -> ->. reflexivity. Qed.

Lemma update_player_only s pid f s' :
  update_player s pid f = Some s' → only_hands_and_bank s s'.
Proof. intros (p & _ & ->)%update_player_Some. reflexivity. Qed.

Lemma add_bank_only s r d : only_hands_and_bank s (add_bank s r d).
Proof. reflexivity. Qed.

Lemma transfer_only s pid r d s1 :
  add_player_resource s pid r d = Some s1 →
  ∀ d', only_hands_and_bank s (add_bank s1 r d').
Proof. intros (p & _ & ->)%update_player_Some d'. reflexivity. Qed.

Lemma pay_cost_only s pid cost s' :
  pay_cost s pid cost = Some s' → only_hands_and_bank s s'.
Proof.
  unfold pay_cost. apply foldlM_inv; [|apply only_hands_and_bank_refl].
  intros b x b' Hb (s1 & H1 & [= <-])%bind_Some.
  eapply only_hands_and_bank_trans; [exact Hb|]. by eapply transfer_only.
Qed.

Lemma distribute_hex_only topo dice s hid s' :
  distribute_hex topo dice s hid = Some s' → only_hands_and_bank s s'.
Proof.
  unfold distribute_hex. intros (number & _ & H)%bind_Some.
  destruct (negb _); [injection H as <-; apply only_hands_and_bank_refl|].
  destruct (_ =? _)%nat;
    [injection H as <-; apply only_hands_and_bank_refl|].
  apply bind_Some in H as (terrain & _ & H).
  destruct (TERRAIN_TO_RESOURCE terrain) as [resource|];
    [|injection H as <-; apply only_hands_and_bank_refl].
  apply bind_Some in H as (vids & _ & H).
  apply bind_Some in H as ([total pd] & _ & H).
  destruct (_ <? _)%Z; [injection H as <-; apply only_hands_and_bank_refl|].
  revert H. apply foldlM_inv; [|apply only_hands_and_bank_refl].
  intros b [pid amount] b' Hb (s1 & H1 & [= <-])%bind_Some.
  eapply only_hands_and_bank_trans; [exact Hb|]. by eapply transfer_only.
Qed.

Lemma _distribute_resources_only s dice s' :
  _distribute_resources s dice = Some s' → only_hands_and_bank s s'.
Proof.
  unfold _distribute_resources.
  destruct (_ =? _)%nat;
    [intros [= <-]; apply only_hands_and_bank_refl|].
  intros (topo & _ & H)%bind_Some. revert H.
  apply foldlM_inv; [|apply only_hands_and_bank_refl].
  intros b x b' Hb H. eapply only_hands_and_bank_trans; [exact Hb|].
  by eapply distribute_hex_only.
Qed.

Lemma update_longest_road_Some s s' :
  update_longest_road s = Some s' →
  s' = set_longest_road s (longest_road_player s') (longest_road_length s').
Proof.
  unfold update_longest_road. intros ([lp ll] & _ & H)%bind_Some.
  apply bind_Some in H as ([lp' ll'] & _ & [= <-]). reflexivity.
Qed.

Lemma update_largest_army_Some s s' :
  update_largest_army s = Some s' →
  s' = set_largest_army s (largest_army_player s') (largest_army_size s').
Proof.
  unfold update_largest_army. intros ([lp ll] & _ & [= <-])%bind_Some.
  reflexivity.
Qed.

(** Inversion of the monadic code: binds, conditionals and matches that
    returned a value. *)
Ltac inv_step :=
  match goal with
  | H : Some _ = Some _ |- _ => injection H as H; try subst
  | H : None = Some _ |- _ => discriminate H
  | H : (_ ≫= _) = Some _ |- _ =>
      let x := fresh "x" in
      let Hx := fresh "Hx" in
      apply bind_Some in H as (x & Hx & H)
  | H : (let '(_, _) := ?p in _) = Some _ |- _ => destruct p
  | H : (if ?b then _ else _) = Some _ |- _ =>
      let Hb := fresh "Hb" in destruct b eqn:Hb
  | H : match ?x with _ => _ end = Some _ |- _ =>
      let Hm := fresh "Hm" in destruct x eqn:Hm
  end.
Ltac inv_opt := repeat inv_step.

(** Facts on the phase collected from the helpers that ran. *)
Ltac phase_facts :=
  repeat match goal with
  | H : update_player _ _ _ = Some _ |- _ =>
      apply update_player_only in H; rewrite H
  | H : play_card _ _ _ = Some _ |- _ =>
      apply update_player_only in H; rewrite H
  | H : add_player_resource _ _ _ _ = Some _ |- _ =>
      apply update_player_only in H; rewrite H
  | H : pay_cost _ _ _ = Some _ |- _ =>
      apply pay_cost_only in H; rewrite H
  | H : _distribute_resources _ _ = Some _ |- _ =>
      apply _distribute_resources_only in H; rewrite H
  | H : update_longest_road _ = Some _ |- _ =>
      apply update_longest_road_Some in H; rewrite H
  | H : update_largest_army _ = Some _ |- _ =>
      apply update_largest_army_Some in H; rewrite H
  end.

(** Every action but END_TURN leaves the phase as it is or sets it to a
    phase other than GAME_OVER. *)
Lemma apply_action_phase s a rnd s' :
  apply_action s a rnd = Some s' →
  a ≠ END_TURN →
  phase s' = phase s ∨ phase s' ≠ GAME_OVER.
Proof.
  intros H Ha.
  destruct a; try done; simpl in H;
    unfold _apply_setup_settlement, _apply_setup_road, _apply_roll_dice,
      _apply_discard, _apply_move_robber, _apply_steal, _apply_build_road,
      _apply_build_settlement, _apply_build_city, _apply_buy_dev_card,
      _apply_play_knight, _apply_play_road_building,
      _apply_place_road_building_road, _apply_play_year_of_plenty,
      _apply_pick_yop, _apply_play_monopoly, _apply_pick_monopoly,
      _apply_maritime_trade, _apply_build_road in H;
    inv_opt; phase_facts; simpl; auto;
    repeat match goal with
           | |- context [match ?x with _ => _ end] => destruct x
           end; auto.
Qed.

(* ------------------------------------------------------------------ *)
(** ** The end of the game *)
(* ------------------------------------------------------------------ *)

Lemma count_vp_cards_app a b :
  count_vp_cards (a ++ b) = count_vp_cards a + count_vp_cards b.
Proof. unfold count_vp_cards. by rewrite filter_app, length_app. Qed.

(** Promoting the cards bought this turn does not change the victory
    points: both collections are counted. *)
Lemma calculate_vp_promote s p :
  players s !! current_player s = Some p →
  calculate_vp
    (set_players s
       (<[current_player s :=
            set_has_played
              (set_dev_cards p (dev_cards p ++ new_dev_cards p) []) false]>
          (players s)))
    (current_player s)
  = calculate_vp s (current_player s).
Proof.
  intros Hp. unfold calculate_vp. simpl.
  destruct (topology s) as [topo|]; [simpl|done].
  destruct (foldlM _ 0 (range (vertex_count topo))) as [vp|]; [simpl|done].
  rewrite list_lookup_insert_eq by (by eapply lookup_lt_Some).
  rewrite Hp. simpl. rewrite count_vp_cards_app.
  change (count_vp_cards []) with 0. f_equal. lia.
Qed.

(** What END_TURN does, by the victory points of the current player. *)
Lemma _apply_end_turn_Some s s' :
  phase s ≠ GAME_OVER →
  _apply_end_turn s = Some s' →
  ∃ vp, calculate_vp s (current_player s) = Some vp
        ∧ if (VP_TO_WIN <=? vp)%nat
          then phase s' = GAME_OVER
               ∧ winner s' = Some (current_player s)
               ∧ current_player s' = current_player s
          else phase s' = ROLL_DICE
               ∧ winner s' = winner s
               ∧ current_player s'
                 = (current_player s + 1) mod player_count s.
Proof.
  intros Hg. unfold _apply_end_turn. intros (s1 & H1 & H)%bind_Some.
  apply update_player_Some in H1 as (p & Hp & ->).
  apply bind_Some in H as (s2 & H2 & H).
  unfold check_game_over in H2. cbn [current_player set_players] in H2.
  rewrite (calculate_vp_promote s p Hp) in H2.
  apply bind_Some in H2 as (vp & Hvp & H2). exists vp. split; [done|].
  destruct (VP_TO_WIN <=? vp)%nat; injection H2 as <-;
    cbn [phase set_phase set_winner set_players] in H.
  - rewrite bool_decide_eq_true_2 in H by done. injection H as <-. done.
  - rewrite bool_decide_eq_false_2 in H by done. injection H as <-. done.
Qed.

(** C2: from a state that is not over, a step ends the game only when the
    action is END_TURN and the victory points of the current player,
    recomputed at that moment, are at least 10; the winner is then that
    player.  No other action sets the phase to GAME_OVER. *)
Theorem game_over_only_at_end_turn s a rnd r :
  phase s ≠ GAME_OVER →
  step s a rnd = Some r →
  phase (new_state r) = GAME_OVER →
  a = END_TURN
  ∧ (∃ vp, calculate_vp s (current_player s) = Some vp ∧ VP_TO_WIN ≤ vp)
  ∧ winner (new_state r) = Some (current_player s)
  ∧ current_player (new_state r) = current_player s
  ∧ done r = true
  ∧ info r = Some (Some (current_player s)).
Proof.
  intros Hg Hstep Hover. unfold step in Hstep.
  apply bind_Some in Hstep as (s' & Happ & [= <-]). simpl in *.
  destruct (decide (a = END_TURN)) as [->|Hne].
  - split; [done|]. simpl in Happ.
    destruct (_apply_end_turn_Some _ _ Hg Happ) as (vp & Hvp & Hcase).
    destruct (Nat.leb_spec VP_TO_WIN vp).
    + destruct Hcase as (_ & Hw & Hc).
      split; [by exists vp|]. split; [done|]. split; [done|].
      rewrite bool_decide_eq_true_2 by done. by rewrite Hw.
    + destruct Hcase as (Hph & _). congruence.
  - destruct (apply_action_phase _ _ _ _ Happ Hne); congruence.
Qed.

(** The other direction: END_TURN with at least 10 victory points ends the
    game. *)
Lemma end_turn_with_ten_points s rnd r vp :
  phase s ≠ GAME_OVER →
  step s END_TURN rnd = Some r →
  calculate_vp s (current_player s) = Some vp →
  phase (new_state r) = GAME_OVER ↔ VP_TO_WIN ≤ vp.
Proof.
  intros Hg Hstep Hvp. unfold step in Hstep.
  apply bind_Some in Hstep as (s' & Happ & [= <-]). simpl in *.
  destruct (_apply_end_turn_Some _ _ Hg Happ) as (vp' & Hvp' & Hcase).
  assert (vp' = vp) as -> by congruence.
  destruct (Nat.leb_spec VP_TO_WIN vp).
  - destruct Hcase as (-> & _). done.
  - destruct Hcase as (-> & _). split; [done|lia].
Qed.

Lemma game_over_only_at_end_turn_witness :
  ∃ r, step won_sample END_TURN (mkDraws 0 0 0) = Some r
       ∧ calculate_vp won_sample 0 = Some 10
       ∧ winner (new_state r) = Some 0
       ∧ done r = true.
Proof.
  eexists. split; [vm_compute; reflexivity|]. split; [reflexivity|].
  destruct (game_over_only_at_end_turn won_sample END_TURN (mkDraws 0 0 0) _
              ltac:(discriminate) eq_refl eq_refl)
    as (_ & _ & Hw & _ & Hd & _).
  split; [exact Hw|exact Hd].
Defined.

(* ------------------------------------------------------------------ *)
(** ** The reward returned by step *)
(* ------------------------------------------------------------------ *)

(** The reward is the constant [0.0], whatever the action and the
    outcome. *)
Lemma step_reward_zero s a rnd r : step s a rnd = Some r → reward r = 0%Z.
Proof. unfold step. by intros (s' & _ & [= <-])%bind_Some. Qed.

(** C7 fails on the code: the step that ends the game, with the winner
    recorded in [info], returns the reward 0 and not +1. *)
Theorem step_reward_at_game_end :
  ∃ r, step won_sample END_TURN (mkDraws 0 0 0) = Some r
       ∧ done r = true
       ∧ info r = Some (Some 0)
       ∧ get_acting_player won_sample = 0
       ∧ reward r = 0%Z.
Proof. eexists. split; [vm_compute; reflexivity|]. done. Qed.

(* ------------------------------------------------------------------ *)
(** ** Conservation of the resource cards in one step *)
(* ------------------------------------------------------------------ *)

Lemma total_add_player_resource s pid r d s' r' :
  add_player_resource s pid r d = Some s' →
  total_of s' r' = (total_of s r' + if decide (r = r') then d else 0)%Z.
Proof.
  intros (p & Hp & ->)%add_player_resource_Some. unfold total_of. simpl.
  rewrite (held_insert _ _ _ _ _ Hp). simpl. rewrite hget_hadd. lia.
Qed.

Lemma total_add_bank s r d r' :
  total_of (add_bank s r d) r'
  = (total_of s r' + if decide (r = r') then d else 0)%Z.
Proof. unfold total_of, add_bank. simpl. rewrite hget_hadd. lia. Qed.

Lemma total_update_player s pid f s' r :
  (∀ p, resources (f p) = resources p) →
  update_player s pid f = Some s' → total_of s' r = total_of s r.
Proof.
  intros Hf (p & Hp & ->)%update_player_Some. unfold total_of. simpl.
  rewrite (held_insert _ _ _ _ _ Hp), Hf. lia.
Qed.

(** A card moved between a hand and the bank stays in the game. *)
Lemma total_transfer s pid r d s1 r' :
  add_player_resource s pid r d = Some s1 →
  total_of (add_bank s1 r (- d)) r' = total_of s r'.
Proof.
  intros H. rewrite total_add_bank, (total_add_player_resource _ _ _ _ _ _ H).
  case_decide; lia.
Qed.

Lemma total_pay_cost s pid cost s' r :
  pay_cost s pid cost = Some s' → total_of s' r = total_of s r.
Proof.
  unfold pay_cost.
  apply (foldlM_inv (λ b, total_of b r = total_of s r)); [|done].
  intros b x b' Hb (s1 & H1 & [= <-])%bind_Some.
  rewrite <- Hb, total_add_bank, (total_add_player_resource _ _ _ _ _ _ H1).
  case_decide; lia.
Qed.

Lemma total_distribute_hex topo dice s hid s' r :
  distribute_hex topo dice s hid = Some s' → total_of s' r = total_of s r.
Proof.
  unfold distribute_hex. intros (number & _ & H)%bind_Some.
  destruct (negb _); [by injection H as <-|].
  destruct (_ =? _)%nat; [by injection H as <-|].
  apply bind_Some in H as (terrain & _ & H).
  destruct (TERRAIN_TO_RESOURCE terrain) as [resource|];
    [|by injection H as <-].
  apply bind_Some in H as (vids & _ & H).
  apply bind_Some in H as ([total pd] & _ & H).
  destruct (_ <? _)%Z; [by injection H as <-|].
  revert H. apply (foldlM_inv (λ b, total_of b r = total_of s r)); [|done].
  intros b [pid amount] b' Hb (s1 & H1 & [= <-])%bind_Some.
  by rewrite (total_transfer _ _ _ _ _ _ H1).
Qed.

Lemma total_distribute_resources s dice s' r :
  _distribute_resources s dice = Some s' → total_of s' r = total_of s r.
Proof.
  unfold _distribute_resources.
  destruct (_ =? _)%nat; [by intros [= <-]|].
  intros (topo & _ & H)%bind_Some. revert H.
  apply (foldlM_inv (λ b, total_of b r = total_of s r)); [|done].
  intros b x b' Hb H. by rewrite (total_distribute_hex _ _ _ _ _ _ H).
Qed.

Lemma total_update_longest_road s s' r :
  update_longest_road s = Some s' → total_of s' r = total_of s r.
Proof. intros ->%update_longest_road_Some. reflexivity. Qed.

Lemma total_update_largest_army s s' r :
  update_largest_army s = Some s' → total_of s' r = total_of s r.
Proof. intros ->%update_largest_army_Some. reflexivity. Qed.

Lemma total_monopoly_loop pid resource l r : ∀ s t s' t',
  foldlM (monopoly_take pid resource) (s, t) l = Some (s', t') →
  (total_of s' r + (if decide (resource = r) then t' else 0)
   = total_of s r + (if decide (resource = r) then t else 0))%Z.
Proof.
  induction l as [|i l IH]; simpl; intros s t s' t' H.
  - by injection H as <- <-.
  - apply bind_Some in H as ([s1 t1] & H1 & H).
    rewrite (IH _ _ _ _ H). unfold monopoly_take in H1.
    destruct (i =? pid)%nat; [by injection H1 as <- <-|].
    apply bind_Some in H1 as (p & Hp & H1).
    destruct (0 <? _)%Z; [|by injection H1 as <- <-].
    apply bind_Some in H1 as (s2 & H2 & [= <- <-]).
    apply update_player_Some in H2 as (p' & Hp' & ->).
    assert (p' = p) as -> by congruence.
    unfold total_of. simpl. rewrite (held_insert _ _ _ _ _ Hp). simpl.
    rewrite hget_hset. repeat case_decide; subst; try done; lia.
Qed.

Lemma total_grant_loop pid hids r : ∀ s s',
  foldlM (grant_from_hex pid) s hids = Some s' →
  total_of s' r = total_of s r.
Proof.
  intros s s'.
  apply (foldlM_inv (λ b, total_of b r = total_of s r)); [|done].
  intros b hid b' Hb (terrain & _ & H)%bind_Some.
  destruct (TERRAIN_TO_RESOURCE terrain) as [res|]; [|by injection H as <-].
  apply bind_Some in H as (s1 & H1 & [= <-]).
  by rewrite (total_transfer _ _ _ _ _ _ H1).
Qed.

(** Equations between the totals before and after each helper that ran. *)
Ltac total_facts r :=
  repeat match goal with
  | H : add_player_resource _ _ _ _ = Some _ |- _ =>
      apply (total_add_player_resource _ _ _ _ _ r) in H
  | H : update_player _ _ _ = Some _ |- _ =>
      apply (total_update_player _ _ _ _ r) in H; [|done]
  | H : play_card _ _ _ = Some _ |- _ =>
      apply (total_update_player _ _ _ _ r) in H; [|done]
  | H : pay_cost _ _ _ = Some _ |- _ => apply (total_pay_cost _ _ _ _ r) in H
  | H : _distribute_resources _ _ = Some _ |- _ =>
      apply (total_distribute_resources _ _ _ r) in H
  | H : update_longest_road _ = Some _ |- _ =>
      apply (total_update_longest_road _ _ r) in H
  | H : update_largest_army _ = Some _ |- _ =>
      apply (total_update_largest_army _ _ r) in H
  | H : foldlM (grant_from_hex _) _ _ = Some _ |- _ =>
      apply (total_grant_loop _ _ r) in H
  | H : foldlM (monopoly_take _ _) _ _ = Some _ |- _ =>
      apply (total_monopoly_loop _ _ _ r) in H
  end.

(** Whatever the action, legal or not, a step that returns keeps the number
    of cards of every resource in the game (hands and bank together). *)
Theorem apply_action_conserves_resources s a rnd s' r :
  apply_action s a rnd = Some s' → total_of s' r = total_of s r.
Proof.
  intros H.
  destruct a; simpl in H;
    unfold _apply_setup_settlement, _apply_setup_road, _apply_roll_dice,
      _apply_discard, _apply_move_robber, _apply_steal, _apply_build_road,
      _apply_build_settlement, _apply_build_city, _apply_buy_dev_card,
      _apply_play_knight, _apply_play_road_building,
      _apply_place_road_building_road, _apply_play_year_of_plenty,
      _apply_pick_yop, _apply_play_monopoly, _apply_pick_monopoly,
      _apply_maritime_trade, _apply_end_turn, check_game_over,
      _apply_build_road in H;
    inv_opt; total_facts r;
    unfold total_of, add_bank in *; simpl in *;
    rewrite ?hget_hadd in *; repeat case_decide; try done; try lia.
Qed.

Lemma apply_action_conserves_resources_witness :
  ∃ s', apply_action build_sample (BUILD_ROAD 5) (mkDraws 0 0 0) = Some s'
        ∧ total_of s' lumber = 19%Z ∧ total_of s' brick = 19%Z.
Proof.
  assert (H : ∃ s', apply_action build_sample (BUILD_ROAD 5) (mkDraws 0 0 0)
                    = Some s') by (eexists; vm_compute; reflexivity).
  destruct H as [s' H]. exists s'. split; [exact H|].
  rewrite !(apply_action_conserves_resources _ _ _ _ _ H).
  split; reflexivity.
Defined.

(* ------------------------------------------------------------------ *)
(** ** The setup order *)
(* ------------------------------------------------------------------ *)

Lemma get_setup_order_length n : length (get_setup_order n) = 2 * n.
Proof.
  unfold get_setup_order, range.
  rewrite length_app, length_rev, length_seq. lia.
Qed.

Lemma get_setup_order_forward n i :
  i < n → get_setup_order n !! i = Some i.
Proof.
  intros Hi. unfold get_setup_order, range.
  rewrite lookup_app_l by (rewrite length_seq; lia).
  by rewrite lookup_seq_lt.
Qed.

Lemma get_setup_order_backward n i :
  i < n → get_setup_order n !! (n + i) = Some (n - 1 - i).
Proof.
  intros Hi. unfold get_setup_order, range.
  rewrite lookup_app_r by (rewrite length_seq; lia).
  rewrite length_seq, rev_alt.
  change (rev_append (seq 0 n) []) with (reverse (seq 0 n)).
  rewrite reverse_lookup by (rewrite length_seq; lia).
  rewrite length_seq, lookup_seq_lt by lia. f_equal. lia.
Qed.

(** The snake draft: [2 n] slots, the first [n] in order of player index
    and the last [n] in the reverse order, so that every player has two
    slots, [i] and [2 n - 1 - i]. *)
Theorem get_setup_order_snake n :
  length (get_setup_order n) = 2 * n
  ∧ ∀ i, i < n →
      get_setup_order n !! i = Some i
      ∧ get_setup_order n !! (n + i) = Some (n - 1 - i)
      ∧ get_setup_order n !! (2 * n - 1 - i) = Some i.
Proof.
  split; [apply get_setup_order_length|]. intros i Hi.
  split; [by apply get_setup_order_forward|].
  split; [by apply get_setup_order_backward|].
  replace (2 * n - 1 - i) with (n + (n - 1 - i)) by lia.
  rewrite get_setup_order_backward by lia. f_equal. lia.
Qed.

Lemma get_setup_order_snake_witness :
  get_setup_order 4 !! 3 = Some 3 ∧ get_setup_order 4 !! 4 = Some 3
  ∧ get_setup_order 4 !! 7 = Some 0.
Proof.
  destruct (get_setup_order_snake 4) as [_ H].
  destruct (H 3 ltac:(lia)) as (H3 & H7 & _).
  destruct (H 0 ltac:(lia)) as (_ & H4 & _).
  split; [exact H3|]. split; [exact H4|exact H7].
Defined.

(* ------------------------------------------------------------------ *)
(** ** Development cards *)
(* ------------------------------------------------------------------ *)

(** [_remove_dev_card] removes the first card of the given type and no
    other card; a hand without such a card is returned as it is. *)
Theorem _remove_dev_card_first cards card :
  (card ∉ cards → _remove_dev_card cards card = cards)
  ∧ (card ∈ cards →
     ∃ before after,
       cards = before ++ (card :: after)
       ∧ (card ∉ before)
       ∧ _remove_dev_card cards card = before ++ after).
Proof.
  induction cards as [|c cards [IHn IHy]]; simpl.
  - split; [done|]. by intros ?%not_elem_of_nil.
  - destruct (decide (c = card)) as [->|Hne].
    + rewrite bool_decide_eq_true_2 by done. split.
      * intros Hn. exfalso. apply Hn. by left.
      * intros _. exists [], cards. split; [done|]. split; [|done].
        apply not_elem_of_nil.
    + rewrite bool_decide_eq_false_2 by done. split.
      * intros Hn. f_equal. apply IHn. intros ?. apply Hn. by right.
      * intros [?|Hin]%elem_of_cons; [congruence|].
        destruct (IHy Hin) as (before & after & -> & Hb & ->).
        exists (c :: before), after. split; [done|]. split; [|done].
        intros [?|?]%elem_of_cons; [congruence|done].
Qed.

(* ------------------------------------------------------------------ *)
(** ** The phases in which actions are offered *)
(* ------------------------------------------------------------------ *)

(** Every action in the list of legal actions belongs to the current
    phase; in particular nothing is offered once the game is over or
    before it is reset. *)
Theorem legal_action_in_phase s acts a :
  get_legal_actions s = Some acts → a ∈ acts → phase_of_action a = phase s.
Proof.
  unfold get_legal_actions. intros H Hin.
  destruct (phase s) eqn:Hph; inv_opt;
    try (by apply not_elem_of_nil in Hin);
    try (apply list_elem_of_fmap in Hin as (? & -> & _); done);
    try (apply list_elem_of_fmap in Hin as ([? ?] & -> & _); done);
    try (repeat (apply elem_of_cons in Hin as [->|Hin]; [done|]);
         first [ by apply not_elem_of_nil in Hin
               | apply list_elem_of_fmap in Hin as (? & -> & _); done ]).
  - unfold _enumerate_discard in Hin.
    by apply _recurse_spec in Hin as (picks & -> & _).
  - unfold _trade_build_play_actions in H. inv_opt.
    rewrite !elem_of_app, !list_elem_of_fmap in Hin.
    repeat match goal with
           | H : _ ∨ _ |- _ => destruct H as [H|H]
           | H : ∃ _, _ |- _ => destruct H as (? & -> & _)
           | H : _ ∈ (if ?b then _ else _) |- _ => destruct b
           | H : _ ∈ [] |- _ => by apply not_elem_of_nil in H
           | H : _ ∈ [_] |- _ => apply list_elem_of_singleton in H as ->
           end; try done.
    match goal with
    | |- context [let '(_, _) := ?p in _] => by destruct p
    end.
Qed.

Lemma legal_action_in_phase_witness :
  phase_of_action (BUILD_ROAD 5) = phase build_sample.
Proof.
  assert (H : ∃ acts, get_legal_actions build_sample = Some acts
                      ∧ BUILD_ROAD 5 ∈ acts).
  { eexists. split; [vm_compute; reflexivity|]. right. by left. }
  destruct H as (acts & H & Hin).
  exact (legal_action_in_phase build_sample acts (BUILD_ROAD 5) H Hin).
Defined.

(* ------------------------------------------------------------------ *)
(** ** Paying a cost *)
(* ------------------------------------------------------------------ *)

Lemma update_player_twice s pid f g s1 s2 :
  update_player s pid f = Some s1 → update_player s1 pid g = Some s2 →
  update_player s pid (g ∘ f) = Some s2.
Proof.
  intros (p & Hp & ->)%update_player_Some (p' & Hp' & ->)%update_player_Some.
  simpl in Hp'. pose proof (lookup_lt_Some _ _ _ Hp) as Hlt.
  rewrite list_lookup_insert_eq in Hp' by done. injection Hp' as <-.
  apply update_player_Some. exists p. split; [done|]. simpl.
  by rewrite list_insert_insert_eq.
Qed.

(** The loop that pays a cost, resource by resource, unrolled. *)
Lemma pay_cost_spec s pid cost :
  pay_cost s pid cost
  = p ← players s !! pid;
    Some (set_bank
            (set_players s
               (<[pid := set_resources p (_subtract (resources p) cost)]>
                  (players s)))
            (_add (bank s) cost)).
Proof.
  unfold pay_cost, RESOURCES. cbn [foldlM].
  unfold add_player_resource, update_player.
  destruct (players s !! pid) as [p|] eqn:Hp; simpl; [|done].
  pose proof (lookup_lt_Some _ _ _ Hp) as Hlt.
  rewrite !list_set_total by (rewrite ?length_insert; done). simpl.
  repeat (rewrite list_lookup_insert_eq by (rewrite ?length_insert; done);
          simpl;
          rewrite list_set_total by (rewrite ?length_insert; done);
          simpl).
  rewrite !list_insert_insert_eq. reflexivity.
Qed.

Lemma pay_cost_inv s pid cost s' :
  pay_cost s pid cost = Some s' →
  ∃ p, players s !! pid = Some p
       ∧ s' = set_bank
                (set_players s
                   (<[pid := set_resources p (_subtract (resources p) cost)]>
                      (players s)))
                (_add (bank s) cost).
Proof.
  rewrite pay_cost_spec. intros (p & Hp & [= <-])%bind_Some. eauto.
Qed.

(** The loop that pays a cost resource by resource does what the pure
    helpers [_subtract] and [_add] compute: the hand of the player becomes
    [_subtract(hand, cost)], the bank [_add(bank, cost)], and nothing else
    changes; it raises exactly when the player does not exist. *)
Theorem pay_cost_Some s pid cost s' :
  pay_cost s pid cost = Some s' ↔
  ∃ p, players s !! pid = Some p
       ∧ s' = set_bank
                (set_players s
                   (<[pid := set_resources p (_subtract (resources p) cost)]>
                      (players s)))
                (_add (bank s) cost).
Proof.
  split; [apply pay_cost_inv|].
  intros (p & Hp & ->). rewrite pay_cost_spec, Hp. reflexivity.
Qed.

Lemma pay_cost_Some_witness :
  ∃ s', pay_cost build_sample 0 ROAD_COST = Some s'
        ∧ resources <$> players s' !! 0 = Some (mkHand 1 1 1 1 0)
        ∧ bank s' = mkHand 18 17 18 14 16.
Proof.
  eexists. split.
  - apply pay_cost_Some. exists (player_with_hand 0 (mkHand 2 2 1 1 0)).
    split; reflexivity.
  - split; reflexivity.
Defined.

(* ------------------------------------------------------------------ *)
(** ** Building a city *)
(* ------------------------------------------------------------------ *)

(** BUILD_CITY puts a city of the current player on the vertex, gives one
    settlement piece back, takes one city piece, and pays the city cost
    (two grain and three ore, no lumber, brick or wool) to the bank; the
    roads, the other players and the rest of the state are untouched.  It
    raises exactly when the vertex or the current player does not exist:
    the function itself does not look at what stood on the vertex. *)
Theorem _apply_build_city_Some s vertex s' :
  _apply_build_city s vertex = Some s' ↔
  vertex < length (vertex_buildings s)
  ∧ ∃ p p',
      players s !! current_player s = Some p
      ∧ vertex_buildings s'
        = <[vertex := Some (city, current_player s)]> (vertex_buildings s)
      ∧ players s' = <[current_player s := p']> (players s)
      ∧ remaining_settlements p' = (remaining_settlements p + 1)%Z
      ∧ remaining_cities p' = (remaining_cities p - 1)%Z
      ∧ remaining_roads p' = remaining_roads p
      ∧ resources p' = _subtract (resources p) CITY_COST
      ∧ dev_cards p' = dev_cards p ∧ new_dev_cards p' = new_dev_cards p
      ∧ knights_played p' = knights_played p ∧ id p' = id p
      ∧ has_played_dev_card_this_turn p' = has_played_dev_card_this_turn p
      ∧ bank s' = _add (bank s) CITY_COST
      ∧ s' = set_bank
               (set_players
                  (set_vertex_buildings s (vertex_buildings s')) (players s'))
               (bank s').
Proof.
  unfold _apply_build_city. split.
  - intros (vb & [Hlt ->]%list_set_Some & H)%bind_Some.
    apply bind_Some in H as (s1 & H1 & H).
    apply update_player_Some in H1 as (p & Hp & ->).
    apply pay_cost_inv in H as (p1 & Hp1 & ->). simpl in *.
    rewrite list_lookup_insert_eq in Hp1 by (by eapply lookup_lt_Some).
    injection Hp1 as <-. split; [done|].
    eexists p, _. split; [done|]. split; [done|].
    split; [by rewrite list_insert_insert_eq|]. simpl. done.
  - intros (Hlt & p & p' & Hp & Hvb & Hps & Hrs & Hrc & Hrr & Hres & Hd & Hn
            & Hk & Hid & Hh & Hb & ->).
    rewrite list_set_total by done. simpl.
    unfold update_player. simpl. rewrite Hp. simpl.
    pose proof (lookup_lt_Some _ _ _ Hp) as Hlt'.
    rewrite list_set_total by done. simpl.
    rewrite pay_cost_spec. simpl.
    rewrite list_lookup_insert_eq by done. simpl. f_equal.
    rewrite list_insert_insert_eq, Hvb, Hps, Hb. do 3 f_equal.
    destruct p, p'. simpl in *. by subst.
Qed.

Lemma _apply_build_city_Some_witness :
  ∃ s' p',
    _apply_build_city city_sample 0 = Some s'
    ∧ players s' !! 0 = Some p'
    ∧ remaining_settlements p' = 4%Z ∧ remaining_cities p' = 3%Z
    ∧ resources p' = mkHand 0 0 1 0 0
    ∧ vertex_buildings s' !! 0 = Some (Some (city, 0)).
Proof.
  assert (H : ∃ s', _apply_build_city city_sample 0 = Some s')
    by (eexists; vm_compute; reflexivity).
  destruct H as [s' H]. pose proof H as H'.
  apply _apply_build_city_Some in H'
    as (_ & p & p' & Hp & Hvb & Hps & Hrs & Hrc & _ & Hres & _).
  vm_compute in Hp. injection Hp as <-.
  exists s', p'. split; [exact H|]. rewrite Hps, Hvb.
  split; [reflexivity|]. split; [exact Hrs|]. split; [exact Hrc|].
  split; [exact Hres|reflexivity].
Defined.

(* ------------------------------------------------------------------ *)
(** ** Discarding *)
(* ------------------------------------------------------------------ *)

(** DISCARD_RESOURCES takes the cards from the player at the head of the
    queue, whoever the current player is, gives them to the bank and drops
    that player from the queue; the phase becomes MOVE_ROBBER when the
    queue is then empty and stays as it is otherwise.  It raises on an empty
    queue. *)
Theorem _apply_discard_Some s discarded s' :
  _apply_discard s discarded = Some s' ↔
  ∃ pid queue p,
    players_needing_discard s = pid :: queue
    ∧ players s !! pid = Some p
    ∧ s' = (if queue is [] then fun s => set_phase s MOVE_ROBBER
            else fun s => s)
             (set_players_needing_discard
                (set_bank
                   (set_players s
                      (<[pid := set_resources p
                                  (_subtract (resources p) discarded)]>
                         (players s)))
                   (_add (bank s) discarded))
                queue).
Proof.
  unfold _apply_discard. split.
  - intros (pid & Hhd & H)%bind_Some.
    destruct (players_needing_discard s) as [|pid' queue] eqn:Hq;
      [done|]. injection Hhd as ->.
    apply bind_Some in H as (s1 & H1 & H).
    apply pay_cost_inv in H1 as (p & Hp & ->). simpl in H. rewrite Hq in H.
    exists pid, queue, p. split; [done|]. split; [done|].
    simpl in H. destruct queue; by injection H as <-.
  - intros (pid & queue & p & Hq & Hp & ->). rewrite Hq. simpl.
    assert (Hpay : pay_cost s pid discarded
                   = Some (set_bank
                             (set_players s
                                (<[pid := set_resources p
                                            (_subtract (resources p)
                                                       discarded)]>
                                   (players s)))
                             (_add (bank s) discarded)))
      by (by rewrite pay_cost_spec, Hp).
    rewrite Hpay. simpl. rewrite Hq. simpl. by destruct queue.
Qed.

Lemma _apply_discard_Some_witness :
  ∃ s', _apply_discard discard_sample (mkHand 2 1 1 0 0) = Some s'
        ∧ phase s' = MOVE_ROBBER
        ∧ players_needing_discard s' = []
        ∧ resources <$> players s' !! 0 = Some (mkHand 1 1 1 1 1).
Proof.
  eexists. split.
  - apply _apply_discard_Some.
    exists 0, [], (player_with_hand 0 (mkHand 3 2 2 1 1)).
    split; [reflexivity|]. split; reflexivity.
  - split; [reflexivity|]. split; reflexivity.
Defined.

(* ------------------------------------------------------------------ *)
(** ** Stealing *)
(* ------------------------------------------------------------------ *)

Lemma available_elem h stolen :
  stolen ∈ flat_map (λ r, replicate (Z.to_nat (hget h r)) r) RESOURCES →
  (0 < hget h stolen)%Z.
Proof.
  intros H%list_elem_of_In. apply in_flat_map in H as (r & _ & H).
  apply list_elem_of_In, elem_of_replicate in H as [-> Hn]. lia.
Qed.

Lemma available_nil h :
  flat_map (λ r, replicate (Z.to_nat (hget h r)) r) RESOURCES = [] →
  ∀ r, (hget h r ≤ 0)%Z.
Proof.
  intros H r. destruct (Z.leb_spec (hget h r) 0) as [|Hpos]; [done|].
  exfalso. assert (Hin : r ∈ ([] : list Resource)); [|by inv Hin].
  rewrite <- H. apply list_elem_of_In, in_flat_map. exists r. split.
  - destruct r; simpl; tauto.
  - apply list_elem_of_In, elem_of_replicate. split; [done|lia].
Qed.

(** STEAL_RESOURCE always ends in TRADE_BUILD_PLAY and never touches the
    bank.  Without a victim, or with a victim who holds no card, no hand
    changes; otherwise one card that the victim holds moves to the current
    player.  In every case the number of cards of each resource in the
    hands is unchanged. *)
Theorem _apply_steal_Some s victim rnd s' :
  _apply_steal s victim rnd = Some s' →
  s' = set_phase (set_players s (players s')) TRADE_BUILD_PLAY
  ∧ (∀ r, held (players s') r = held (players s) r)
  ∧ match victim with
    | None => players s' = players s
    | Some vi =>
        ∃ v, players s !! vi = Some v
             ∧ (((∀ r, (hget (resources v) r ≤ 0)%Z)
                 ∧ players s' = players s)
                ∨ ∃ stolen c,
                    (0 < hget (resources v) stolen)%Z
                    ∧ let ps1 :=
                        <[vi := set_resources v
                                  (hadd (resources v) stolen (-1))]>
                          (players s) in
                      ps1 !! current_player s = Some c
                      ∧ players s'
                        = <[current_player s :=
                              set_resources c (hadd (resources c) stolen 1)]>
                            ps1)
    end.
Proof.
  unfold _apply_steal. destruct victim as [vi|];
    [|intros [= <-]; split; [by destruct s|done]].
  intros (v & Hv & H)%bind_Some.
  remember (flat_map (λ r, replicate (Z.to_nat (hget (resources v) r)) r)
                     RESOURCES) as available eqn:Hav.
  destruct available as [|r0 avail].
  { injection H as <-. split; [by destruct s|]. split; [done|].
    exists v. split; [done|]. left. split; [|done].
    by apply available_nil. }
  apply bind_Some in H as (stolen & Hst & H).
  assert (Hpos : (0 < hget (resources v) stolen)%Z).
  { apply available_elem. rewrite <- Hav. by eapply list_elem_of_lookup_2. }
  clear Hav Hst.
  apply bind_Some in H as (s1 & H1 & H).
  apply bind_Some in H as (s2 & H2 & [= <-]).
  apply add_player_resource_Some in H1 as (v' & Hv' & ->).
  assert (v' = v) as -> by congruence.
  apply add_player_resource_Some in H2 as (c & Hc & ->). simpl in *.
  split; [done|]. split.
  - intros r. rewrite (held_insert _ _ _ _ _ Hc), (held_insert _ _ _ _ _ Hv).
    simpl. rewrite !hget_hadd. case_decide; lia.
  - exists v. split; [done|]. right. exists stolen, c.
    split; done.
Qed.

Lemma _apply_steal_Some_witness :
  ∃ s', _apply_steal steal_sample (Some 1) (mkDraws 0 0 1) = Some s'
        ∧ (resources <$> players s')
          = [mkHand 1 0 0 0 1; mkHand 0 0 1 0 0; mkHand 0 0 0 0 0].
Proof.
  assert (H : ∃ s', _apply_steal steal_sample (Some 1) (mkDraws 0 0 1)
                    = Some s') by (eexists; vm_compute; reflexivity).
  destruct H as [s' H]. exists s'. split; [exact H|].
  destruct (_apply_steal_Some _ _ _ _ H) as (-> & _ & _).
  vm_compute in H. injection H as <-. reflexivity.
Defined.

(* ------------------------------------------------------------------ *)
(** ** Rolling the dice *)
(* ------------------------------------------------------------------ *)

Lemma filterM_as_filter {A} (f : A → option bool) l r :
  filterM f l = Some r → r = List.filter (λ x, default false (f x)) l.
Proof.
  revert r. induction l as [|x l IH]; simpl; intros r H.
  - by injection H as <-.
  - apply bind_Some in H as (b & Hb & H).
    apply bind_Some in H as (r' & Hr' & [= <-]).
    rewrite Hb. simpl. rewrite <- (IH _ Hr'). by destruct b.
Qed.

Lemma randint_range lo hi raw : lo < hi → lo ≤ randint lo hi raw < hi.
Proof.
  intros H. unfold randint.
  pose proof (Nat.mod_upper_bound raw (hi - lo)). lia.
Qed.

(** ROLL_DICE records two dice between 1 and 6.  On a total of seven no
    hand and no bank counter changes: the players who hold more than seven
    cards, in order of player index, become the discard queue and the phase
    is DISCARD, or MOVE_ROBBER when there is no such player.  On any other
    total the phase is TRADE_BUILD_PLAY and the queue is untouched. *)
Theorem _apply_roll_dice_Some s rnd s' :
  _apply_roll_dice s rnd = Some s' →
  ∃ d1 d2,
    last_roll s' = Some (d1, d2)
    ∧ 1 ≤ d1 ≤ 6 ∧ 1 ≤ d2 ≤ 6
    ∧ if (d1 + d2 =? 7)%nat then
        players s' = players s ∧ bank s' = bank s
        ∧ let need := List.filter (over_limit s) (range (player_count s)) in
          if need is [] then
            phase s' = MOVE_ROBBER
            ∧ players_needing_discard s' = players_needing_discard s
          else phase s' = DISCARD ∧ players_needing_discard s' = need
      else
        phase s' = TRADE_BUILD_PLAY
        ∧ players_needing_discard s' = players_needing_discard s.
Proof.
  unfold _apply_roll_dice.
  set (d1 := randint 1 7 (draw_d1 rnd)). set (d2 := randint 1 7 (draw_d2 rnd)).
  intros H. exists d1, d2.
  pose proof (randint_range 1 7 (draw_d1 rnd) ltac:(lia)).
  pose proof (randint_range 1 7 (draw_d2 rnd) ltac:(lia)).
  fold d1 d2 in H0, H1.
  destruct (d1 + d2 =? 7)%nat.
  - apply bind_Some in H as (need & Hneed & H).
    apply filterM_as_filter in Hneed.
    assert (Hn : need = List.filter (over_limit s) (range (player_count s))).
    { rewrite Hneed. apply filter_ext. intros pid. unfold over_limit. simpl.
      by destruct (players s !! pid). }
    cbv zeta. rewrite <- Hn.
    destruct need; injection H as <-; simpl; repeat split; try done; lia.
  - apply bind_Some in H as (s1 & H1' & [= <-]).
    apply _distribute_resources_only in H1'. rewrite H1'. simpl.
    repeat split; try done; lia.
Qed.

Lemma _apply_roll_dice_Some_witness :
  ∃ s', _apply_roll_dice
          (set_phase discard_sample ROLL_DICE) (mkDraws 2 3 0) = Some s'
        ∧ last_roll s' = Some (3, 4)
        ∧ phase s' = DISCARD ∧ players_needing_discard s' = [0].
Proof.
  assert (H : ∃ s', _apply_roll_dice (set_phase discard_sample ROLL_DICE)
                      (mkDraws 2 3 0) = Some s')
    by (eexists; vm_compute; reflexivity).
  destruct H as [s' H]. exists s'. split; [exact H|].
  destruct (_apply_roll_dice_Some _ _ _ H) as (d1 & d2 & Hl & _ & _ & Hc).
  assert (Hl' : last_roll s' = Some (3, 4))
    by (vm_compute in H; injection H as <-; reflexivity).
  rewrite Hl' in Hl. injection Hl as <- <-. simpl in Hc.
  destruct Hc as (_ & _ & Hph & Hq). split; [done|]. split; [done|].
  rewrite Hq. reflexivity.
Defined.

(* ------------------------------------------------------------------ *)
(** ** The setup draft *)
(* ------------------------------------------------------------------ *)

(** PLACE_SETUP_ROAD gives the edge to the current player and takes one
    road piece.  After the last of the [2 n] draft slots the phase is
    ROLL_DICE, player 0 is to act and the turn number is 1; before that the
    next player of the snake draft places a settlement, and the round flag
    is set from the slot [n] on. *)
Theorem _apply_setup_road_Some s edge s' :
  _apply_setup_road s edge = Some s' →
  let n := player_count s in
  let next := setup_index s + 1 in
  edge_roads s' = <[edge := Some (current_player s)]> (edge_roads s)
  ∧ (∃ p, players s !! current_player s = Some p
          ∧ players s'
            = <[current_player s :=
                  set_remaining p (remaining_settlements p)
                    (remaining_cities p) (remaining_roads p - 1)]>
                (players s))
  ∧ last_placed_vertex s' = None
  ∧ bank s' = bank s
  ∧ if (2 * n <=? next)%nat then
      phase s' = ROLL_DICE ∧ current_player s' = 0 ∧ turn_number s' = 1%Z
    else
      phase s' = SETUP_PLACE_SETTLEMENT
      ∧ current_player s' = (if (next <? n)%nat then next else 2 * n - 1 - next)
      ∧ setup_index s' = next
      ∧ setup_round s' = (if (n <=? next)%nat then 1 else 0)
      ∧ turn_number s' = turn_number s.
Proof.
  unfold _apply_setup_road.
  intros (er & [_ ->]%list_set_Some & H)%bind_Some.
  apply bind_Some in H as (s1 & H1 & H).
  apply update_player_Some in H1 as (p & Hp & ->).
  cbn [player_count setup_index set_players set_edge_roads] in H.
  rewrite get_setup_order_length in H. cbv zeta.
  destruct (2 * player_count s <=? setup_index s + 1)%nat eqn:Hle.
  - injection H as <-. simpl. split; [done|]. split; [eauto|]. done.
  - apply Nat.leb_gt in Hle.
    apply bind_Some in H as (next & Hnext & [= <-]). simpl.
    split; [done|]. split; [eauto|]. split; [done|]. split; [done|].
    split; [done|]. split; [|done].
    destruct (Nat.ltb_spec (setup_index s + 1) (player_count s)) as [Hlt|Hge].
    + rewrite get_setup_order_forward in Hnext by done. congruence.
    + replace (setup_index s + 1)
        with (player_count s + (setup_index s + 1 - player_count s))
        in Hnext at 1 by lia.
      rewrite get_setup_order_backward in Hnext by lia.
      injection Hnext as <-. lia.
Qed.

Lemma _apply_setup_road_Some_witness :
  ∃ s', _apply_setup_road setup_sample 47 = Some s'
        ∧ phase s' = ROLL_DICE ∧ current_player s' = 0
        ∧ turn_number s' = 1%Z.
Proof.
  assert (H : ∃ s', _apply_setup_road setup_sample 47 = Some s')
    by (eexists; vm_compute; reflexivity).
  destruct H as [s' H]. exists s'. split; [exact H|].
  destruct (_apply_setup_road_Some _ _ _ H) as (_ & _ & _ & _ & Hc).
  exact Hc.
Defined.

(* ------------------------------------------------------------------ *)
(** ** Buying a development card *)
(* ------------------------------------------------------------------ *)

Lemma list_pop_Some {A} (l : list A) x r :
  list_pop l = Some (x, r) ↔ l = r ++ [x].
Proof.
  unfold list_pop. split.
  - destruct (rev l) as [|y t] eqn:Hr; [done|]. intros [= <- <-].
    rewrite <- (rev_involutive l), Hr. reflexivity.
  - intros ->. by rewrite rev_unit, rev_involutive.
Qed.

(** BUY_DEV_CARD draws the last card of the deck, pays the card cost to the
    bank and adds the card to the cards bought this turn; the playable cards
    are unchanged, so the card cannot be played before the turn ends.  It
    raises on an empty deck. *)
Theorem _apply_buy_dev_card_Some s s' :
  _apply_buy_dev_card s = Some s' →
  ∃ card p p',
    dev_card_deck s = dev_card_deck s' ++ [card]
    ∧ players s !! current_player s = Some p
    ∧ players s' = <[current_player s := p']> (players s)
    ∧ new_dev_cards p' = new_dev_cards p ++ [card]
    ∧ dev_cards p' = dev_cards p
    ∧ resources p' = _subtract (resources p) DEV_CARD_COST
    ∧ bank s' = _add (bank s) DEV_CARD_COST
    ∧ ∀ c, can_play_dev_card s' (current_player s) c
           = can_play_dev_card s (current_player s) c.
Proof.
  unfold _apply_buy_dev_card.
  intros ([card deck] & Hpop%list_pop_Some & H)%bind_Some.
  apply bind_Some in H as (p & Hp & H).
  apply bind_Some in H as (s1 & H1 & H2).
  apply pay_cost_inv in H1 as (p1 & Hp1 & ->).
  apply update_player_Some in H2 as (p2 & Hp2 & ->). simpl in *.
  assert (p1 = p) as -> by congruence.
  pose proof (lookup_lt_Some _ _ _ Hp) as Hlt.
  rewrite list_lookup_insert_eq in Hp2 by done. injection Hp2 as <-.
  eexists card, p, _. split; [done|]. split; [done|].
  split; [by rewrite list_insert_insert_eq|]. simpl.
  repeat (split; [done|]).
  intros c. unfold can_play_dev_card. simpl.
  rewrite list_lookup_insert_eq by (by rewrite length_insert).
  by rewrite Hp.
Qed.

Lemma _apply_buy_dev_card_empty_deck s :
  dev_card_deck s = [] → _apply_buy_dev_card s = None.
Proof. intros H. unfold _apply_buy_dev_card. by rewrite H. Qed.

Lemma _apply_buy_dev_card_Some_witness :
  ∃ s' p',
    _apply_buy_dev_card city_sample = Some s'
    ∧ players s' !! 0 = Some p'
    ∧ new_dev_cards p' = [monopoly] ∧ dev_cards p' = []
    ∧ length (dev_card_deck s') = 24.
Proof.
  assert (H : ∃ s', _apply_buy_dev_card city_sample = Some s')
    by (eexists; vm_compute; reflexivity).
  destruct H as [s' H]. pose proof H as H'.
  apply _apply_buy_dev_card_Some in H'
    as (card & p & p' & Hdeck & Hp & Hps & Hnew & Hdev & _).
  vm_compute in Hp. injection Hp as <-.
  exists s', p'. split; [exact H|]. rewrite Hps. split; [reflexivity|].
  vm_compute in H. injection H as <-. simpl in *.
  split; [|split]; [|exact Hdev|reflexivity].
  rewrite Hnew. vm_compute in Hdeck. by injection Hdeck as <-.
Defined.

(* ------------------------------------------------------------------ *)
(** ** The discard enumeration is not empty *)
(* ------------------------------------------------------------------ *)

Lemma bounded_picks_exist rest : ∀ count,
  Forall (λ held : Z, 0 ≤ held)%Z rest →
  (0 ≤ count ≤ zsum rest)%Z →
  ∃ picks, Forall2 (λ pick held : Z, (0 ≤ pick ≤ held)%Z) picks rest
           ∧ zsum picks = count.
Proof.
  induction rest as [|held rest IH]; intros count Hpos Hc; simpl in Hc.
  - exists []. split; [constructor|simpl; lia].
  - inv Hpos. assert (0 ≤ zsum rest)%Z.
    { clear -H2. induction H2; simpl; lia. }
    destruct (IH (count - Z.min held count)%Z H2) as (picks & Hall & Hsum);
      [lia|].
    exists (Z.min held count :: picks). split; [constructor; [lia|done]|].
    simpl. lia.
Qed.

(** With no negative counter in the hand, there is a way to discard
    [count] cards exactly when [count] is between zero and the size of the
    hand; so a player in the discard queue always has a legal action. *)
Theorem _enumerate_discard_nonempty hand count :
  (∀ r, 0 ≤ hget hand r)%Z →
  _enumerate_discard hand count ≠ []
  ↔ (0 ≤ count ≤ _total_resources hand)%Z.
Proof.
  intros Hpos. unfold _enumerate_discard.
  assert (Htot : _total_resources hand = zsum (map (hget hand) RESOURCES))
    by reflexivity.
  split.
  - intros Hne.
    destruct (_recurse (map (hget hand) RESOURCES) count []) as [|a l] eqn:He;
      [done|].
    assert (Hin : a ∈ _recurse (map (hget hand) RESOURCES) count [])
      by (rewrite He; by left).
    apply _recurse_spec in Hin as (picks & _ & Hall & <-).
    rewrite Htot. by apply zsum_bounds.
  - intros Hc.
    destruct (bounded_picks_exist (map (hget hand) RESOURCES) count)
      as (picks & Hall & Hsum).
    + apply Forall_forall. intros x (r & -> & _)%list_elem_of_fmap.
      apply Hpos.
    + by rewrite <- Htot.
    + intros He.
      assert (Hin : DISCARD_RESOURCES ([] ++ picks)
                    ∈ _recurse (map (hget hand) RESOURCES) count [])
        by (apply _recurse_spec; eauto).
      rewrite He in Hin. by apply not_elem_of_nil in Hin.
Qed.

Lemma _enumerate_discard_nonempty_witness :
  _enumerate_discard (mkHand 3 2 2 1 1) 4 ≠ [].
Proof.
  apply _enumerate_discard_nonempty.
  - intros []; simpl; lia.
  - vm_compute. split; discriminate.
Defined.

(* ------------------------------------------------------------------ *)
(** ** Largest army *)
(* ------------------------------------------------------------------ *)

Lemma army_scan s l : ∀ acc res,
  foldlM (army_scan_step s) acc l = Some res →
  (acc.1 ≠ None → res.1 ≠ None ∧ (acc.2 ≤ res.2)%Z)
  ∧ (∀ i p, i ∈ l → players s !! i = Some p →
       (MIN_LARGEST_ARMY ≤ knights_played p)%Z →
       res.1 ≠ None ∧ (knights_played p ≤ res.2)%Z)
  ∧ (res = acc
     ∨ ∃ q p, q ∈ l ∧ players s !! q = Some p
              ∧ res = (Some q, knights_played p)
              ∧ (MIN_LARGEST_ARMY ≤ knights_played p)%Z
              ∧ (acc.1 ≠ None → (acc.2 < knights_played p)%Z)).
Proof.
  induction l as [|i l IH]; simpl; intros acc res H.
  - injection H as <-. split; [done|]. split; [|by left].
    by intros ? ? ?%not_elem_of_nil.
  - apply bind_Some in H as (acc1 & Hstep & H).
    destruct (IH _ _ H) as (Hmono & Hall & Hres). clear IH H.
    destruct acc as [lp ls]. unfold army_scan_step in Hstep.
    apply bind_Some in Hstep as (p & Hp & Hstep). simpl in *.
    destruct (Z.leb_spec MIN_LARGEST_ARMY (knights_played p)) as [Hq|Hq].
    + destruct lp as [h|].
      * destruct (Z.ltb_spec ls (knights_played p)) as [Hlt|Hge];
          injection Hstep as <-; simpl in *.
        -- destruct Hmono as [Hn Hle]; [done|]. split; [split; [done|lia]|].
           split.
           ++ intros j pj [->|Hj]%elem_of_cons Hpj Hk; [|eauto].
              assert (pj = p) as -> by congruence. done.
           ++ right. destruct Hres as [->|(q & pq & Hin & Hpq & -> & Hk & Hgt)].
              ** exists i, p. repeat split; try done. by left.
              ** exists q, pq. repeat split; try done; [by right|].
                 intros _. specialize (Hgt ltac:(done)). lia.
        -- destruct Hmono as [Hn Hle]; [done|]. split; [done|]. split.
           ++ intros j pj [->|Hj]%elem_of_cons Hpj Hk; [|eauto].
              assert (pj = p) as -> by congruence. split; [done|lia].
           ++ destruct Hres as [->|(q & pq & Hin & Hpq & -> & Hk & Hgt)];
                [by left|].
              right. exists q, pq. repeat split; try done. by right.
      * injection Hstep as <-. simpl in *.
        destruct Hmono as [Hn Hle]; [done|]. split; [done|]. split.
        -- intros j pj [->|Hj]%elem_of_cons Hpj Hk; [|eauto].
           assert (pj = p) as -> by congruence. done.
        -- right. destruct Hres as [->|(q & pq & Hin & Hpq & -> & Hk & Hgt)].
           ++ exists i, p. repeat split; try done. by left.
           ++ exists q, pq. repeat split; try done. by right.
    + injection Hstep as <-. simpl in *. split; [done|]. split.
      * intros j pj [->|Hj]%elem_of_cons Hpj Hk; [|eauto].
        assert (pj = p) as -> by congruence. lia.
      * destruct Hres as [->|(q & pq & Hin & Hpq & -> & Hk & Hgt)];
          [by left|].
        right. exists q, pq. repeat split; try done. by right.
Qed.

(** [update_largest_army] changes nothing but the award.  Afterwards every
    player with at least three knights has at most the recorded size, and
    there is a holder as soon as there is such a player.  The award stays
    as it was or goes to a player whose number of knights is at least three,
    becomes the recorded size and, when there was a holder, is strictly
    greater than the size recorded before: a tie does not move the award. *)
Theorem update_largest_army_policy s s' :
  update_largest_army s = Some s' →
  s' = set_largest_army s (largest_army_player s') (largest_army_size s')
  ∧ (∀ i p, i < player_count s → players s !! i = Some p →
       (MIN_LARGEST_ARMY ≤ knights_played p)%Z →
       largest_army_player s' ≠ None
       ∧ (knights_played p ≤ largest_army_size s')%Z)
  ∧ ((largest_army_player s' = largest_army_player s
      ∧ largest_army_size s' = largest_army_size s)
     ∨ ∃ q p, q < player_count s ∧ players s !! q = Some p
              ∧ largest_army_player s' = Some q
              ∧ largest_army_size s' = knights_played p
              ∧ (MIN_LARGEST_ARMY ≤ knights_played p)%Z
              ∧ (largest_army_player s ≠ None →
                 (largest_army_size s < knights_played p)%Z)).
Proof.
  unfold update_largest_army. intros ([lp ls] & H & [= <-])%bind_Some.
  simpl. split; [done|].
  destruct (army_scan _ _ _ _ H) as (_ & Hall & Hres). simpl in *.
  split.
  - intros i p Hi. apply Hall. by apply elem_of_range.
  - destruct Hres as [[= -> ->]|(q & p & Hin%elem_of_range & Hp & [= -> ->]
                                 & Hk & Hgt)]; [by left|].
    right. exists q, p. done.
Qed.

Lemma update_largest_army_policy_witness :
  ∃ s', update_largest_army army_sample = Some s'
        ∧ largest_army_player s' = Some 0 ∧ largest_army_size s' = 4%Z.
Proof.
  assert (H : ∃ s', update_largest_army army_sample = Some s')
    by (eexists; vm_compute; reflexivity).
  destruct H as [s' H]. exists s'. split; [exact H|].
  destruct (update_largest_army_policy _ _ H) as (-> & _ & _).
  vm_compute in H. injection H as <-. split; reflexivity.
Defined.

(* ------------------------------------------------------------------ *)
(** ** Moving the robber *)
(* ------------------------------------------------------------------ *)

(** After the robber is moved the phase is STEAL exactly when some
    opponent with a building on the new hex holds a card, and then the
    legal actions are the steals from these opponents: the steal without a
    victim is not offered. *)
Theorem _apply_move_robber_then_steal s hex_id s' :
  _apply_move_robber s hex_id = Some s' →
  robber_hex s' = hex_id
  ∧ ∃ targets,
      get_steal_targets s' hex_id (current_player s') = Some targets
      ∧ if targets is [] then phase s' = TRADE_BUILD_PLAY
        else phase s' = STEAL
             ∧ get_legal_actions s'
               = Some (map (λ t, STEAL_RESOURCE (Some t)) targets).
Proof.
  unfold _apply_move_robber. intros (targets & Ht & [= <-])%bind_Some.
  split; [done|]. exists targets. split; [exact Ht|].
  destruct targets as [|t ts]; [done|]. split; [done|].
  unfold get_legal_actions. cbn [phase set_phase].
  change (robber_hex (set_phase (set_robber_hex s hex_id) STEAL)) with hex_id.
  change (get_steal_targets (set_phase (set_robber_hex s hex_id) STEAL))
    with (get_steal_targets (set_robber_hex s hex_id)).
  cbn [current_player set_phase set_robber_hex] in *. by rewrite Ht.
Qed.

Lemma _apply_move_robber_then_steal_witness :
  ∃ s', _apply_move_robber robber_sample 13 = Some s'
        ∧ phase s' = STEAL
        ∧ get_legal_actions s' = Some [STEAL_RESOURCE (Some 1)].
Proof.
  assert (H : ∃ s', _apply_move_robber robber_sample 13 = Some s')
    by (eexists; vm_compute; reflexivity).
  destruct H as [s' H]. exists s'. split; [exact H|].
  destruct (_apply_move_robber_then_steal _ _ _ H)
    as (_ & targets & Ht & Hc).
  assert (Ht' : get_steal_targets s' 13 (current_player s') = Some [1])
    by (vm_compute in H; injection H as <-; vm_compute; reflexivity).
  rewrite Ht' in Ht. injection Ht as <-. exact Hc.
Defined.

(* ------------------------------------------------------------------ *)
(** ** The road-building card *)
(* ------------------------------------------------------------------ *)

Lemma _apply_place_road_building_road_left s edge s' :
  _apply_place_road_building_road s edge = Some s' →
  let left := (road_building_roads_left s - 1)%Z in
  if (left <=? 0)%Z
  then phase s' = TRADE_BUILD_PLAY ∧ road_building_roads_left s' = left
  else (phase s' = TRADE_BUILD_PLAY ∧ road_building_roads_left s' = 0%Z)
       ∨ (phase s' = phase s ∧ road_building_roads_left s' = left).
Proof.
  unfold _apply_place_road_building_road, _apply_build_road.
  intros (t & Ht & H)%bind_Some.
  apply bind_Some in Ht as (er & _ & Ht).
  apply bind_Some in Ht as (t' & Ht' & [= <-]).
  apply update_player_Some in Ht' as (p & _ & ->).
  apply bind_Some in H as (u & Hu & H).
  apply update_longest_road_Some in H. rewrite H.
  cbn [phase road_building_roads_left set_longest_road set_players
         set_edge_roads set_road_building_roads_left] in *.
  cbv zeta. destruct (road_building_roads_left s - 1 <=? 0)%Z.
  - by injection Hu as <-.
  - apply bind_Some in Hu as (valid & _ & Hu).
    destruct valid; injection Hu as <-; simpl; auto.
Qed.

(** PLAY_ROAD_BUILDING removes the card and sets the played flag.  With no
    road piece left the phase does not change and nothing is to be placed;
    otherwise the phase is ROAD_BUILDING_PLACE with [min(2, remaining)]
    roads to place, and two placements always lead back to
    TRADE_BUILD_PLAY. *)
Theorem road_building_at_most_two s p s0 :
  players s !! current_player s = Some p →
  _apply_play_road_building s = Some s0 →
  (∃ p', players s0 = <[current_player s := p']> (players s)
         ∧ dev_cards p' = _remove_dev_card (dev_cards p) road_building
         ∧ has_played_dev_card_this_turn p' = true
         ∧ new_dev_cards p' = new_dev_cards p
         ∧ knights_played p' = knights_played p
         ∧ resources p' = resources p
         ∧ remaining_roads p' = remaining_roads p)
  ∧ if (remaining_roads p =? 0)%Z then
      phase s0 = phase s
      ∧ road_building_roads_left s0 = road_building_roads_left s
    else
      phase s0 = ROAD_BUILDING_PLACE
      ∧ road_building_roads_left s0 = Z.min 2 (remaining_roads p)
      ∧ ∀ e1 s1 e2 s2,
          _apply_place_road_building_road s0 e1 = Some s1 →
          _apply_place_road_building_road s1 e2 = Some s2 →
          phase s2 = TRADE_BUILD_PLAY.
Proof.
  intros Hp H0. unfold _apply_play_road_building in H0. rewrite Hp in H0.
  simpl in H0. apply bind_Some in H0 as (s' & Hs' & H0).
  apply update_player_Some in Hs' as (p' & Hp' & ->).
  assert (p' = p) as -> by congruence.
  destruct (Z.eqb_spec (remaining_roads p) 0) as [Hz|Hz].
  - rewrite Hz in H0. simpl in H0. injection H0 as <-. split; [|done].
    eexists. split; [reflexivity|]. simpl. repeat split; lia.
  - destruct (Z.eqb_spec (Z.min 2 (remaining_roads p)) 0); [lia|].
    injection H0 as <-. simpl. split.
    { eexists. split; [reflexivity|]. simpl. repeat split; lia. }
    split; [done|].
    split; [done|]. intros e1 s1 e2 s2 H1 H2.
    apply _apply_place_road_building_road_left in H1, H2.
    cbv zeta in H1, H2. simpl in H1.
    destruct (Z.leb_spec (road_building_roads_left s1 - 1) 0) as [Hl|Hl];
      [tauto|].
    exfalso.
    destruct (Z.leb_spec (Z.min 2 (remaining_roads p) - 1) 0);
      [|destruct H1 as [H1|H1]]; lia.
Qed.

Lemma road_building_at_most_two_witness :
  ∃ s0 s1,
    _apply_play_road_building road_building_sample = Some s0
    ∧ phase s0 = ROAD_BUILDING_PLACE
    ∧ road_building_roads_left s0 = 1%Z
    ∧ _apply_place_road_building_road s0 5 = Some s1
    ∧ phase s1 = TRADE_BUILD_PLAY.
Proof.
  assert (H : ∃ s0 s1,
            _apply_play_road_building road_building_sample = Some s0
            ∧ _apply_place_road_building_road s0 5 = Some s1
            ∧ phase s1 = TRADE_BUILD_PLAY).
  { do 2 eexists. split; [vm_compute; reflexivity|].
    split; [vm_compute; reflexivity|reflexivity]. }
  destruct H as (s0 & s1 & H0 & H1 & Hph). exists s0, s1.
  destruct (road_building_at_most_two road_building_sample
              (set_dev_cards (set_remaining (new_player 0) 3 4 1)
                             [road_building] []) s0 eq_refl H0)
    as (_ & Hc).
  simpl in Hc. destruct Hc as (Hph0 & Hleft & _).
  split; [exact H0|]. split; [exact Hph0|]. split; [exact Hleft|].
  split; [exact H1|exact Hph].
Defined.

(* ------------------------------------------------------------------ *)
(** ** reset *)
(* ------------------------------------------------------------------ *)

Lemma find_index_Some {A} (f : A → bool) l i :
  find_index f l = Some i →
  ∃ x, l !! i = Some x ∧ f x = true
       ∧ ∀ j y, j < i → l !! j = Some y → f y = false.
Proof.
  revert i. induction l as [|x l IH]; simpl; intros i H; [done|].
  destruct (f x) eqn:Hfx.
  - injection H as <-. exists x. split; [done|]. split; [done|]. lia.
  - destruct (find_index f l) as [k|] eqn:Hk; [|done]. injection H as <-.
    destruct (IH _ eq_refl) as (y & Hy & Hfy & Hfirst).
    exists y. split; [done|]. split; [done|].
    intros [|j] z Hj Hz; simplify_eq/=; [done|]. eapply Hfirst; [|done]. lia.
Qed.

Lemma find_index_total {A} (f : A → bool) l x :
  x ∈ l → f x = true → is_Some (find_index f l).
Proof.
  induction l as [|y l IH]; simpl; intros Hin Hx; [by inv Hin|].
  destruct (f y) eqn:Hfy; [by eexists|].
  apply elem_of_cons in Hin as [->|Hin]; [congruence|].
  destruct (IH Hin Hx) as [k ->]. by eexists.
Qed.

Lemma lay_numbers_total terrains numbers : ∀ i,
  i + length (filter (λ t, t ≠ desert) terrains) ≤ length numbers →
  is_Some (lay_numbers terrains numbers i).
Proof.
  induction terrains as [|t terrains IH]; simpl; intros i Hi; [by eexists|].
  destruct (decide (t = desert)) as [->|Hne].
  - rewrite bool_decide_eq_true_2 by done.
    rewrite filter_cons_False in Hi by (intros H; by apply H).
    destruct (IH i Hi) as [r ->]. by eexists.
  - rewrite bool_decide_eq_false_2 by done.
    rewrite filter_cons_True in Hi by done. simpl in Hi.
    destruct (lookup_lt_is_Some_2 numbers i) as [n ->]; [lia|]. simpl.
    destruct (IH (S i)) as [r ->]; [lia|]. by eexists.
Qed.

Lemma lay_numbers_Some terrains numbers : ∀ i r,
  lay_numbers terrains numbers i = Some r →
  length r = length terrains
  ∧ ∀ h t, terrains !! h = Some t →
      if decide (t = desert) then r !! h = Some None
      else ∃ n, r !! h = Some (Some n) ∧ n ∈ numbers.
Proof.
  induction terrains as [|t terrains IH]; simpl; intros i r H.
  - injection H as <-. split; [done|]. by intros h t ?.
  - destruct (decide (t = desert)) as [->|Hne].
    + rewrite bool_decide_eq_true_2 in H by done.
      apply bind_Some in H as (r' & Hr' & [= <-]).
      destruct (IH _ _ Hr') as [Hlen Hall]. split; [simpl; lia|].
      intros [|h] t Ht; simplify_eq/=; [done|by apply Hall].
    + rewrite bool_decide_eq_false_2 in H by done.
      apply bind_Some in H as (n & Hn & H).
      apply bind_Some in H as (r' & Hr' & [= <-]).
      destruct (IH _ _ Hr') as [Hlen Hall]. split; [simpl; lia|].
      intros [|h] t' Ht; simplify_eq/=; [|by apply Hall].
      rewrite decide_False by done. exists n. split; [done|].
      by eapply list_elem_of_lookup_2.
Qed.

Lemma held_new_players l r : held (map new_player l) r = 0%Z.
Proof.
  induction l as [|i l IH]; [done|].
  change (map new_player (i :: l)) with (new_player i :: map new_player l).
  rewrite held_cons, IH. by destruct r.
Qed.

(** [reset] succeeds when the shuffled terrains contain a desert and there
    are at least as many number tokens as other hexes, as is the case for a
    shuffle of the standard lists.  The new game is in the first setup
    phase with player 0 to act; the board is empty; the robber stands on
    the first desert, which has no token, and every other hex has a token
    of the list; every hand is empty and the bank holds 19 cards of each
    resource. *)
Theorem reset_Some player_count terrains numbers deck harbors :
  desert ∈ terrains →
  length (filter (λ t, t ≠ desert) terrains) ≤ length numbers →
  ∃ s topo,
    reset player_count terrains numbers deck harbors = Some s
    ∧ phase s = SETUP_PLACE_SETTLEMENT ∧ current_player s = 0
    ∧ setup_round s = 0 ∧ setup_index s = 0
    ∧ topology s = Some topo
    ∧ vertex_count topo = 54 ∧ edge_count topo = 72
    ∧ vertex_buildings s = replicate 54 None
    ∧ edge_roads s = replicate 72 None
    ∧ length (players s) = player_count
    ∧ hex_terrains s = terrains
    ∧ length (hex_numbers s) = length terrains
    ∧ hex_terrains s !! robber_hex s = Some desert
    ∧ hex_numbers s !! robber_hex s = Some None
    ∧ (∀ h t, terrains !! h = Some t → t ≠ desert →
         ∃ n, hex_numbers s !! h = Some (Some n) ∧ n ∈ numbers)
    ∧ (∀ h, h < robber_hex s → terrains !! h ≠ Some desert)
    ∧ ∀ r, held (players s) r = 0%Z ∧ hget (bank s) r = 19%Z.
Proof.
  intros Hdesert Hnum. unfold reset. rewrite build_standard_topology. simpl.
  destruct (find_index_total (λ t, bool_decide (t = desert)) terrains desert)
    as [idx Hidx]; [done|by apply bool_decide_eq_true_2|].
  rewrite Hidx. simpl.
  destruct (lay_numbers_total terrains numbers 0) as [hn Hhn]; [lia|].
  rewrite Hhn. simpl.
  destruct (lay_numbers_Some _ _ _ _ Hhn) as [Hlen Hall].
  destruct (find_index_Some _ _ _ Hidx) as (t & Ht & Hft & Hfirst).
  apply bool_decide_eq_true in Hft. subst t.
  exists (mkState SETUP_PLACE_SETTLEMENT 0 player_count 0
            (Some standard_topology) terrains hn (replicate 54 None)
            (replicate 72 None) harbors idx
            (map new_player (range player_count)) deck
            (mkHand 19 19 19 19 19) None 0 None 0 None 0 0 [] 0 None None),
    standard_topology.
  split; [reflexivity|]. simpl.
  do 9 (split; [reflexivity|]).
  split; [unfold range; by rewrite length_map, length_seq|].
  split; [done|]. split; [done|]. split; [done|]. split.
  { specialize (Hall _ _ Ht). by rewrite decide_True in Hall. }
  split.
  { intros h t Hh Hne. specialize (Hall _ _ Hh).
    by rewrite decide_False in Hall. }
  split.
  { intros h Hh Hd. specialize (Hfirst _ _ Hh Hd).
    by rewrite bool_decide_eq_true_2 in Hfirst. }
  intros r. split; [apply held_new_players|by destruct r].
Qed.

Lemma reset_Some_witness :
  ∃ s, reset 4 TERRAIN_DISTRIBUTION NUMBER_TOKEN_DISTRIBUTION
             DEV_CARD_DISTRIBUTION [] = Some s
       ∧ robber_hex s = 18 ∧ hex_numbers s !! 18 = Some None
       ∧ length (players s) = 4.
Proof.
  destruct (reset_Some 4 TERRAIN_DISTRIBUTION NUMBER_TOKEN_DISTRIBUTION
              DEV_CARD_DISTRIBUTION [])
    as (s & topo & Hs & _ & _ & _ & _ & _ & _ & _ & _ & _ & Hpl & _ & _ & _
        & Hrob & _).
  - unfold TERRAIN_DISTRIBUTION. do 18 right. by left.
  - vm_compute. lia.
  - exists s. split; [exact Hs|].
    assert (Hr : robber_hex s = 18)
      by (vm_compute in Hs; injection Hs as <-; reflexivity).
    rewrite Hr in Hrob. split; [exact Hr|]. split; [exact Hrob|exact Hpl].
Defined.

(* ------------------------------------------------------------------ *)
(** ** The payout of one hex *)
(* ------------------------------------------------------------------ *)

Lemma hadd_zero h r : hadd h r 0 = h.
Proof. unfold hadd. by rewrite Z.add_0_r, hset_same. Qed.

Lemma hadd_hadd h r a b : hadd (hadd h r a) r b = hadd h r (a + b).
Proof. destruct h, r; unfold hadd; simpl; f_equal; lia. Qed.

Lemma demand_add_get pd owner amount pid :
  demand_get (demand_add pd owner amount) pid
  = (demand_get pd pid + if (owner =? pid)%nat then amount else 0)%Z.
Proof.
  induction pd as [|[k v] pd IH]; simpl.
  - destruct (owner =? pid)%nat; lia.
  - destruct (Nat.eqb_spec k owner) as [->|Hne]; simpl.
    + destruct (owner =? pid)%nat; lia.
    + destruct (Nat.eqb_spec k pid) as [->|Hkp]; [|exact IH].
      destruct (Nat.eqb_spec owner pid); [congruence|lia].
Qed.

Lemma demand_add_keys pd owner amount k :
  k ∈ (demand_add pd owner amount).*1 ↔ k = owner ∨ k ∈ pd.*1.
Proof.
  induction pd as [|[k' v] pd IH]; simpl.
  - rewrite list_elem_of_singleton. split; [auto|].
    by intros [?|?%not_elem_of_nil].
  - destruct (Nat.eqb_spec k' owner) as [->|Hne]; simpl.
    + rewrite elem_of_cons. tauto.
    + rewrite !elem_of_cons, IH. tauto.
Qed.

Lemma demand_add_NoDup pd owner amount :
  NoDup pd.*1 → NoDup (demand_add pd owner amount).*1.
Proof.
  induction pd as [|[k v] pd IH]; simpl; intros Hnd.
  - apply NoDup_singleton.
  - apply NoDup_cons in Hnd as [Hk Hnd].
    destruct (Nat.eqb_spec k owner) as [->|Hne]; simpl.
    + by apply NoDup_cons.
    + apply NoDup_cons. split; [|auto].
      rewrite demand_add_keys. intros [?|?]; [congruence|done].
Qed.

Lemma zsum_snd_cons (k : nat) (v : Z) pd :
  zsum ((k, v) :: pd).*2 = (v + zsum pd.*2)%Z.
Proof. reflexivity. Qed.

Lemma demand_add_sum pd owner amount :
  zsum (demand_add pd owner amount).*2 = (zsum pd.*2 + amount)%Z.
Proof.
  induction pd as [|[k v] pd IH]; [simpl; lia|]. cbn [demand_add].
  destruct (k =? owner)%nat; rewrite !zsum_snd_cons; [lia|].
  rewrite IH. lia.
Qed.

Lemma demand_get_absent pd pid : pid ∉ pd.*1 → demand_get pd pid = 0%Z.
Proof.
  induction pd as [|[k v] pd IH]; simpl; intros Hn; [done|].
  destruct (Nat.eqb_spec k pid) as [->|Hne].
  - exfalso. apply Hn. by left.
  - apply IH. intros ?. apply Hn. by right.
Qed.

(** The dictionary built by the loop over the corners of a hex holds, for
    every player, what that player's buildings around the hex claim. *)
Lemma demand_loop s vids : ∀ total pd total' pd',
  foldlM (demand_step s) (total, pd) vids = Some (total', pd') →
  total' = (total + hex_total_demand (vertex_buildings s) vids)%Z
  ∧ zsum pd'.*2
    = (zsum pd.*2 + hex_total_demand (vertex_buildings s) vids)%Z
  ∧ (NoDup pd.*1 → NoDup pd'.*1)
  ∧ ∀ pid, demand_get pd' pid
           = (demand_get pd pid + hex_claim (vertex_buildings s) vids pid)%Z.
Proof.
  induction vids as [|vid vids IH]; simpl; intros total pd total' pd' H.
  - injection H as <- <-. unfold hex_total_demand, hex_claim. simpl.
    repeat split; try done; intros; lia.
  - apply bind_Some in H as ([t1 pd1] & Hstep & H).
    destruct (IH _ _ _ _ H) as (-> & Hsum & Hnd & Hget). clear IH H.
    unfold demand_step in Hstep.
    apply bind_Some in Hstep as (b & Hb & Hstep).
    unfold hex_total_demand, hex_claim, claim_at in *. simpl. rewrite Hb.
    destruct b as [[kind owner]|]; injection Hstep as <- <-.
    + split; [unfold building_units; lia|]. split.
      { rewrite Hsum, demand_add_sum. unfold building_units. lia. }
      split; [intros ?; by apply Hnd, demand_add_NoDup|].
      intros pid. rewrite Hget, demand_add_get. unfold building_units.
      destruct (owner =? pid)%nat; lia.
    + split; [lia|]. split; [lia|]. split; [done|].
      intros pid. rewrite Hget. lia.
Qed.

(** The payout loop gives every player listed in the dictionary the amount
    listed and takes the sum from the bank. *)
Lemma payout_loop res pd : ∀ s s',
  foldlM (payout_step res) s pd = Some s' →
  NoDup pd.*1 →
  s' = set_bank (set_players s (players s'))
                (hadd (bank s) res (- zsum pd.*2))
  ∧ length (players s') = length (players s)
  ∧ ∀ pid p, players s !! pid = Some p →
      players s' !! pid
      = Some (set_resources p (hadd (resources p) res (demand_get pd pid))).
Proof.
  induction pd as [|[k v] pd IH]; simpl; intros s s' H Hnd.
  - injection H as <-. rewrite hadd_zero. split; [by destruct s|].
    split; [done|]. intros pid p Hp.
    by rewrite hadd_zero, set_resources_same.
  - apply NoDup_cons in Hnd as [Hk Hnd].
    apply bind_Some in H as (s1 & Hstep & H).
    destruct (IH _ _ H Hnd) as (Hs' & Hlen & Hall). clear IH H.
    unfold payout_step in Hstep.
    apply bind_Some in Hstep as (s0 & H0 & [= <-]).
    apply add_player_resource_Some in H0 as (pk & Hpk & ->).
    simpl in *. split.
    { rewrite Hs'. unfold add_bank. simpl. rewrite hadd_hadd.
      do 2 f_equal. change (list_fmap (nat * Z)%type Z snd pd) with pd.*2.
      lia. }
    split; [by rewrite Hlen, length_insert|].
    intros pid p Hp. destruct (Nat.eqb_spec k pid) as [->|Hne].
    + assert (p = pk) as -> by congruence.
      rewrite (Hall pid _ (list_lookup_insert_eq _ _ _
                             (lookup_lt_Some _ _ _ Hpk))).
      simpl. by rewrite demand_get_absent, hadd_zero.
    + apply Hall. by rewrite list_lookup_insert_ne.
Qed.

(** The distribution for one hex.  A hex whose token is not the total
    rolled, the hex under the robber and a desert give nothing.  For any
    other hex every settlement around it claims one card and every city two
    cards of its resource: when the bank holds less than these claims
    together, nobody receives anything from this hex; otherwise every player
    receives all the cards claimed and the bank gives them.  The bank is
    looked at as it stands when this hex is processed. *)
Theorem distribute_hex_payout topo dice s hid s' number terrain vids :
  distribute_hex topo dice s hid = Some s' →
  hex_numbers s !! hid = Some number →
  hex_terrains s !! hid = Some terrain →
  hex_vertices topo !! hid = Some vids →
  let demand := hex_total_demand (vertex_buildings s) vids in
  match TERRAIN_TO_RESOURCE terrain with
  | Some res =>
      if bool_decide (number = Some dice ∧ hid ≠ robber_hex s)
         && (demand <=? hget (bank s) res)%Z
      then
        s' = set_bank (set_players s (players s'))
                      (hadd (bank s) res (- demand))
        ∧ length (players s') = length (players s)
        ∧ ∀ pid p, players s !! pid = Some p →
            players s' !! pid
            = Some (set_resources p
                      (hadd (resources p) res
                            (hex_claim (vertex_buildings s) vids pid)))
      else s' = s
  | None => s' = s
  end.
Proof.
  intros H Hnum Hter Hvids demand. unfold distribute_hex in H.
  rewrite Hnum in H. simpl in H.
  destruct (decide (number = Some dice)) as [->|Hne]; cycle 1.
  { rewrite bool_decide_eq_false_2 in H by done. injection H as <-.
    destruct (TERRAIN_TO_RESOURCE terrain); [|done].
    rewrite bool_decide_eq_false_2; [done|tauto]. }
  rewrite bool_decide_eq_true_2 in H by done. simpl in H.
  destruct (Nat.eqb_spec hid (robber_hex s)) as [Hr|Hr].
  { injection H as <-. destruct (TERRAIN_TO_RESOURCE terrain); [|done].
    rewrite bool_decide_eq_false_2; [done|tauto]. }
  rewrite Hter in H. simpl in H.
  destruct (TERRAIN_TO_RESOURCE terrain) as [res|]; [|by injection H as <-].
  rewrite Hvids in H. simpl in H.
  apply bind_Some in H as ([total pd] & Hd & H).
  destruct (demand_loop _ _ _ _ _ _ Hd) as (Ht & Hsum & Hnd & Hget).
  simpl in Ht, Hsum. rewrite bool_decide_eq_true_2 by done. simpl.
  fold demand in Ht, Hsum. subst total. rewrite Z.add_0_l in *.
  destruct (Z.ltb_spec (hget (bank s) res) demand) as [Hlt|Hge].
  - injection H as <-. by destruct (Z.leb_spec demand (hget (bank s) res));
      [lia|].
  - destruct (Z.leb_spec demand (hget (bank s) res)); [|lia].
    destruct (payout_loop _ _ _ _ H) as (Hs' & Hlen & Hall).
    { apply Hnd. constructor. }
    rewrite Hsum in Hs'. split; [exact Hs'|]. split; [done|].
    intros pid p Hp. rewrite (Hall _ _ Hp), Hget. simpl.
    by rewrite Z.add_0_l.
Qed.

Lemma distribute_hex_payout_witness :
  ∃ s1 s2,
    distribute_hex standard_topology 3 shortage_sample 1 = Some s1
    ∧ (resources <$> players s1)
      = [mkHand 7 0 0 0 0; mkHand 6 0 0 0 0; mkHand 5 0 0 0 0]
    ∧ bank s1 = mkHand 1 19 19 19 19
    ∧ distribute_hex standard_topology 3 s1 2 = Some s2
    ∧ s2 = s1.
Proof.
  assert (H : ∃ s1 s2,
            distribute_hex standard_topology 3 shortage_sample 1 = Some s1
            ∧ distribute_hex standard_topology 3 s1 2 = Some s2
            ∧ (resources <$> players s1)
              = [mkHand 7 0 0 0 0; mkHand 6 0 0 0 0; mkHand 5 0 0 0 0]
            ∧ bank s1 = mkHand 1 19 19 19 19).
  { do 2 eexists. split; [vm_compute; reflexivity|].
    split; [vm_compute; reflexivity|]. split; reflexivity. }
  destruct H as (s1 & s2 & H1 & H2 & Hh & Hb). exists s1, s2.
  split; [exact H1|]. split; [exact Hh|]. split; [exact Hb|].
  split; [exact H2|].
  assert (Hnum : hex_numbers s1 !! 2 = Some (Some 3)
                 ∧ hex_terrains s1 !! 2 = Some forest
                 ∧ hex_total_demand (vertex_buildings s1)
                     [10; 11; 12; 7; 6; 13] = 2%Z
                 ∧ robber_hex s1 = 18).
  { vm_compute in H1. injection H1 as <-. repeat split. }
  destruct Hnum as (Hn & Ht & Hd & Hr).
  pose proof (distribute_hex_payout standard_topology 3 s1 2 s2 (Some 3)
                forest [10; 11; 12; 7; 6; 13] H2 Hn Ht eq_refl) as Hp.
  cbv zeta in Hp. rewrite Hd, Hb, Hr in Hp. exact Hp.
Defined.

(** The shortage check is made hex by hex: on a roll of 3 in
    [shortage_sample] the two forests with that token claim five lumber
    together and the bank holds four, yet the players on the first forest
    are paid in full and only the player on the second receives nothing. *)
Lemma distribution_is_per_hex :
  ∃ s', _distribute_resources shortage_sample 3 = Some s'
        ∧ Z.lt (hget (bank shortage_sample) lumber)
               (Z.add
                  (hex_total_demand (vertex_buildings shortage_sample)
                     [6; 7; 8; 1; 0; 9])
                  (hex_total_demand (vertex_buildings shortage_sample)
                     [10; 11; 12; 7; 6; 13]))
        ∧ (resources <$> players s')
          = [mkHand 7 0 0 0 0; mkHand 6 0 0 0 0; mkHand 5 0 0 0 0]
        ∧ bank s' = mkHand 1 19 19 19 19.
Proof.
  eexists. split; [vm_compute; reflexivity|].
  split; [vm_compute; reflexivity|]. split; reflexivity.
Qed.

(* ------------------------------------------------------------------ *)
(** ** Longest road *)
(* ------------------------------------------------------------------ *)




(** The award is not read when road lengths are computed. *)
Lemma calculate_longest_road_set_longest_road s p l q :
  calculate_longest_road (set_longest_road s p l) q
  = calculate_longest_road s q.
Proof. done. Qed.



(* ------------------------------------------------------------------ *)
(** ** The search of [calculate_longest_road] *)
(* ------------------------------------------------------------------ *)

Lemma mem_nat_spec x l : mem_nat x l = true ↔ x ∈ l.
Proof.
  unfold mem_nat. rewrite existsb_exists, list_elem_of_In. split.
  - by intros (y & Hy & ->%Nat.eqb_eq).
  - intros Hx. exists x. split; [done|apply Nat.eqb_refl].
Qed.

Lemma elem_of_set_add x y l : x ∈ set_add y l ↔ x = y ∨ x ∈ l.
Proof.
  unfold set_add. destruct (mem_nat y l) eqn:Hm.
  - apply mem_nat_spec in Hm. split; [by right|]. by intros [->|?].
  - rewrite elem_of_app, list_elem_of_singleton. tauto.
Qed.

Lemma _lr_dfs_S fuel topo buildings player player_edges vertex visited :
  _lr_dfs (S fuel) topo buildings player player_edges vertex visited
  = adj ← vertex_adjacent_edges topo !! vertex;
    foldlM (lr_dfs_visit (_lr_dfs fuel topo buildings player player_edges)
              topo buildings player player_edges vertex visited) 0 adj.
Proof. reflexivity. Qed.

Lemma foldlM_mono {A B} (f g : B → A → option B) l :
  (∀ b x b', f b x = Some b' → g b x = Some b') →
  ∀ b b', foldlM f b l = Some b' → foldlM g b l = Some b'.
Proof.
  intros Hfg. induction l as [|x l IH]; simpl; intros b b' H; [done|].
  apply bind_Some in H as (b1 & H1 & H2).
  rewrite (Hfg _ _ _ H1). simpl. by apply IH.
Qed.

(** A result found with some fuel is found with any larger fuel: the
    result does not depend on the fuel. *)
Lemma _lr_dfs_fuel_mono topo buildings player player_edges fuel :
  ∀ vertex visited n,
  _lr_dfs fuel topo buildings player player_edges vertex visited = Some n →
  _lr_dfs (S fuel) topo buildings player player_edges vertex visited
  = Some n.
Proof.
  induction fuel as [|fuel IH]; intros vertex visited n H; [done|].
  rewrite _lr_dfs_S in H |- *.
  apply bind_Some in H as (adj & Hadj & H). rewrite Hadj. cbn -[_lr_dfs].
  revert H. apply foldlM_mono. intros b x b'. unfold lr_dfs_visit.
  destruct (negb _); [done|]. destruct (mem_nat x visited); [done|].
  intros ([v1 v2] & Hends & H)%bind_Some. rewrite Hends. cbn -[_lr_dfs].
  apply bind_Some in H as (bldg & Hb & H). rewrite Hb. cbn -[_lr_dfs].
  destruct (blocks bldg player); [done|].
  apply bind_Some in H as (path & Hpath & H).
  by rewrite (IH _ _ _ Hpath).
Qed.

Lemma unvisited_edge (player_edges visited : list nat) eid :
  NoDup visited → (∀ e, e ∈ visited → e ∈ player_edges) →
  eid ∈ player_edges → eid ∉ visited →
  length visited < length player_edges.
Proof.
  intros Hnd Hsub Hin Hnot.
  assert (eid :: visited ⊆+ player_edges) as Hle%submseteq_length; [|done].
  apply NoDup_submseteq; [by constructor|].
  intros e [->|?]%elem_of_cons; auto.
Qed.

Section search.
Variables (topo : BoardTopology) (buildings : list (option Building))
          (player : nat) (player_edges : list nat).

(** Every path counts an edge of [player_edges] at most once. *)
Lemma _lr_dfs_bound fuel : ∀ vertex visited n,
  NoDup visited → (∀ e, e ∈ visited → e ∈ player_edges) →
  _lr_dfs fuel topo buildings player player_edges vertex visited
  = Some n →
  n ≤ length player_edges - length visited.
Proof.
  induction fuel as [|fuel IH]; intros vertex visited n Hnd Hsub H;
    [done|].
  rewrite _lr_dfs_S in H. apply bind_Some in H as (adj & _ & H).
  refine (foldlM_inv (λ m, m ≤ length player_edges - length visited)
            _ _ _ 0 n _ H); [|lia].
  clear H. intros b eid b' Hb. unfold lr_dfs_visit.
  destruct (mem_nat eid player_edges) eqn:Hin; simpl;
    [|by intros [= <-]].
  destruct (mem_nat eid visited) eqn:Hvis; [by intros [= <-]|].
  apply mem_nat_spec in Hin.
  assert (eid ∉ visited) as Hnot.
  { intros Hv%mem_nat_spec. congruence. }
  pose proof (unvisited_edge _ _ _ Hnd Hsub Hin Hnot) as Hlt.
  intros ([v1 v2] & _ & H)%bind_Some.
  apply bind_Some in H as (bldg & _ & H).
  destruct (blocks bldg player); [injection H as <-; lia|].
  apply bind_Some in H as (path & Hpath & [= <-]).
  apply IH in Hpath; [simpl in Hpath; lia|by constructor|].
  intros e [->|?]%elem_of_cons; auto.
Qed.

Hypothesis Hends : ∀ eid, eid ∈ player_edges →
  ∃ v1 v2, edge_endpoints topo !! eid = Some (v1, v2)
           ∧ v1 < length (vertex_adjacent_edges topo)
           ∧ v2 < length (vertex_adjacent_edges topo).
Hypothesis Hbuildings :
  length (vertex_adjacent_edges topo) ≤ length buildings.

(** With more fuel than unvisited edges the search returns. *)
Lemma _lr_dfs_total fuel : ∀ vertex visited,
  vertex < length (vertex_adjacent_edges topo) →
  NoDup visited → (∀ e, e ∈ visited → e ∈ player_edges) →
  length player_edges - length visited < fuel →
  is_Some (_lr_dfs fuel topo buildings player player_edges vertex
                   visited).
Proof using Hends Hbuildings.
  induction fuel as [|fuel IH]; intros vertex visited Hv Hnd Hsub Hfuel;
    [lia|].
  rewrite _lr_dfs_S.
  destruct (lookup_lt_is_Some_2 _ _ Hv) as [adj ->]. cbn -[_lr_dfs].
  destruct (foldlM_total (λ _, True)
              (lr_dfs_visit
                 (_lr_dfs fuel topo buildings player player_edges)
                 topo buildings player player_edges vertex visited) adj)
    with (b := 0) as (n & -> & _); [|done|by eexists].
  intros b eid _ _. unfold lr_dfs_visit.
  destruct (mem_nat eid player_edges) eqn:Hin; simpl; [|by eexists].
  destruct (mem_nat eid visited) eqn:Hvis; [by eexists|].
  apply mem_nat_spec in Hin.
  assert (eid ∉ visited) as Hnot.
  { intros Hx%mem_nat_spec. congruence. }
  pose proof (unvisited_edge _ _ _ Hnd Hsub Hin Hnot) as Hlt.
  destruct (Hends _ Hin) as (v1 & v2 & -> & Hv1 & Hv2). cbn -[_lr_dfs].
  set (next_v := if (v1 =? vertex)%nat then v2 else v1).
  assert (next_v < length (vertex_adjacent_edges topo)) as Hnext.
  { unfold next_v. by destruct (v1 =? vertex)%nat. }
  destruct (lookup_lt_is_Some_2 buildings next_v) as [bldg ->]; [lia|].
  cbn -[_lr_dfs]. destruct (blocks bldg player); [by eexists|].
  destruct (IH next_v (eid :: visited)) as [path ->];
    [done|by constructor|..|by eexists].
  - intros e [->|?]%elem_of_cons; auto.
  - simpl. lia.
Qed.
End search.

Lemma board_indices_ok_spec topo buildings roads :
  board_indices_ok topo buildings roads = true →
  (∀ eid, eid < edge_count topo →
     ∃ v1 v2, edge_endpoints topo !! eid = Some (v1, v2)
              ∧ v1 < length (vertex_adjacent_edges topo)
              ∧ v2 < length (vertex_adjacent_edges topo))
  ∧ length (vertex_adjacent_edges topo) ≤ length buildings
  ∧ edge_count topo ≤ length roads.
Proof.
  unfold board_indices_ok.
  intros [[Hall Hb%Nat.leb_le]%andb_true_iff Hr%Nat.leb_le]%andb_true_iff.
  split; [|done]. intros eid Heid.
  rewrite forallb_forall in Hall.
  specialize (Hall eid). rewrite <- list_elem_of_In, elem_of_range in Hall.
  specialize (Hall Heid).
  destruct (edge_endpoints topo !! eid) as [[v1 v2]|]; [|done].
  apply andb_true_iff in Hall as [H1%Nat.ltb_lt H2%Nat.ltb_lt]. eauto.
Qed.

(** X19, [calculate_longest_road]: on a board whose indices are in range
    the function returns a length: no lookup raises and the search ends
    within the fuel it is given ([_lr_dfs_fuel_mono] shows that more fuel
    gives the same result).  The set of edges it searches is the set of
    the player's roads, and the length is at most their number. *)
Theorem calculate_longest_road_total s topo player :
  topology s = Some topo →
  board_indices_ok topo (vertex_buildings s) (edge_roads s) = true →
  ∃ player_edges n,
    lr_player_edges topo (edge_roads s) player = Some player_edges
    ∧ (∀ eid, eid ∈ player_edges ↔
              eid < edge_count topo ∧ edge_roads s !! eid = Some (Some player))
    ∧ calculate_longest_road s player = Some n
    ∧ n ≤ length player_edges.
Proof.
  intros Htopo (Hends & Hb & Hr)%board_indices_ok_spec.
  unfold calculate_longest_road. rewrite Htopo. simpl.
  destruct (filterM_total
              (λ eid, r ← edge_roads s !! eid; Some (owner_is r player))
              (range (edge_count topo))) as [pe Hpe].
  { intros eid Heid%elem_of_range.
    destruct (lookup_lt_is_Some_2 (edge_roads s) eid) as [r ->]; [lia|].
    by eexists. }
  assert (Hin : ∀ eid, eid ∈ pe ↔
            eid < edge_count topo ∧ edge_roads s !! eid = Some (Some player)).
  { intros eid. rewrite (filterM_Some_In _ _ _ _ Hpe), elem_of_range.
    split; intros [Hlt H]; (split; [done|]).
    - apply bind_Some in H as (r & Hr' & [= H]). rewrite Hr'.
      destruct r as [q|]; [|done]. simpl in H.
      by apply Nat.eqb_eq in H as ->.
    - rewrite H. simpl. by rewrite Nat.eqb_refl. }
  assert (NoDup pe) as Hnd.
  { eapply filterM_NoDup; [exact Hpe|]. apply NoDup_seq. }
  exists pe. unfold lr_player_edges. rewrite Hpe. simpl.
  assert (Hends' : ∀ eid, eid ∈ pe →
            ∃ v1 v2, edge_endpoints topo !! eid = Some (v1, v2)
                     ∧ v1 < length (vertex_adjacent_edges topo)
                     ∧ v2 < length (vertex_adjacent_edges topo)).
  { intros eid [Hlt _]%Hin. by apply Hends. }
  unfold lr_from_edges. destruct pe as [|e0 pe0] eqn:Heq.
  { exists 0. done. }
  rewrite <- Heq in *. clear Heq.
  destruct (foldlM_total
              (λ acc, ∀ v, v ∈ acc → v < length (vertex_adjacent_edges topo))
              (λ acc eid,
                 '(v1, v2) ← edge_endpoints topo !! eid;
                 Some (set_add v2 (set_add v1 acc))) pe) with (b := @nil nat)
    as (svs & Hsvs & Hrange).
  { intros acc eid Heid Hacc.
    destruct (Hends' _ Heid) as (v1 & v2 & -> & Hv1 & Hv2). simpl.
    eexists. split; [done|].
    intros v [->|[->|Hv]%elem_of_set_add]%elem_of_set_add; auto. }
  { by intros v ?%not_elem_of_nil. }
  unfold lr_start_vertices. rewrite Hsvs. simpl.
  destruct (foldlM_total (λ m, m ≤ length pe)
              (λ max_length sv,
                 length ← _lr_dfs (S (length pe)) topo (vertex_buildings s)
                                  player pe sv [];
                 Some (if (max_length <? length)%nat then length
                       else max_length)) svs) with (b := 0)
    as (n & Hn & Hle); [|lia|].
  { intros m sv Hsv Hm.
    destruct (_lr_dfs_total topo (vertex_buildings s) player pe Hends' Hb
                (S (length pe)) sv []) as [len Hlen];
      [by apply Hrange|constructor|by intros e ?%not_elem_of_nil|simpl; lia|].
    rewrite Hlen. simpl. eexists. split; [done|].
    apply _lr_dfs_bound in Hlen;
      [|constructor|by intros e ?%not_elem_of_nil].
    simpl in Hlen. destruct (m <? len)%nat; lia. }
  exists n. split; [done|]. split; [done|]. split; [exact Hn|done].
Qed.

Lemma calculate_longest_road_total_witness :
  ∃ player_edges,
    lr_player_edges standard_topology (edge_roads road_sample) 1
    = Some player_edges
    ∧ calculate_longest_road road_sample 1 = Some 6
    ∧ 6 ≤ length player_edges.
Proof.
  assert (Htopo : topology road_sample = Some standard_topology)
    by (vm_compute; reflexivity).
  assert (Hok : board_indices_ok standard_topology
                  (vertex_buildings road_sample) (edge_roads road_sample)
                = true) by (vm_compute; reflexivity).
  assert (H6 : calculate_longest_road road_sample 1 = Some 6)
    by (vm_compute; reflexivity).
  destruct (calculate_longest_road_total road_sample standard_topology 1
              Htopo Hok) as (pe & n & Hpe & _ & Hn & Hle).
  exists pe. split; [exact Hpe|]. split; [exact H6|].
  rewrite H6 in Hn. injection Hn as Hn. rewrite Hn. exact Hle.
Defined.
